(** * Movie discovery application: search pipeline and popularity ledger

    A shallow embedding of [src/appwrite.js] (the popularity ledger client)
    and of the [App] component's fetch pipeline, with the properties the
    specification states about them.

    Conventions of the embedding.
    - A JavaScript string is a [string] whose characters are UTF-16 code
      units below 256 (the Latin-1 range); [trim], [toLowerCase] and
      [encodeURIComponent] are written out for that range.
    - [undefined]/[null] are [None]; a JavaScript value used as a condition
      goes through an explicit truthiness test.
    - Counters are integers ([Z]); the ledger stores them in an integer
      attribute and JavaScript adds 1 to them exactly below 2^53.
    - An [async] function is a tree of the calls it makes to the outside
      (document store, HTTP, clock, console, React state setters); a call
      that can reject answers with an [outcome]. *)

From Stdlib Require Import ZArith Ascii String List Bool Lia.
From stdpp Require Import base tactics option list strings pretty sorting.

Local Open Scope Z_scope.

(** ** JavaScript primitives *)

Module Js.

(** A thrown value: an [Error] with its message and, for the document
    store's exceptions, a numeric code. *)
Record JsError := mkError { message : string; code : option Z }.

Definition Error (msg : string) : JsError := mkError msg None.

(** The settlement of a call that may throw or reject. *)
Inductive outcome (A : Type) : Type :=
| Returned (a : A)
| Thrown (e : JsError).
Arguments Returned {A} a.
Arguments Thrown {A} e.

Definition is_returned {A} (o : outcome A) : bool :=
  match o with Returned _ => true | Thrown _ => false end.

(** Truthiness of a string that may be undefined: [undefined], [null] and
    the empty string are falsy. *)
Definition truthy (s : option string) : bool :=
  match s with
  | None => false
  | Some EmptyString => false
  | Some (String _ _) => true
  end.

Definition truthy_str (s : string) : bool := truthy (Some s).

Definition code_unit (c : ascii) : N := N_of_ascii c.

(** WhiteSpace and LineTerminator code units below 256:
    TAB, LF, VT, FF, CR, SP and NBSP. *)
Definition is_whitespace (c : ascii) : bool :=
  let n := code_unit c in
  ((9 <=? n) && (n <=? 13) || (n =? 32) || (n =? 160))%N.

Fixpoint trimStart (s : string) : string :=
  match s with
  | EmptyString => EmptyString
  | String c r => if is_whitespace c then trimStart r else s
  end.

Fixpoint trimEnd (s : string) : string :=
  match s with
  | EmptyString => EmptyString
  | String c r =>
      match trimEnd r with
      | EmptyString => if is_whitespace c then EmptyString else String c EmptyString
      | r' => String c r'
      end
  end.

(** [String.prototype.trim] *)
Definition trim (s : string) : string := trimEnd (trimStart s).

(** Lower case of one code unit: A-Z, and the Latin-1 capitals
    U+00C0..U+00DE except the multiplication sign U+00D7. *)
Definition lower_unit (c : ascii) : ascii :=
  let n := code_unit c in
  if ((65 <=? n) && (n <=? 90)
      || (192 <=? n) && (n <=? 222) && negb (n =? 215))%N
  then ascii_of_N (n + 32) else c.

(** [String.prototype.toLowerCase] *)
Fixpoint toLowerCase (s : string) : string :=
  match s with
  | EmptyString => EmptyString
  | String c r => String (lower_unit c) (toLowerCase r)
  end.

Fixpoint all_whitespace (s : string) : bool :=
  match s with
  | EmptyString => true
  | String c r => is_whitespace c && all_whitespace r
  end.

(** [String.prototype.startsWith] *)
Fixpoint startsWith (s p : string) {struct p} : bool :=
  match p, s with
  | EmptyString, _ => true
  | String _ _, EmptyString => false
  | String a p', String b s' => if Ascii.eqb a b then startsWith s' p' else false
  end.

(** [String.prototype.includes] *)
Fixpoint includes (s needle : string) : bool :=
  startsWith s needle ||
  match s with
  | EmptyString => false
  | String _ r => includes r needle
  end.

(** [Array.prototype.join] on strings *)
Fixpoint join (sep : string) (l : list string) : string :=
  match l with
  | [] => EmptyString
  | [x] => x
  | x :: r => x +:+ sep +:+ join sep r
  end.

(** The first occurrence of [pat] replaced by [by_]
    ([String.prototype.replace] with a string pattern). *)
Fixpoint replace (s pat by_ : string) : string :=
  if startsWith s pat then by_ +:+ String.substring (String.length pat) (String.length s - String.length pat) s
  else match s with
       | EmptyString => EmptyString
       | String c r => String c (replace r pat by_)
       end.

Definition hex_digit (n : N) : ascii :=
  ascii_of_N (if (n <? 10)%N then 48 + n else 55 + n).

Definition percent (byte : N) : string :=
  String "%" (String (hex_digit (byte / 16)) (String (hex_digit (byte mod 16)) EmptyString)).

(** Code units [encodeURIComponent] leaves alone: letters, digits and
    [- _ . ! ~ * ' ( )]. *)
Definition uri_unreserved (c : ascii) : bool :=
  let n := code_unit c in
  ((65 <=? n) && (n <=? 90) || (97 <=? n) && (n <=? 122) || (48 <=? n) && (n <=? 57)
   || (n =? 45) || (n =? 95) || (n =? 46) || (n =? 33) || (n =? 126)
   || (n =? 42) || (n =? 39) || (n =? 40) || (n =? 41))%N.

(** [encodeURIComponent]: every other code unit is written as the
    percent-escaped bytes of its UTF-8 encoding (one byte below 128, two
    bytes from 128 to 255).  The strings here hold code units below 256,
    among which there is no surrogate: on them the function returns. *)
Fixpoint encodeURIComponent (s : string) : string :=
  match s with
  | EmptyString => EmptyString
  | String c r =>
      let n := code_unit c in
      (if uri_unreserved c then String c EmptyString
       else if (n <? 128)%N then percent n
       else percent (192 + n / 64) +:+ percent (128 + n mod 64))
      +:+ encodeURIComponent r
  end.

(** Numbers are doubles; the model holds those whose value is an integer
    as [Z].  [to_double z] is the double nearest to the integer [z]: [z]
    itself when its magnitude is below [2 ^ 53], and otherwise the nearest
    multiple of the spacing of the doubles around it, the one with the even
    significand when two are as near.  (From [2 ^ 1024] on the nearest
    double is [Infinity], which the model does not hold.) *)
Definition to_double (z : Z) : Z :=
  let m := Z.abs z in
  if m <? 2 ^ 53 then z
  else
    let q := 2 ^ (Z.log2 m - 52) in
    let k := m / q in
    let r := m mod q in
    let k' := if 2 * r <? q then k
              else if q <? 2 * r then k + 1
              else if Z.even k then k else k + 1 in
    Z.sgn z * (k' * q).

(** [x + y] on numbers: the exact sum, rounded. *)
Definition plus (x y : Z) : Z := to_double (x + y).

(** The methods of [console] the application uses. *)
Inductive Level := log | warn | error.

(** The double quote, which the messages of the application contain. *)
Definition dquote : string := String (ascii_of_N 34) EmptyString.

End Js.

(** ** Asynchronous functions as trees of calls *)

Module Async.
Import Js.

Section Prog.
Context {E : Type -> Type}.

(** A JavaScript function body: it returns, throws, or makes the call
    [ev] and goes on with the answer. *)
Inductive prog (R : Type) : Type :=
| Ret (r : R)
| Throw (e : JsError)
| Vis {X : Type} (ev : E X) (k : X -> prog R).

Global Arguments Ret {R} r.
Global Arguments Throw {R} e.
Global Arguments Vis {R X} ev k.

Fixpoint bind {A B} (p : prog A) (f : A -> prog B) : prog B :=
  match p with
  | Ret a => f a
  | Throw e => Throw e
  | Vis ev k => Vis ev (fun x => bind (k x) f)
  end.

(** A call that cannot throw. *)
Definition perform {X} (ev : E X) : prog X := Vis ev Ret.

(** A pure step that may throw. *)
Definition settle {X} (o : outcome X) : prog X :=
  match o with
  | Returned x => Ret x
  | Thrown e => Throw e
  end.

(** [await] of a call that settles with a value or a rejection. *)
Definition await {X} (ev : E (outcome X)) : prog X := Vis ev settle.

(** [try { body } catch (error) { handler error }] *)
Fixpoint try_catch {R} (body : prog R) (handler : JsError -> prog R) : prog R :=
  match body with
  | Ret r => Ret r
  | Throw e => handler e
  | Vis ev k => Vis ev (fun x => try_catch (k x) handler)
  end.

(** [try { body } finally { cleanup }]: [cleanup] runs on every exit of
    [body], which then completes the way [body] did. *)
Fixpoint try_finally {R} (body : prog R) (cleanup : prog unit) : prog R :=
  match body with
  | Ret r => bind cleanup (fun _ => Ret r)
  | Throw e => bind cleanup (fun _ => Throw e)
  | Vis ev k => Vis ev (fun x => try_finally (k x) cleanup)
  end.

(** The outside world as a state machine answering the calls. *)
Definition handler (S : Type) : Type := forall X, E X -> S -> X * S.

(** One call and its answer, as recorded in a trace. *)
Definition call : Type := {X : Type & (E X * X)%type}.
Definition Call {X} (ev : E X) (x : X) : call := existT X (ev, x).

(** Running a program against a world: how it completes, the final
    state of the world, and the calls made, in order. *)
Fixpoint run {S R} (h : handler S) (p : prog R) (s : S) : outcome R * S * list call :=
  match p with
  | Ret r => (Returned r, s, [])
  | Throw e => (Thrown e, s, [])
  | Vis ev k =>
      let '(x, s') := h _ ev s in
      let '(o, s'', tr) := run h (k x) s' in
      (o, s'', Call ev x :: tr)
  end.

Definition result_of {S R} (r : outcome R * S * list call) : outcome R := r.1.1.
Definition state_of {S R} (r : outcome R * S * list call) : S := r.1.2.
Definition trace_of {S R} (r : outcome R * S * list call) : list call := r.2.

End Prog.

Arguments prog E R : clear implicits.
Arguments handler E S : clear implicits.
Arguments call E : clear implicits.

#[export] Instance prog_ret {E} : MRet (prog E) := fun _ a => Ret a.
#[export] Instance prog_bind {E} : MBind (prog E) := fun _ _ f p => bind p f.

(** [p ;; q]: [p], then [q]. *)
Notation "p ;; q" := (bind p (fun _ => q))
  (at level 100, q at level 200, right associativity).

End Async.

(** ** Data model *)

(** A movie as the metadata provider returns it. [vote_average] is the
    provider's rating in tenths of a point. *)
Module Movie.
Record t := mk {
  id : Z;
  title : string;
  poster_path : option string;
  release_date : option string;
  vote_average : option Z
}.
End Movie.

(** A popularity record as the document store returns it. *)
Module Doc.
Record t := mk {
  id : string;                     (* $id *)
  searchTerm : string;
  count : Z;
  movie_id : Z;
  title : string;
  poster_url : option string;
  release_date : option string;
  vote_average : Z;
  firstSearched : string;
  lastSearched : string
}.
End Doc.

(** An entry of the trending view. *)
Module Trending.
Record t := mk {
  id : string;                     (* $id *)
  searchTerm : string;
  title : string;
  movie_id : Z;
  poster_path : option string;
  poster_url : option string;
  count : Z;
  vote_average : Z;
  release_date : option string;
  lastSearched : string
}.
End Trending.

(** ** The popularity ledger client, [src/appwrite.js] *)

Module Appwrite.
Import Js Async.

(** [import.meta.env] *)
Record Env := mkEnv {
  VITE_APPWRITE_PROJECT_ID : option string;
  VITE_APPWRITE_DATABASE_ID : option string;
  VITE_APPWRITE_COLLECTION_ID : option string
}.

(** The queries of the store's SDK that the client builds. *)
Inductive Query :=
| Query_equal (attribute value : string)
| Query_limit (n : nat)
| Query_orderDesc (attribute : string)
| Query_greaterThan (attribute : string) (value : Z).

Record DocumentList := mkList { documents : list Doc.t }.

(** The data of [updateDocument] and of [createDocument]. *)
Record UpdateData := mkUpdate {
  u_count : Z;
  u_lastSearched : string;
  u_title : string;
  u_poster_url : option string
}.

Record CreateData := mkCreate {
  c_searchTerm : string;
  c_count : Z;
  c_movie_id : Z;
  c_title : string;
  c_poster_url : option string;
  c_release_date : option string;
  c_vote_average : Z;
  c_firstSearched : string;
  c_lastSearched : string
}.

(** What the client calls: the store ([database.*]), [ID.unique()],
    [new Date().toISOString()] and the console. *)
Inductive LedgerE : Type -> Type :=
| listDocuments (databaseId collectionId : option string) (queries : list Query)
  : LedgerE (outcome DocumentList)
| updateDocument (databaseId collectionId : option string) (documentId : string)
    (data : UpdateData) : LedgerE (outcome Doc.t)
| createDocument (databaseId collectionId : option string) (documentId : string)
    (data : CreateData) : LedgerE (outcome Doc.t)
| ID_unique : LedgerE string
| Date_toISOString : LedgerE string
| console (level : Level) (args : list string) : LedgerE unit.

(** The calls that reach the document store. *)
Definition is_store_call (c : call LedgerE) : bool :=
  match (projT2 c).1 with
  | listDocuments _ _ _ | updateDocument _ _ _ _ | createDocument _ _ _ _ => true
  | _ => false
  end.

(** The store calls that failed. *)
Definition is_failed_store_call (c : call LedgerE) : bool :=
  match c with
  | existT _ (ev, x) =>
      match ev in LedgerE X return X -> bool with
      | listDocuments _ _ _ => fun x => negb (is_returned x)
      | updateDocument _ _ _ _ => fun x => negb (is_returned x)
      | createDocument _ _ _ _ => fun x => negb (is_returned x)
      | _ => fun _ => false
      end x
  end.

Section Module.
Variable env : Env.

Definition PROJECT_ID := VITE_APPWRITE_PROJECT_ID env.
Definition DATABASE_ID := VITE_APPWRITE_DATABASE_ID env.
Definition COLLECTION_ID := VITE_APPWRITE_COLLECTION_ID env.

Definition validateEnvVars : outcome unit :=
  let missing := [] in
  let missing :=
    if negb (truthy PROJECT_ID) then missing ++ ["VITE_APPWRITE_PROJECT_ID"%string] else missing in
  let missing :=
    if negb (truthy DATABASE_ID) then missing ++ ["VITE_APPWRITE_DATABASE_ID"%string] else missing in
  let missing :=
    if negb (truthy COLLECTION_ID) then missing ++ ["VITE_APPWRITE_COLLECTION_ID"%string] else missing in
  if (0 <? length missing)%nat
  then Thrown (Error ("Missing required environment variables: " +:+ join ", " missing))
  else Returned tt.

Definition TMDB_W500 : string := "https://image.tmdb.org/t/p/w500".

(** [movie.poster_path ? `https://image.tmdb.org/t/p/w500${movie.poster_path}` : null] *)
Definition poster_url_of (movie : Movie.t) : option string :=
  match Movie.poster_path movie with
  | Some (String _ _ as p) => Some (TMDB_W500 +:+ p)
  | _ => None
  end.

(** [x || null] on an optional string *)
Definition or_null (x : option string) : option string :=
  if truthy x then x else None.

(** [x || 0] on an optional number *)
Definition or_zero (x : option Z) : Z :=
  match x with
  | Some n => n
  | None => 0
  end.

(** The tail of the [catch] blocks: the store's 401 and 404 get a line
    of their own on the console. *)
Definition report_code (e : JsError) : prog LedgerE unit :=
  if decide (code e = Some 401) then
    perform (console error ["Appwrite authentication failed. Check your project ID and permissions."%string])
  else if decide (code e = Some 404) then
    perform (console error ["Appwrite database or collection not found. Check your configuration."%string])
  else Ret tt.

Definition updateSearchCount (searchTerm : option string) (movie : option Movie.t)
  : prog LedgerE (option Doc.t) :=
  match searchTerm, movie with
  | Some (String _ _ as searchTerm), Some movie =>
      let sanitizedTerm := toLowerCase (trim searchTerm) in
      if negb (truthy_str sanitizedTerm) then Ret None
      else
        try_catch
          (result ← await (listDocuments DATABASE_ID COLLECTION_ID
                             [Query_equal "searchTerm" sanitizedTerm; Query_limit 1]);
           match documents result with
           | doc :: _ =>
               now ← perform Date_toISOString;
               updatedDoc ← await (updateDocument DATABASE_ID COLLECTION_ID (Doc.id doc)
                 {| u_count := plus (Doc.count doc) 1;
                    u_lastSearched := now;
                    u_title := Movie.title movie;
                    u_poster_url := poster_url_of movie |});
               perform (console log
                 ["Updated search count for " +:+ dquote +:+ sanitizedTerm +:+ dquote +:+ ": "
                  +:+ pretty (Doc.count updatedDoc)]);;
               Ret (Some updatedDoc)
           | [] =>
               newId ← perform ID_unique;
               first ← perform Date_toISOString;
               last ← perform Date_toISOString;
               newDoc ← await (createDocument DATABASE_ID COLLECTION_ID newId
                 {| c_searchTerm := sanitizedTerm;
                    c_count := 1;
                    c_movie_id := Movie.id movie;
                    c_title := Movie.title movie;
                    c_poster_url := poster_url_of movie;
                    c_release_date := or_null (Movie.release_date movie);
                    c_vote_average := or_zero (Movie.vote_average movie);
                    c_firstSearched := first;
                    c_lastSearched := last |});
               perform (console log
                 ["Created new search record for " +:+ dquote +:+ sanitizedTerm +:+ dquote]);;
               Ret (Some newDoc)
           end)
          (fun e =>
             perform (console error ["Error updating search count:"%string; message e]);;
             report_code e;;
             Ret None)
  | _, _ =>
      perform (console warn ["updateSearchCount: Missing required parameters"%string]);;
      Ret None
  end.

Definition to_trending (doc : Doc.t) : Trending.t :=
  {| Trending.id := Doc.id doc;
     Trending.searchTerm := Doc.searchTerm doc;
     Trending.title := Doc.title doc;
     Trending.movie_id := Doc.movie_id doc;
     Trending.poster_path :=
       match Doc.poster_url doc with
       | Some (String _ _ as u) => Some (replace u TMDB_W500 "")
       | _ => None
       end;
     Trending.poster_url := Doc.poster_url doc;
     Trending.count := Doc.count doc;
     Trending.vote_average := Doc.vote_average doc;
     Trending.release_date := Doc.release_date doc;
     Trending.lastSearched := Doc.lastSearched doc |}.

(** [limit] is [None] when the caller leaves the argument out. *)
Definition getTrendingMovies (limit : option nat) : prog LedgerE (list Trending.t) :=
  let limit := default 10%nat limit in
  try_catch
    (result ← await (listDocuments DATABASE_ID COLLECTION_ID
                       [Query_limit (Nat.min limit 100);
                        Query_orderDesc "count";
                        Query_greaterThan "count" 0]);
     let trendingMovies := map to_trending (documents result) in
     perform (console log
       ["Retrieved " +:+ pretty (length trendingMovies) +:+ " trending movies"]);;
     Ret trendingMovies)
    (fun e =>
       perform (console error ["Error fetching trending movies:"%string; message e]);;
       report_code e;;
       Ret [])
.

End Module.

(** What the module exports once its top level has run. *)
Record Exports := mkExports {
  exp_updateSearchCount : option string -> option Movie.t -> prog LedgerE (option Doc.t);
  exp_getTrendingMovies : option nat -> prog LedgerE (list Trending.t)
}.

(** Evaluation of the module: [validateEnvVars()] runs at load, before
    the client is built and before anything is exported. *)
Definition load (env : Env) : outcome Exports :=
  match validateEnvVars env with
  | Thrown e => Thrown e
  | Returned _ =>
      Returned {| exp_updateSearchCount := updateSearchCount env;
                  exp_getTrendingMovies := getTrendingMovies env |}
  end.

End Appwrite.

(** ** A reference document store

    The store behind [database] is an external service and not part of the
    repository; the ledger's properties that depend on what the store
    keeps are stated against this reference, which follows the
    specification's description of the collaborator: one collection held as
    a list of documents in insertion order, with exact-match and threshold
    filters, descending order and a limit, create and update by identifier.
    Any call may fail as a whole (network, authorization, missing
    collection): the oracle [fault] decides, and a failed call changes
    nothing.  Identifiers and clock readings come from oracles too, so
    nothing is assumed about them. *)

Module Store.
Import Js Async Appwrite.

Record World := mkWorld { docs : list Doc.t; tick : nat }.

Definition attr_string (a : string) (d : Doc.t) : option string :=
  if String.eqb a "$id" then Some (Doc.id d)
  else if String.eqb a "searchTerm" then Some (Doc.searchTerm d)
  else if String.eqb a "title" then Some (Doc.title d)
  else if String.eqb a "firstSearched" then Some (Doc.firstSearched d)
  else if String.eqb a "lastSearched" then Some (Doc.lastSearched d)
  else None.

Definition attr_int (a : string) (d : Doc.t) : option Z :=
  if String.eqb a "count" then Some (Doc.count d)
  else if String.eqb a "movie_id" then Some (Doc.movie_id d)
  else if String.eqb a "vote_average" then Some (Doc.vote_average d)
  else None.

Definition satisfies (d : Doc.t) (q : Query) : bool :=
  match q with
  | Query_equal a v =>
      match attr_string a d with
      | Some s => String.eqb s v
      | None => false
      end
  | Query_greaterThan a v =>
      match attr_int a d with
      | Some n => v <? n
      | None => false
      end
  | Query_limit _ | Query_orderDesc _ => true
  end.

(** Descending order on an integer attribute. *)
Definition desc_by (a : string) : relation Doc.t :=
  fun x y => default 0 (attr_int a y) <= default 0 (attr_int a x).

#[export] Instance desc_by_dec a x y : Decision (desc_by a x y).
Proof. unfold desc_by. apply _. Defined.

Fixpoint ordered (qs : list Query) (l : list Doc.t) : list Doc.t :=
  match qs with
  | [] => l
  | Query_orderDesc a :: _ => merge_sort (desc_by a) l
  | _ :: qs' => ordered qs' l
  end.

(** The store's default page size when no limit is asked for. *)
Definition DEFAULT_LIMIT : nat := 25.

Fixpoint limit_of (qs : list Query) : nat :=
  match qs with
  | [] => DEFAULT_LIMIT
  | Query_limit n :: _ => n
  | _ :: qs' => limit_of qs'
  end.

(** Modelled from the spec: the store's query evaluation, which the
    repository only calls ([database.listDocuments]): the documents that
    satisfy every filter, in the order asked for, cut at the limit. *)
Definition select (qs : list Query) (l : list Doc.t) : list Doc.t :=
  take (limit_of qs) (ordered qs (List.filter (fun d => forallb (satisfies d) qs) l)).

Definition has_id (i : string) (d : Doc.t) : bool := String.eqb (Doc.id d) i.

Definition apply_update (u : UpdateData) (d : Doc.t) : Doc.t :=
  {| Doc.id := Doc.id d;
     Doc.searchTerm := Doc.searchTerm d;
     Doc.count := u_count u;
     Doc.movie_id := Doc.movie_id d;
     Doc.title := u_title u;
     Doc.poster_url := u_poster_url u;
     Doc.release_date := Doc.release_date d;
     Doc.vote_average := Doc.vote_average d;
     Doc.firstSearched := Doc.firstSearched d;
     Doc.lastSearched := u_lastSearched u |}.

Definition new_doc (i : string) (c : CreateData) : Doc.t :=
  {| Doc.id := i;
     Doc.searchTerm := c_searchTerm c;
     Doc.count := c_count c;
     Doc.movie_id := c_movie_id c;
     Doc.title := c_title c;
     Doc.poster_url := c_poster_url c;
     Doc.release_date := c_release_date c;
     Doc.vote_average := c_vote_average c;
     Doc.firstSearched := c_firstSearched c;
     Doc.lastSearched := c_lastSearched c |}.

(** The first document with identifier [i] rewritten by [f]. *)
Fixpoint patch (i : string) (f : Doc.t -> Doc.t) (l : list Doc.t) : list Doc.t :=
  match l with
  | [] => []
  | d :: r => if has_id i d then f d :: r else d :: patch i f r
  end.

Definition not_found : JsError :=
  {| message := "Document with the requested ID could not be found."; code := Some 404 |}.

Definition conflict : JsError :=
  {| message := "Document with the requested ID already exists."; code := Some 409 |}.

(** The normalization of a search term. *)
Definition normalize (term : string) : string := toLowerCase (trim term).


Section Handler.
Variable fault : nat -> option JsError.
Variable clock : nat -> string.
Variable fresh : nat -> string.

Definition tock (w : World) : World := {| docs := docs w; tick := S (tick w) |}.

(** Modelled from the spec: the document store the client talks to
    ([database.listDocuments], [updateDocument], [createDocument]), together
    with the identifier generator and the clock; none of them is in the
    repository. *)
Definition handle : handler LedgerE World := fun X ev w =>
  match ev in LedgerE X return X * World with
  | listDocuments _ _ qs =>
      match fault (tick w) with
      | Some e => (Thrown e, tock w)
      | None => (Returned (mkList (select qs (docs w))), tock w)
      end
  | updateDocument _ _ i u =>
      match fault (tick w) with
      | Some e => (Thrown e, tock w)
      | None =>
          match find (has_id i) (docs w) with
          | Some d =>
              (Returned (apply_update u d),
               {| docs := patch i (apply_update u) (docs w); tick := S (tick w) |})
          | None => (Thrown not_found, tock w)
          end
      end
  | createDocument _ _ i c =>
      match fault (tick w) with
      | Some e => (Thrown e, tock w)
      | None =>
          if existsb (has_id i) (docs w) then (Thrown conflict, tock w)
          else (Returned (new_doc i c),
                {| docs := docs w ++ [new_doc i c]; tick := S (tick w) |})
      end
  | ID_unique => (fresh (tick w), tock w)
  | Date_toISOString => (clock (tick w), tock w)
  | console _ _ => (tt, w)
  end.

Variable env : Env.

(** Record, on the reference store. *)
Definition Record_ (term : option string) (movie : option Movie.t) (w : World)
  : outcome (option Doc.t) * World :=
  (run handle (updateSearchCount env term movie) w).1.

(** TopTrending, on the reference store. *)
Definition TopTrending (limit : option nat) (w : World)
  : outcome (list Trending.t) * World :=
  (run handle (getTrendingMovies env limit) w).1.

(** A sequence of Record calls, one after the other. *)
Fixpoint Record_all (calls : list (option string * option Movie.t)) (w : World) : World :=
  match calls with
  | [] => w
  | (term, movie) :: rest => Record_all rest (Record_ term movie w).2
  end.



(** [lost] says which writes have their answer lost, and with which error;
    nothing is assumed about it. *)
Variable lost : nat -> option JsError.

(** Modelled from the spec: the same store when the answer to a write can
    also be lost on its way back: the store has made the write, and the
    client sees a failure. *)
Definition handle_lossy : handler LedgerE World := fun X ev w =>
  match ev in LedgerE X return X * World -> X * World with
  | updateDocument _ _ _ _ => fun r =>
      match r.1, lost (tick w) with
      | Returned _, Some e => (Thrown e, r.2)
      | _, _ => r
      end
  | createDocument _ _ _ _ => fun r =>
      match r.1, lost (tick w) with
      | Returned _, Some e => (Thrown e, r.2)
      | _, _ => r
      end
  | _ => fun r => r
  end (handle X ev w).

End Handler.

Section On.
(** Record, and sequences of Record calls, on a store [h]. *)
Variable h : handler LedgerE World.
Variable env : Env.

Definition Record_on (term : option string) (movie : option Movie.t) (w : World)
  : outcome (option Doc.t) * World :=
  (run h (updateSearchCount env term movie) w).1.



End On.


(** The stored counter of a normalized term: the count of its record, 0
    when there is none. *)
Definition record_of (t : string) (l : list Doc.t) : option Doc.t :=
  find (fun d => String.eqb (Doc.searchTerm d) t) l.

Definition counter (t : string) (w : World) : Z :=
  match record_of t (docs w) with
  | Some d => Doc.count d
  | None => 0
  end.

(** Distinct documents have distinct identifiers. *)
Definition well_formed (w : World) : Prop := NoDup (map Doc.id (docs w)).

(** The records the trending view may show: those with a positive count. *)
Definition eligible (l : list Doc.t) : list Doc.t :=
  List.filter (fun d => 0 <? Doc.count d) l.

(** Counts up to [2 ^ 53] in magnitude: all of them are doubles. *)
Definition counts_in_range (w : World) : Prop :=
  Forall (fun d => Z.abs (Doc.count d) <= 2 ^ 53) (docs w).

(** What the write of a call for the term [s] leaves in the store: the
    record [d] of the normalized term, with the count of the record that
    was there plus 1, or with count 1 when there was none; the records of
    the other terms are as they were. *)
Definition written (s : string) (d : Doc.t) (l l' : list Doc.t) : Prop :=
  record_of (normalize s) l' = Some d
  /\ Doc.count d = match record_of (normalize s) l with
                   | Some old => plus (Doc.count old) 1
                   | None => 1
                   end
  /\ forall t, t <> normalize s -> record_of t l' = record_of t l.

End Store.

(** ** The [App] component: state and fetch pipeline *)

Module App.
Import Js Async.

Definition API_BASE_URL : string := "https://api.themoviedb.org/3".

Record Headers := mkHeaders { accept : string; Authorization : string }.
Record RequestInit := mkInit { method : string; headers : Headers }.

(** The parsed body of a provider response: [null], or an object whose
    [results] may be missing. *)
Inductive Data :=
| mkData (results : option (list Movie.t))
| Null.

(** The error of reading a property of [null].  Its text is the engine's,
    here that of V8; no engine's text has one of the words the [catch]
    block of [fetchMovies] looks for. *)
Definition null_results : JsError :=
  Error "Cannot read properties of null (reading 'results')".

(** [data.results] *)
Definition results (data : Data) : outcome (option (list Movie.t)) :=
  match data with
  | mkData results => Returned results
  | Null => Thrown null_results
  end.

(** An HTTP response; [body] is what [response.json()] settles with. *)
Record Response := mkResponse {
  ok : bool;
  status : Z;
  statusText : string;
  body : outcome Data
}.

(** A console argument: a string, or an error object. *)
Inductive LogArg := Text (s : string) | Obj (e : JsError).

(** What the component calls: the React state setters, the console, and
    the three asynchronous calls it awaits. *)
Inductive AppE : Type -> Type :=
| setSearchTerm (s : string) : AppE unit
| setMovieList (l : list Movie.t) : AppE unit
| setErrorMessage (s : string) : AppE unit
| setIsLoading (b : bool) : AppE unit
| setIsRetrying (b : bool) : AppE unit
| setTrendingMovies (l : list Trending.t) : AppE unit
| setInitialLoad (b : bool) : AppE unit
| console (level : Level) (args : list LogArg) : AppE unit
| fetch (url : string) (options : RequestInit) : AppE (outcome Response)
| updateSearchCount (searchTerm : string) (movie : option Movie.t)
  : AppE (outcome (option Doc.t))
| getTrendingMovies (limit : nat) : AppE (outcome (list Trending.t)).

(** The [useState] cells of the component. *)
Record State := mkState {
  searchTerm : string;
  movieList : list Movie.t;
  errorMessage : string;
  isLoading : bool;
  isRetrying : bool;
  trendingMovies : list Trending.t;
  initialLoad : bool
}.

Definition initial : State :=
  {| searchTerm := ""; movieList := []; errorMessage := ""; isLoading := false;
     isRetrying := false; trendingMovies := []; initialLoad := true |}.

(** [getErrorType] *)
Definition getErrorType (e : JsError) : string :=
  let message := toLowerCase (Js.message e) in
  if includes message "network" || includes message "fetch" then "network"
  else if includes message "404" || includes message "not found" then "search"
  else if includes message "500" || includes message "server" then "server"
  else "general".

Definition CONFIG_ERROR : string :=
  "TMDB API key is not configured. Please check your environment variables.".

(** [movie => movie.poster_path] as a condition *)
Definition has_poster (movie : Movie.t) : bool := truthy (Movie.poster_path movie).

(** The specification's wording of the same filter: the poster reference
    is not null. *)
Definition poster_not_null (movie : Movie.t) : bool :=
  match Movie.poster_path movie with
  | Some _ => true
  | None => false
  end.

Definition no_results_message (query : string) : string :=
  if truthy_str query
  then "No movies found for " +:+ dquote +:+ query +:+ dquote +:+ ". Try different keywords."
  else "No movies available at the moment.".

(** The message the [catch] block shows for a thrown error. *)
Definition user_message (e : JsError) : string :=
  if includes (message e) "401" then "Invalid API credentials. Please check your TMDB API key."
  else if includes (message e) "429" then "Too many requests. Please wait a moment and try again."
  else if includes (message e) "Failed to fetch"
       then "Network error. Please check your connection and try again."
  else "Failed to load movies. Please try again later.".

Section Component.
(** [import.meta.env.VITE_TMDB_API_KEY] *)
Variable API_KEY : option string.

Definition API_OPTIONS : RequestInit :=
  {| method := "GET";
     headers := {| accept := "application/json";
                   Authorization := "Bearer " +:+ default "undefined" API_KEY |} |}.

Definition search_endpoint (query : string) : string :=
  API_BASE_URL +:+ "/search/movie?query=" +:+ encodeURIComponent query
    +:+ "&include_adult=false&language=en-US&page=1".

Definition discover_endpoint : string :=
  API_BASE_URL
    +:+ "/discover/movie?include_adult=false&include_video=false&language=en-US&page=1&sort_by=popularity.desc".

(** [fetchMovies], as the closure of a render in which the state cell
    [initialLoad] had the value [initialLoad]. *)
Definition fetchMovies (initialLoad : bool) (query : string) (isRetry : bool)
  : prog AppE unit :=
  if negb (truthy_str query) && negb initialLoad then Ret tt
  else if negb (truthy API_KEY) then perform (setErrorMessage CONFIG_ERROR)
  else
    (if isRetry then perform (setIsRetrying true) else perform (setIsLoading true));;
    perform (setErrorMessage "");;
    try_finally
      (try_catch
         (let endpoint :=
            if truthy_str query then search_endpoint query else discover_endpoint in
          perform (console log [Text ("Fetching movies: " +:+ endpoint)]);;
          response ← await (fetch endpoint API_OPTIONS);
          (if negb (ok response)
           then Throw (Error ("HTTP " +:+ pretty (status response) +:+ ": "
                                +:+ statusText response))
           else Ret tt);;
          data ← settle (body response);
          results ← settle (results data);
          match results with
          | None | Some [] =>
              perform (setErrorMessage (no_results_message query));;
              perform (setMovieList [])
          | Some results =>
              let moviesWithPosters := List.filter has_poster results in
              perform (setMovieList
                (if (0 <? length moviesWithPosters)%nat then moviesWithPosters else results));;
              (if truthy_str query && (0 <? length results)%nat then
                 try_catch
                   (await (updateSearchCount query (head results));; Ret tt)
                   (fun appwriteError =>
                      perform (console warn
                        [Text "Failed to update search count:"; Text (message appwriteError)]))
               else Ret tt);;
              perform (console log
                [Text ("Successfully fetched " +:+ pretty (length results) +:+ " movies")])
          end)
         (fun e =>
            perform (console error [Text "Error fetching movies:"; Obj e]);;
            let errorType := getErrorType e in
            perform (setErrorMessage (user_message e));;
            perform (setMovieList [])))
      (perform (setIsLoading false);;
       perform (setIsRetrying false);;
       if initialLoad then perform (setInitialLoad false) else Ret tt).

(** [loadTrendingMovies] *)
Definition loadTrendingMovies : prog AppE unit :=
  try_catch
    (movies ← await (getTrendingMovies 5);
     perform (setTrendingMovies movies);;
     perform (console log
       [Text ("Loaded " +:+ pretty (length movies) +:+ " trending movies")]))
    (fun e => perform (console error [Text "Error fetching trending movies:"; Obj e])).

End Component.

(** *** Execution

    A state setter or a console call is answered at once by the
    component itself; at the three awaited calls the function is
    suspended until the outside settles them. *)
Definition with_searchTerm (s : string) (st : State) : State :=
  {| searchTerm := s; movieList := movieList st; errorMessage := errorMessage st;
     isLoading := isLoading st; isRetrying := isRetrying st;
     trendingMovies := trendingMovies st; initialLoad := initialLoad st |}.

Definition with_movieList (l : list Movie.t) (st : State) : State :=
  {| searchTerm := searchTerm st; movieList := l; errorMessage := errorMessage st;
     isLoading := isLoading st; isRetrying := isRetrying st;
     trendingMovies := trendingMovies st; initialLoad := initialLoad st |}.

Definition with_errorMessage (s : string) (st : State) : State :=
  {| searchTerm := searchTerm st; movieList := movieList st; errorMessage := s;
     isLoading := isLoading st; isRetrying := isRetrying st;
     trendingMovies := trendingMovies st; initialLoad := initialLoad st |}.

Definition with_isLoading (b : bool) (st : State) : State :=
  {| searchTerm := searchTerm st; movieList := movieList st; errorMessage := errorMessage st;
     isLoading := b; isRetrying := isRetrying st;
     trendingMovies := trendingMovies st; initialLoad := initialLoad st |}.

Definition with_isRetrying (b : bool) (st : State) : State :=
  {| searchTerm := searchTerm st; movieList := movieList st; errorMessage := errorMessage st;
     isLoading := isLoading st; isRetrying := b;
     trendingMovies := trendingMovies st; initialLoad := initialLoad st |}.

Definition with_trendingMovies (l : list Trending.t) (st : State) : State :=
  {| searchTerm := searchTerm st; movieList := movieList st; errorMessage := errorMessage st;
     isLoading := isLoading st; isRetrying := isRetrying st;
     trendingMovies := l; initialLoad := initialLoad st |}.

Definition with_initialLoad (b : bool) (st : State) : State :=
  {| searchTerm := searchTerm st; movieList := movieList st; errorMessage := errorMessage st;
     isLoading := isLoading st; isRetrying := isRetrying st;
     trendingMovies := trendingMovies st; initialLoad := b |}.

Definition react {X} (ev : AppE X) (st : State) : option (X * State) :=
  match ev in AppE X return option (X * State) with
  | setSearchTerm s => Some (tt, with_searchTerm s st)
  | setMovieList l => Some (tt, with_movieList l st)
  | setErrorMessage s => Some (tt, with_errorMessage s st)
  | setIsLoading b => Some (tt, with_isLoading b st)
  | setIsRetrying b => Some (tt, with_isRetrying b st)
  | setTrendingMovies l => Some (tt, with_trendingMovies l st)
  | setInitialLoad b => Some (tt, with_initialLoad b st)
  | console _ _ => Some (tt, st)
  | fetch _ _ | updateSearchCount _ _ | getTrendingMovies _ => None
  end.

(** A function that has run as far as it can without the outside. *)
Inductive progress (R : Type) : Type :=
| Done (o : outcome R)
| Awaiting {X : Type} (ev : AppE X) (k : X -> prog AppE R).
Arguments Done {R} o.
Arguments Awaiting {R X} ev k.

(** Run to completion or to the next awaited call. *)
Fixpoint advance {R} (p : prog AppE R) (st : State) : State * progress R :=
  match p with
  | Ret r => (st, Done (Returned r))
  | Throw e => (st, Done (Thrown e))
  | Vis ev k =>
      match react ev st with
      | Some (x, st') => advance (k x) st'
      | None => (st, Awaiting ev k)
      end
  end.

(** The outside of the component: how the provider and the ledger settle
    the awaited calls. *)
Record World := mkWorld {
  fetch_reply : string -> RequestInit -> outcome Response;
  ledger_reply : string -> option Movie.t -> outcome (option Doc.t);
  trending_reply : nat -> outcome (list Trending.t)
}.

Definition reply (w : World) {X} (ev : AppE X) : X :=
  match ev in AppE X return X with
  | fetch url options => fetch_reply w url options
  | updateSearchCount q m => ledger_reply w q m
  | getTrendingMovies n => trending_reply w n
  | _ => tt
  end.

Definition handle (w : World) : handler AppE State := fun X ev st =>
  match react ev st with
  | Some r => r
  | None => (reply w ev, st)
  end.

Definition is_fetch (c : call AppE) : bool :=
  match (projT2 c).1 with
  | fetch _ _ => true
  | _ => false
  end.

Definition is_ledger_call (c : call AppE) : bool :=
  match (projT2 c).1 with
  | updateSearchCount _ _ => true
  | _ => false
  end.

(** The answer of a call to [fetch], and the responses a run received. *)
Definition fetched (c : call AppE) : option (outcome Response) :=
  match c with
  | existT _ (ev, x) =>
      match ev in AppE X return X -> option (outcome Response) with
      | fetch _ _ => fun x => Some x
      | _ => fun _ => None
      end x
  end.

Definition received (tr : list (call AppE)) : list (outcome Response) :=
  omap fetched tr.

(** The messages a run put in [errorMessage], in order. *)
Definition message_set (c : call AppE) : option string :=
  match (projT2 c).1 with
  | setErrorMessage s => Some s
  | _ => None
  end.

Definition messages_set (tr : list (call AppE)) : list string := omap message_set tr.

(** What a run wrote on the console, in order. *)
Definition console_line (c : call AppE) : option (Level * list LogArg) :=
  match (projT2 c).1 with
  | console level args => Some (level, args)
  | _ => None
  end.

Definition consoled (tr : list (call AppE)) : list (Level * list LogArg) :=
  omap console_line tr.

(** Resuming a function suspended at [fetch], or at the ledger call,
    with the settlement of that call. *)
Definition resume_fetch {R} (pr : State * progress R) (o : outcome Response)
  : State * progress R :=
  match pr with
  | (st, Awaiting ev k) =>
      match ev in AppE X return (X -> prog AppE R) -> State * progress R with
      | fetch _ _ => fun k => advance (k o) st
      | _ => fun _ => pr
      end k
  | _ => pr
  end.

Definition resume_ledger {R} (pr : State * progress R) (o : outcome (option Doc.t))
  : State * progress R :=
  match pr with
  | (st, Awaiting ev k) =>
      match ev in AppE X return (X -> prog AppE R) -> State * progress R with
      | updateSearchCount _ _ => fun k => advance (k o) st
      | _ => fun _ => pr
      end k
  | _ => pr
  end.

(** The call a suspended function is waiting for. *)
Definition fetch_awaited {R} (pr : State * progress R) : option (string * RequestInit) :=
  match pr.2 with
  | Awaiting ev _ =>
      match ev with
      | fetch url options => Some (url, options)
      | _ => None
      end
  | Done _ => None
  end.

Definition ledger_call_awaited {R} (pr : State * progress R)
  : option (string * option Movie.t) :=
  match pr.2 with
  | Awaiting ev _ =>
      match ev with
      | updateSearchCount q m => Some (q, m)
      | _ => None
      end
  | Done _ => None
  end.

Definition finished {R} (pr : State * progress R) : option (outcome R) :=
  match pr.2 with
  | Done o => Some o
  | Awaiting _ _ => None
  end.

(** The busy indicator the component renders. *)
Definition busy (st : State) : bool := isLoading st || isRetrying st.

Section Lifetime.
Variable API_KEY : option string.

(** One run of the pipeline, from the state [st] of the render that
    created the closure, against the outside [w]. *)
Definition pipeline (w : World) (st : State) (query : string) (isRetry : bool)
  : outcome unit * State * list (call AppE) :=
  run (handle w) (fetchMovies API_KEY (initialLoad st) query isRetry) st.

(** The component always gives the pipeline the trimmed search term. *)
Definition pipeline_for_term (w : World) (st : State) (term : string) (isRetry : bool) :=
  pipeline w st (trim term) isRetry.

(** The states the component goes through in its lifetime: the user
    types, the pipeline runs (with any query, whatever the outside
    answers), the trending list loads. *)
Inductive reachable : State -> Prop :=
| reach_initial : reachable initial
| reach_typing st s :
    reachable st -> reachable (with_searchTerm s st)
| reach_pipeline st w query isRetry :
    reachable st -> reachable (state_of (pipeline w st query isRetry))
| reach_trending st w :
    reachable st -> reachable (state_of (run (handle w) loadTrendingMovies st)).

End Lifetime.

End App.

(** ** Sample data *)

Module Sample.
Import Js Async.

Definition env : Appwrite.Env :=
  Appwrite.mkEnv (Some "project") (Some "database") (Some "collection").

Definition env_without_database : Appwrite.Env :=
  Appwrite.mkEnv (Some "project") None (Some "collection").

Definition batman : Movie.t :=
  {| Movie.id := 268; Movie.title := "Batman"; Movie.poster_path := Some "/batman.jpg";
     Movie.release_date := Some "1989-06-23"; Movie.vote_average := Some 72 |}.

(** A result whose poster reference is the empty string. *)
Definition blank_poster : Movie.t :=
  {| Movie.id := 7; Movie.title := "Untitled"; Movie.poster_path := Some "";
     Movie.release_date := None; Movie.vote_average := None |}.

Definition no_fault : nat -> option JsError := fun _ => None.

(** The first store call fails, the later ones succeed. *)
Definition first_call_fails : nat -> option JsError :=
  fun n => if (n =? 0)%nat then Some (Error "Failed to fetch") else None.

Definition clock : nat -> string := fun n => "2024-05-01T10:00:00." +:+ pretty n +:+ "Z".
Definition fresh : nat -> string := fun n => "doc-" +:+ pretty n.

Definition empty_store : Store.World := Store.mkWorld [] 0.

Definition record (i : nat) : Doc.t :=
  {| Doc.id := "doc-" +:+ pretty i; Doc.searchTerm := "term " +:+ pretty i;
     Doc.count := Z.of_nat i + 1; Doc.movie_id := Z.of_nat i; Doc.title := "Movie";
     Doc.poster_url := None; Doc.release_date := None; Doc.vote_average := 0;
     Doc.firstSearched := "2024-05-01T09:00:00.000Z";
     Doc.lastSearched := "2024-05-01T09:00:00.000Z" |}.

(** A store with 101 records, all of them with a positive count. *)
Definition crowded_store : Store.World := Store.mkWorld (map record (seq 0 101)) 0.

Definition response (results : option (list Movie.t)) : App.Response :=
  {| App.ok := true; App.status := 200; App.statusText := "OK";
     App.body := Returned (App.mkData results) |}.

(** A 2xx response whose body is [null]. *)
Definition null_body : App.Response :=
  {| App.ok := true; App.status := 200; App.statusText := "OK";
     App.body := Returned App.Null |}.

(** An outside in which the provider answers every request with [resp]
    and the ledger is down. *)
Definition outside (resp : App.Response) : App.World :=
  {| App.fetch_reply := fun _ _ => Returned resp;
     App.ledger_reply := fun _ _ => Thrown (Error "ledger unavailable");
     App.trending_reply := fun _ => Returned [] |}.

(** An outside in which the network is down. *)
Definition offline : App.World :=
  {| App.fetch_reply := fun _ _ => Thrown (Error "Failed to fetch");
     App.ledger_reply := fun _ _ => Thrown (Error "ledger unavailable");
     App.trending_reply := fun _ => Returned [] |}.

(** The answer to the write at tick 4, the creation of the first record
    in the empty store, is lost. *)
Definition answer_lost : nat -> option JsError :=
  fun n => if (n =? 4)%nat then Some (Error "Failed to fetch") else None.

(** A store whose record for batman has been counted [2 ^ 53] times. *)
Definition saturated_store : Store.World :=
  Store.mkWorld
    [{| Doc.id := "doc-0"; Doc.searchTerm := "batman"; Doc.count := 2 ^ 53;
        Doc.movie_id := 268; Doc.title := "Batman"; Doc.poster_url := None;
        Doc.release_date := None; Doc.vote_average := 72;
        Doc.firstSearched := "2024-05-01T09:00:00.000Z";
        Doc.lastSearched := "2024-05-01T09:00:00.000Z" |}] 0.

End Sample.

(** ** What the component renders *)

Module View.
Import Js Async App.

(** The error the [try] block of [fetchMovies] throws for a settlement of
    [fetch], if any: the rejection itself, the [HTTP status: text] error of
    a response that is not ok, the failure of [response.json()], or the
    error of reading the results of a body that is [null]. *)
Definition failure_of (o : outcome Response) : option JsError :=
  match o with
  | Thrown e => Some e
  | Returned response =>
      if negb (ok response)
      then Some (Error ("HTTP " +:+ pretty (status response) +:+ ": " +:+ statusText response))
      else match body response with
           | Thrown e => Some e
           | Returned data =>
               match results data with
               | Thrown e => Some e
               | Returned _ => None
               end
           end
  end.

(** The results of a settlement of [fetch] that did not fail;
    [data.results] missing counts as none. *)
Definition results_of (o : outcome Response) : list Movie.t :=
  match o with
  | Returned response =>
      match body response with
      | Returned data =>
          match results data with
          | Returned results => default [] results
          | Thrown _ => []
          end
      | Thrown _ => []
      end
  | Thrown _ => []
  end.

(** The content area of the page, below the heading. *)
Inductive Content :=
| Spinner (message : string)
| ErrorMessage (message type : string) (isRetrying : bool)
| MovieGrid (movies : list Movie.t) (loadMore : bool)
| Placeholder (title text : string).

(** The conditional of the content area:
    [isLoading ? ... : errorMessage ? ... : movieList.length > 0 ? ... : ...]. *)
Definition content (st : State) : Content :=
  if isLoading st then
    Spinner (if truthy_str (searchTerm st)
             then "Searching for " +:+ dquote +:+ searchTerm st +:+ dquote +:+ "..."
             else "Loading popular movies...")
  else if truthy_str (errorMessage st) then
    ErrorMessage (errorMessage st) (getErrorType (Error (errorMessage st))) (isRetrying st)
  else if (0 <? length (movieList st))%nat then
    MovieGrid (movieList st) (20 <=? length (movieList st))%nat
  else
    Placeholder
      (if truthy_str (searchTerm st) then "No movies found" else "No movies to display")
      (if truthy_str (searchTerm st)
       then "Try searching for different keywords"
       else "Start by searching for your favorite movies").

(** [getErrorConfig] of the [ErrorMessage] component: the title and the
    suggestions shown for a type. *)
Definition getErrorConfig (type : string) : string * list string :=
  if String.eqb type "network" then
    ("Connection Problem", ["Check your internet connection"; "Try refreshing the page"])
  else if String.eqb type "search" then
    ("No Results Found", ["Try different keywords"; "Check for typos"])
  else if String.eqb type "server" then
    ("Server Error",
     ["The service is temporarily unavailable"; "Please try again in a moment"])
  else ("Something went wrong", []).

(** What holds of the state between two runs of the pipeline. *)
Definition settled (API_KEY : option string) (st : State) : Prop :=
  isLoading st = false /\ isRetrying st = false
  /\ (truthy API_KEY = false -> movieList st = [])
  /\ (errorMessage st = EmptyString /\ movieList st = [] /\ initialLoad st = true
      \/ errorMessage st = EmptyString /\ movieList st <> []
      \/ errorMessage st <> EmptyString /\ movieList st = []).

(** The movie list a run leaves for a settlement of [fetch]. *)
Definition displayed (o : outcome Response) : list Movie.t :=
  match failure_of o with
  | Some _ => []
  | None =>
      if (0 <? length (List.filter has_poster (results_of o)))%nat
      then List.filter has_poster (results_of o) else results_of o
  end.

(** The message it leaves, where [current] is the message at the time
    the answer arrives: an answer with results sets none, the run cleared
    the message before its request. *)
Definition reported (query : string) (o : outcome Response) (current : string) : string :=
  match failure_of o, results_of o with
  | Some e, _ => user_message e
  | None, [] => no_results_message query
  | None, _ :: _ => current
  end.

(** A suspended function goes on in the state the component has then:
    the cells are shared with whatever ran meanwhile. *)
Definition in_state {R} (st : State) (pr : State * progress R) : State * progress R :=
  (st, pr.2).

(** The arguments of a call to the ledger's [updateSearchCount]. *)
Definition ledger_args (c : call AppE) : option (string * option Movie.t) :=
  match (projT2 c).1 with
  | updateSearchCount q m => Some (q, m)
  | _ => None
  end.

(** The outside of the component when the trending list is read by
    [getTrendingMovies] of [src/appwrite.js] from the reference store. *)
Definition trending_from (fault : nat -> option JsError) (clock fresh : nat -> string)
    (env : Appwrite.Env) (store : Store.World) (w : World) : World :=
  {| fetch_reply := fetch_reply w;
     ledger_reply := ledger_reply w;
     trending_reply := fun limit =>
       (Store.TopTrending fault clock fresh env (Some limit) store).1 |}.

End View.

(** ** Ledger statistics, [getSearchStats] of [src/appwrite.js] *)

Module Stats.
Import Js Async Appwrite.

Record TopSearch := mkTop { term : string; count : Z; title : string }.

(** The object [getSearchStats] returns: with [lastUpdated] on success,
    with [error] on failure. *)
Record SearchStats := mkStats {
  totalSearches : Z;
  uniqueTerms : nat;
  topSearch : option TopSearch;
  lastUpdated : option string;
  error : option string
}.

Section Module.
Variable env : Env.

Definition getSearchStats : prog LedgerE SearchStats :=
  try_catch
    (result ← await (listDocuments (DATABASE_ID env) (COLLECTION_ID env)
                       [Query_limit 100; Query_orderDesc "count"]);
     let totalSearches :=
       fold_left (fun sum doc => plus sum (Doc.count doc)) (documents result) 0 in
     let uniqueTerms := length (documents result) in
     let topSearch := head (documents result) in
     now ← perform Date_toISOString;
     Ret {| totalSearches := totalSearches;
            uniqueTerms := uniqueTerms;
            topSearch :=
              match topSearch with
              | Some top => Some {| term := Doc.searchTerm top;
                                    count := Doc.count top;
                                    title := Doc.title top |}
              | None => None
              end;
            lastUpdated := Some now;
            error := None |})
    (fun e =>
       perform (console Js.error ["Error fetching search stats:"%string; message e]);;
       Ret {| totalSearches := 0; uniqueTerms := 0; topSearch := None;
              lastUpdated := None; error := Some (message e) |}).

End Module.

Section OnStore.
Variable fault : nat -> option JsError.
Variable clock : nat -> string.
Variable fresh : nat -> string.
Variable env : Env.

(** The statistics of the reference store. *)
Definition SearchStats_of (w : Store.World) : outcome SearchStats * Store.World :=
  (run (Store.handle fault clock fresh) (getSearchStats env) w).1.

End OnStore.


(** The error of a store call that failed, and the errors of the failed
    store calls of a trace. *)
Definition failure (c : call LedgerE) : option JsError :=
  match c with
  | existT _ (ev, x) =>
      match ev in LedgerE X return X -> option JsError with
      | listDocuments _ _ _ => fun x => match x with Thrown e => Some e | _ => None end
      | updateDocument _ _ _ _ => fun x => match x with Thrown e => Some e | _ => None end
      | createDocument _ _ _ _ => fun x => match x with Thrown e => Some e | _ => None end
      | _ => fun _ => None
      end x
  end.

Definition failures (tr : list (call LedgerE)) : list JsError := omap failure tr.

(** The documents a listing of the trace was answered with. *)
Definition listing (c : call LedgerE) : option (list Doc.t) :=
  match c with
  | existT _ (ev, x) =>
      match ev in LedgerE X return X -> option (list Doc.t) with
      | listDocuments _ _ _ => fun x =>
          match x with Returned result => Some (documents result) | _ => None end
      | _ => fun _ => None
      end x
  end.

Definition listings (tr : list (call LedgerE)) : list (list Doc.t) := omap listing tr.

(** The sum of the counts of a list of records. *)
Definition total (l : list Doc.t) : Z :=
  fold_left (fun sum doc => sum + Doc.count doc) l 0.

End Stats.

(** ** Ledger maintenance, [clearOldSearches] of [src/appwrite.js] *)

Module Cleanup.
Import Js Async.

(** The queries [clearOldSearches] builds. *)
Inductive Query :=
| Query_lessThan (attribute value : string)
| Query_limit (n : nat).

(** What [clearOldSearches] calls.  [cutoff_toISOString daysOld] stands for
    the three steps on [cutoffDate]: [new Date()], moving it back by
    [daysOld] days with [setDate], and [toISOString()], for a number of
    days that leaves the date in the range of dates. *)
Inductive CleanupE : Type -> Type :=
| cutoff_toISOString (daysOld : Z) : CleanupE string
| listDocuments (databaseId collectionId : option string) (queries : list Query)
  : CleanupE (outcome Appwrite.DocumentList)
| deleteDocument (databaseId collectionId : option string) (documentId : string)
  : CleanupE (outcome unit)
| console (level : Level) (args : list string) : CleanupE unit.

Definition is_delete (c : call CleanupE) : bool :=
  match (projT2 c).1 with
  | deleteDocument _ _ _ => true
  | _ => false
  end.

(** The store calls that failed. *)
Definition is_failed_call (c : call CleanupE) : bool :=
  match c with
  | existT _ (ev, x) =>
      match ev in CleanupE X return X -> bool with
      | listDocuments _ _ _ => fun x => negb (is_returned x)
      | deleteDocument _ _ _ => fun x => negb (is_returned x)
      | _ => fun _ => false
      end x
  end.

Section Module.
Variable env : Appwrite.Env.

(** The loop [for (const doc of result.documents)], with the running value
    of [deletedCount]. *)
Fixpoint delete_each (documents : list Doc.t) (deletedCount : nat) : prog CleanupE nat :=
  match documents with
  | [] => Ret deletedCount
  | doc :: rest =>
      await (deleteDocument (Appwrite.DATABASE_ID env) (Appwrite.COLLECTION_ID env)
               (Doc.id doc));;
      delete_each rest (S deletedCount)
  end.

(** [daysOld] is [None] when the caller leaves the argument out. *)
Definition clearOldSearches (daysOld : option Z) : prog CleanupE nat :=
  let daysOld := default 90 daysOld in
  try_catch
    (cutoff ← perform (cutoff_toISOString daysOld);
     result ← await (listDocuments (Appwrite.DATABASE_ID env) (Appwrite.COLLECTION_ID env)
                       [Query_lessThan "lastSearched" cutoff; Query_limit 100]);
     deletedCount ← delete_each (Appwrite.documents result) 0;
     perform (console log ["Deleted " +:+ pretty deletedCount +:+ " old search records"]);;
     Ret deletedCount)
    (fun e =>
       perform (console error ["Error clearing old searches:"%string; message e]);;
       Ret 0%nat).

End Module.

(** *** On the reference store *)

(** Modelled from the spec: the store's comparison of a time attribute
    with a bound; times are ISO strings of one format, which order as
    their instants do. *)
Definition older_than (cutoff : string) (d : Doc.t) : bool :=
  String.ltb (Doc.lastSearched d) cutoff.

Definition satisfies (d : Doc.t) (q : Query) : bool :=
  match q with
  | Query_lessThan a v =>
      match Store.attr_string a d with
      | Some s => String.ltb s v
      | None => false
      end
  | Query_limit _ => true
  end.

Fixpoint limit_of (qs : list Query) : nat :=
  match qs with
  | [] => Store.DEFAULT_LIMIT
  | Query_limit n :: _ => n
  | _ :: qs' => limit_of qs'
  end.

Definition select (qs : list Query) (l : list Doc.t) : list Doc.t :=
  take (limit_of qs) (List.filter (fun d => forallb (satisfies d) qs) l).

(** The first document with identifier [i] taken out. *)
Fixpoint remove (i : string) (l : list Doc.t) : list Doc.t :=
  match l with
  | [] => []
  | d :: r => if Store.has_id i d then r else d :: remove i r
  end.

(** The documents of [ds] taken out one after the other. *)
Fixpoint remove_all (ds : list Doc.t) (l : list Doc.t) : list Doc.t :=
  match ds with
  | [] => l
  | d :: rest => remove_all rest (remove (Doc.id d) l)
  end.

Section Handler.
Variable fault : nat -> option JsError.
(** The cutoff the clock gives at a tick for a number of days. *)
Variable cutoff : nat -> Z -> string.

(** Modelled from the spec: the document store as [clearOldSearches] uses
    it (listing with a bound on a time attribute, deletion by identifier);
    a call may fail as a whole, and then changes nothing. *)
Definition handle : handler CleanupE Store.World := fun X ev w =>
  match ev in CleanupE X return X * Store.World with
  | cutoff_toISOString daysOld => (cutoff (Store.tick w) daysOld, Store.tock w)
  | listDocuments _ _ qs =>
      match fault (Store.tick w) with
      | Some e => (Thrown e, Store.tock w)
      | None => (Returned (Appwrite.mkList (select qs (Store.docs w))), Store.tock w)
      end
  | deleteDocument _ _ i =>
      match fault (Store.tick w) with
      | Some e => (Thrown e, Store.tock w)
      | None =>
          if existsb (Store.has_id i) (Store.docs w)
          then (Returned tt,
                {| Store.docs := remove i (Store.docs w); Store.tick := S (Store.tick w) |})
          else (Thrown Store.not_found, Store.tock w)
      end
  | console _ _ => (tt, w)
  end.

Variable env : Appwrite.Env.

Definition Clear (daysOld : option Z) (w : Store.World) : outcome nat * Store.World :=
  (run handle (clearOldSearches env daysOld) w).1.

End Handler.

End Cleanup.

(** ** What the ledger keeps *)

Module Tidy.
Import Js Store.

(** A store as the client leaves it: identifiers and terms are unique, and
    every term is non-empty and in normal form. *)
Definition tidy (w : World) : Prop :=
  well_formed w
  /\ NoDup (map Doc.searchTerm (docs w))
  /\ Forall (fun d => normalize (Doc.searchTerm d) = Doc.searchTerm d
                      /\ Doc.searchTerm d <> EmptyString) (docs w).

End Tidy.

(** ** The debouncing hooks, [src/hooks/useDebounce.js] *)

Module Debounce.
Import Js.

(** A pending [setTimeout]: the value its callback will store, and the
    milliseconds left before it runs. *)
Record Timeout := mkTimeout { captured : string; left : nat }.

(** One instance of [useDebounce] after a render and its effects: the
    dependencies [value] and [delay] of the effect that ran last, the state
    cell, and the timeout that effect set, if it has not run yet. *)
Record Hook := mkHook {
  value : string;
  delay : nat;
  debouncedValue : string;
  handler : option Timeout
}.

(** The first render: [useState(value)], then the effect sets the
    timeout. *)
Definition mount (value : string) (delay : nat) : Hook :=
  {| value := value; delay := delay; debouncedValue := value;
     handler := Some (mkTimeout value delay) |}.

(** A later render with arguments [value'] and [delay']: when a dependency
    has changed, the cleanup of the last effect clears its timeout and the
    effect sets a new one; otherwise the effect is skipped. *)
Definition render (value' : string) (delay' : nat) (h : Hook) : Hook :=
  if String.eqb value' (value h) && Nat.eqb delay' (delay h) then h
  else {| value := value'; delay := delay'; debouncedValue := debouncedValue h;
          handler := Some (mkTimeout value' delay') |}.

(** [ms] milliseconds pass without a render with other arguments: a
    timeout that is due runs its callback, [setDebouncedValue(value)]. *)
Definition elapse (ms : nat) (h : Hook) : Hook :=
  match handler h with
  | Some t =>
      if (left t <=? ms)%nat
      then {| value := value h; delay := delay h; debouncedValue := captured t;
              handler := None |}
      else {| value := value h; delay := delay h; debouncedValue := debouncedValue h;
              handler := Some (mkTimeout (captured t) (left t - ms)) |}
  | None => h
  end.

Inductive Event :=
| Render (value : string) (delay : nat)
| Elapse (ms : nat).

Definition step (h : Hook) (e : Event) : Hook :=
  match e with
  | Render v d => render v d h
  | Elapse ms => elapse ms h
  end.

Definition play (events : list Event) (h : Hook) : Hook := fold_left step events h.

(** The values the hook was rendered with. *)
Definition rendered (events : list Event) : list string :=
  omap (fun e => match e with Render v _ => Some v | Elapse _ => None end) events.

(** Typing: each key stroke renders the hook with a new value, and is
    followed by a pause. *)
Definition typing (delay : nat) (keys : list (string * nat)) : list Event :=
  flat_map (fun k => [Render k.1 delay; Elapse k.2]) keys.

(** Every value differs from the one before it, starting from [prev]. *)
Fixpoint changing (prev : string) (keys : list (string * nat)) : bool :=
  match keys with
  | [] => true
  | k :: rest => negb (String.eqb k.1 prev) && changing k.1 rest
  end.

(** [useDebounceWithStatus]: the same, with the cell [isPending]. *)
Record StatusHook := mkStatus { hook : Hook; isPending : bool }.

(** The first render has [isPending] false; its effect sets it. *)
Definition mount_status (value : string) (delay : nat) : StatusHook :=
  {| hook := mount value delay; isPending := true |}.

Definition render_status (value' : string) (delay' : nat) (h : StatusHook) : StatusHook :=
  if String.eqb value' (value (hook h)) && Nat.eqb delay' (delay (hook h)) then h
  else {| hook := render value' delay' (hook h); isPending := true |}.

Definition elapse_status (ms : nat) (h : StatusHook) : StatusHook :=
  match handler (hook h) with
  | Some t =>
      if (left t <=? ms)%nat
      then {| hook := elapse ms (hook h); isPending := false |}
      else {| hook := elapse ms (hook h); isPending := isPending h |}
  | None => h
  end.

Definition step_status (h : StatusHook) (e : Event) : StatusHook :=
  match e with
  | Render v d => render_status v d h
  | Elapse ms => elapse_status ms h
  end.

Definition play_status (events : list Event) (h : StatusHook) : StatusHook :=
  fold_left step_status events h.

End Debounce.

(** ** Utility functions, in the file of [src/components/MovieCard.jsx] *)

Module Helpers.
Import Js Async.

(** *** [retryWithBackoff] *)

(** What [retryWithBackoff] calls: the function [fn] it was given, and
    [sleep]. *)
Inductive RetryE (R : Type) : Type -> Type :=
| fn : RetryE R (outcome R)
| sleep (ms : Z) : RetryE R unit.
Arguments fn {R}.
Arguments sleep {R} ms.

(** [retries] is a count and [delay] a time in milliseconds; a caller that
    leaves them out gets 3 and 1000. *)
Fixpoint retryWithBackoff {R} (retries : nat) (delay : Z) : prog (RetryE R) R :=
  try_catch (await fn)
    (fun error =>
       match retries with
       | S retries' =>
           perform (sleep delay);;
           retryWithBackoff retries' (delay * 2)
       | O => Throw error
       end).

(** The settlements of the calls of [fn] in a trace, and the sleeps. *)
Definition attempt {R} (c : call (RetryE R)) : option (outcome R) :=
  match c with
  | existT _ (ev, x) =>
      match ev in RetryE _ X return X -> option (outcome R) with
      | fn => fun x => Some x
      | sleep _ => fun _ => None
      end x
  end.

Definition attempts {R} (tr : list (call (RetryE R))) : list (outcome R) := omap attempt tr.

Definition slept {R} (c : call (RetryE R)) : option Z :=
  match (projT2 c).1 with
  | sleep ms => Some ms
  | fn => None
  end.

Definition sleeps {R} (tr : list (call (RetryE R))) : list Z := omap slept tr.

(** *** [sanitizeSearchTerm] and [isValidSearchTerm] *)

(** [\w]: a letter of the basic alphabet, a digit or the underscore. *)
Definition is_word (c : ascii) : bool :=
  let n := code_unit c in
  ((65 <=? n) && (n <=? 90) || (97 <=? n) && (n <=? 122) || (48 <=? n) && (n <=? 57)
   || (n =? 95))%N.

(** The class [[\w\s\-_.]], whose complement the first [replace] deletes. *)
Definition is_basic (c : ascii) : bool :=
  let n := code_unit c in
  (is_word c || is_whitespace c || (n =? 45) || (n =? 95) || (n =? 46))%N.

Fixpoint keep (p : ascii -> bool) (s : string) : string :=
  match s with
  | EmptyString => EmptyString
  | String c r => if p c then String c (keep p r) else keep p r
  end.

(** [replace(/\s+/g, ' ')]: every run of whitespace becomes one space;
    [in_run] says that the code unit before was whitespace. *)
Fixpoint collapse (in_run : bool) (s : string) : string :=
  match s with
  | EmptyString => EmptyString
  | String c r =>
      if is_whitespace c
      then if in_run then collapse true r else String " " (collapse true r)
      else String c (collapse false r)
  end.

(** [term] is [None] when the argument is not a string. *)
Definition sanitizeSearchTerm (term : option string) : string :=
  match term with
  | Some (String _ _ as term) =>
      String.substring 0 100 (collapse false (keep is_basic (toLowerCase (trim term))))
  | _ => EmptyString
  end.

Definition isValidSearchTerm (term : option string) : bool :=
  match term with
  | Some (String _ _) =>
      let sanitized := sanitizeSearchTerm term in
      (1 <=? String.length sanitized)%nat && (String.length sanitized <=? 100)%nat
  | _ => false
  end.

(** Every code unit of [s] satisfies [p]. *)
Fixpoint every (p : ascii -> bool) (s : string) : bool :=
  match s with
  | EmptyString => true
  | String c r => p c && every p r
  end.

(** No two spaces in a row. *)
Fixpoint single_spaced (s : string) : bool :=
  match s with
  | EmptyString => true
  | String a r => negb (Ascii.eqb a " " && startsWith r " ") && single_spaced r
  end.

(** What a sanitized term is made of: small letters, digits, the space,
    and [- _ .]. *)
Definition is_plain (c : ascii) : bool :=
  let n := code_unit c in
  ((97 <=? n) && (n <=? 122) || (48 <=? n) && (n <=? 57)
   || (n =? 32) || (n =? 45) || (n =? 95) || (n =? 46))%N.

(** *** [truncateText] *)

(** [text] is [None] when the argument is undefined or null; [suffix] is
    [None] when the caller leaves it out. *)
Definition truncateText (text : option string) (maxLength : Z) (suffix : option string)
  : string :=
  let suffix := default "..." suffix in
  match text with
  | Some (String _ _ as text) =>
      if Z.of_nat (String.length text) <=? maxLength then text
      else trim (String.substring 0 (Z.to_nat maxLength) text) +:+ suffix
  | _ => EmptyString
  end.

End Helpers.

(** ** More sample data *)

Module Scenario.
Import Js Async Sample.

(** The provider refuses the credential. *)
Definition unauthorized : App.Response :=
  {| App.ok := false; App.status := 401; App.statusText := "Unauthorized";
     App.body := Thrown (Error "Unexpected end of JSON input") |}.

(** The state after the first load against [outside (response (Some [batman]))]. *)
Definition loaded : App.State :=
  state_of (App.pipeline (Some "key") (outside (response (Some [batman])))
              App.initial "" false).

(** A record last searched at [time]. *)
Definition searched_at (i : nat) (time : string) : Doc.t :=
  {| Doc.id := "doc-" +:+ pretty i; Doc.searchTerm := "term " +:+ pretty i;
     Doc.count := 1; Doc.movie_id := Z.of_nat i; Doc.title := "Movie";
     Doc.poster_url := None; Doc.release_date := None; Doc.vote_average := 0;
     Doc.firstSearched := time; Doc.lastSearched := time |}.

(** Two records from 2023 and one from May 2024. *)
Definition aged_store : Store.World :=
  Store.mkWorld [searched_at 0 "2023-03-01T09:00:00.000Z";
                 searched_at 1 "2024-05-01T09:00:00.000Z";
                 searched_at 2 "2023-11-20T09:00:00.000Z"] 0.

(** The clock of February 2024: 90 days back is in November 2023, any
    other number of days gives the start of 2023. *)
Definition cutoff : nat -> Z -> string :=
  fun _ daysOld =>
    if daysOld =? 90 then "2023-11-30T12:00:00.000Z" else "2023-01-01T12:00:00.000Z".

(** The record the first search for Batman creates in the empty store. *)
Definition first_record : Doc.t :=
  {| Doc.id := fresh 1; Doc.searchTerm := "batman"; Doc.count := 1; Doc.movie_id := 268;
     Doc.title := "Batman";
     Doc.poster_url := Some "https://image.tmdb.org/t/p/w500/batman.jpg";
     Doc.release_date := Some "1989-06-23"; Doc.vote_average := 72;
     Doc.firstSearched := clock 2; Doc.lastSearched := clock 3 |}.

(** A hook with a delay of 500 ms that has come to rest on the empty
    value. *)
Definition resting : Debounce.Hook :=
  Debounce.elapse 500 (Debounce.mount "" 500).

(** Three key strokes 100 ms apart. *)
Definition key_strokes : list (string * nat) :=
  [("I", 100%nat); ("In", 100%nat); ("Inc", 100%nat)].

End Scenario.

(** * Properties *)

(** ** Strings *)

Module JsFacts.
Import Js.

Lemma trimStart_all_whitespace s : all_whitespace s = true -> trimStart s = EmptyString.
Proof.
  induction s as [|c r IH]; simpl; [done|].
  intros [Hc Hr]%andb_prop. rewrite Hc. auto.
Qed.

Lemma trim_all_whitespace s : all_whitespace s = true -> trim s = EmptyString.
Proof. intros H. unfold trim. by rewrite trimStart_all_whitespace. Qed.

Lemma startsWith_app s r : startsWith (s +:+ r) s = true.
Proof.
  induction s as [|c s IH]; simpl; [done|].
  by rewrite Ascii.eqb_refl.
Qed.

Lemma includes_here s needle : startsWith s needle = true -> includes s needle = true.
Proof. intros H. destruct s; simpl in *; by rewrite H. Qed.

Lemma includes_app_r p s needle :
  includes s needle = true -> includes (p +:+ s) needle = true.
Proof.
  induction p as [|c p IH]; simpl; [done|].
  intros H. rewrite (IH H). apply orb_true_r.
Qed.

Lemma includes_middle p q r : includes (p +:+ q +:+ r) q = true.
Proof. apply includes_app_r, includes_here, startsWith_app. Qed.

Lemma truthy_str_nonempty s : truthy_str s = true <-> s <> EmptyString.
Proof. destruct s; unfold truthy_str; simpl; split; intros; congruence. Qed.

(** Integers of magnitude up to [2 ^ 53] are doubles. *)
Lemma to_double_exact z : Z.abs z <= 2 ^ 53 -> to_double z = z.
Proof.
  intros Hz. unfold to_double. destruct (Z.abs z <? 2 ^ 53) eqn:E; [done|].
  apply Z.ltb_ge in E. change (2 ^ 53) with 9007199254740992 in *.
  assert (z = 9007199254740992 \/ z = - 9007199254740992) as [-> | ->] by lia;
    reflexivity.
Qed.

(** Adding 1: exact below [2 ^ 53], and without effect at [2 ^ 53]. *)
Lemma plus_one_exact c : - 2 ^ 53 <= c < 2 ^ 53 -> plus c 1 = c + 1.
Proof.
  intros Hc. unfold plus. apply to_double_exact.
  change (2 ^ 53) with 9007199254740992 in *. lia.
Qed.

Lemma plus_one_saturates : plus (2 ^ 53) 1 = 2 ^ 53.
Proof. reflexivity. Qed.

Lemma plus_one_in_range c :
  Z.abs c <= 2 ^ 53 ->
  Z.abs (plus c 1) <= 2 ^ 53 /\ c <= plus c 1 <= c + 1
  /\ (plus c 1 < 2 ^ 53 -> plus c 1 = c + 1).
Proof.
  intros Hc. destruct (decide (c = 2 ^ 53)) as [->|Hne].
  - rewrite plus_one_saturates. change (2 ^ 53) with 9007199254740992. lia.
  - rewrite plus_one_exact; change (2 ^ 53) with 9007199254740992 in *; lia.
Qed.

End JsFacts.

(** ** The ledger client, against any document store *)

Module LedgerFacts.
Import Js Async Appwrite.

#[local] Arguments trim : simpl never.
#[local] Arguments toLowerCase : simpl never.
#[local] Arguments truthy_str : simpl never.
#[local] Arguments pretty : simpl never.
#[local] Arguments String.append : simpl never.

(** One step of [run]: name the answer of the world to the next call. *)
Ltac answer h :=
  match goal with
  | |- context [h ?X ?ev ?s] =>
      let x := fresh "x" in let s' := fresh "s" in
      destruct (h X ev s) as [x s'];
      try match type of x with
          | outcome _ => destruct x
          | unit => destruct x
          end
  end.

(** Symbolic execution of a client operation against the world [h]. *)
Ltac execute h :=
  cbn;
  repeat first
    [ progress cbn
    | progress unfold report_code
    | answer h
    | case_decide
    | match goal with
      | |- context [documents ?r] => destruct r as [[|? ?]]
      | |- context [truthy_str ?t] => destruct (truthy_str t) eqn:?
      end ].

Section AnyStore.
Context {S : Type} (h : handler LedgerE S) (env : Env).

Lemma updateSearchCount_never_throws term movie s :
  exists res, result_of (run h (updateSearchCount env term movie) s) = Returned res.
Proof.
  destruct term as [[|a t]|], movie as [m|]; execute h; eauto.
Qed.

Lemma updateSearchCount_failure_null term movie s :
  existsb is_failed_store_call (trace_of (run h (updateSearchCount env term movie) s)) = true ->
  result_of (run h (updateSearchCount env term movie) s) = Returned None.
Proof.
  destruct term as [[|a t]|], movie as [m|]; execute h; done.
Qed.

Lemma getTrendingMovies_never_throws limit s :
  exists res, result_of (run h (getTrendingMovies env limit) s) = Returned res.
Proof. execute h; eauto. Qed.

Lemma getTrendingMovies_failure_empty limit s :
  existsb is_failed_store_call (trace_of (run h (getTrendingMovies env limit) s)) = true ->
  result_of (run h (getTrendingMovies env limit) s) = Returned [].
Proof. execute h; done. Qed.

(** The one request [getTrendingMovies] sends to the store. *)
Lemma getTrendingMovies_request limit s :
  exists o,
    List.filter is_store_call (trace_of (run h (getTrendingMovies env limit) s))
    = [Call (listDocuments (DATABASE_ID env) (COLLECTION_ID env)
               [Query_limit (Nat.min (default 10%nat limit) 100);
                Query_orderDesc "count";
                Query_greaterThan "count" 0]) o].
Proof. execute h; eauto. Qed.

(** With acceptable arguments, the first thing [updateSearchCount] asks
    of the store is the record whose term is exactly the normalized
    term. *)
Lemma updateSearchCount_looks_up_first (term : string) (m : Movie.t) s :
  truthy_str term = true ->
  truthy_str (toLowerCase (trim term)) = true ->
  exists o,
    head (List.filter is_store_call
            (trace_of (run h (updateSearchCount env (Some term) (Some m)) s)))
    = Some (Call (listDocuments (DATABASE_ID env) (COLLECTION_ID env)
                    [Query_equal "searchTerm" (toLowerCase (trim term)); Query_limit 1]) o).
Proof.
  intros Hterm Hnorm. destruct term as [|a t]; [done|].
  unfold updateSearchCount. rewrite Hnorm. execute h; eauto.
Qed.

End AnyStore.

(** C10. Whenever the search term or the movie is absent or falsy, or the
    term is empty once trimmed and lower-cased, [updateSearchCount]
    returns null and makes no call to the document store (no lookup, no
    create, no update), whatever the store is. *)
Theorem updateSearchCount_invalid_input_no_store_call
    (env : Env) (term : option string) (movie : option Movie.t) :
  truthy term = false \/ movie = None
    \/ (exists t, term = Some t /\ toLowerCase (trim t) = EmptyString) ->
  forall (S : Type) (h : handler LedgerE S) (s : S),
    result_of (run h (updateSearchCount env term movie) s) = Returned None
    /\ List.filter is_store_call (trace_of (run h (updateSearchCount env term movie) s)) = [].
Proof.
  intros Hbad S h s.
  destruct term as [[|a t]|], movie as [m|];
    try (execute h; done).
  destruct Hbad as [Hbad|[Hbad|(t' & [= <-] & Hbad)]]; [done..|].
  unfold updateSearchCount. rewrite Hbad. done.
Qed.

(** C9. [getTrendingMovies] sends the store one request, whose limit is
    [min limit 100]: 100 for every argument above 100, and 10 when the
    argument is left out. *)
Theorem getTrendingMovies_limit_capped_at_100
    (env : Env) (limit : option nat) (S : Type) (h : handler LedgerE S) (s : S) :
  let requested := Nat.min (default 10%nat limit) 100 in
  (exists o,
     List.filter is_store_call (trace_of (run h (getTrendingMovies env limit) s))
     = [Call (listDocuments (DATABASE_ID env) (COLLECTION_ID env)
                [Query_limit requested; Query_orderDesc "count";
                 Query_greaterThan "count" 0]) o])
  /\ (requested <= 100)%nat
  /\ (forall n, limit = Some n -> (100 < n)%nat -> requested = 100%nat)
  /\ (forall n, limit = Some n -> (n <= 100)%nat -> requested = n)
  /\ (limit = None -> requested = 10%nat).
Proof.
  intros requested. split; [apply getTrendingMovies_request|].
  subst requested. repeat split.
  - lia.
  - intros n -> Hn. simpl. lia.
  - intros n -> Hn. simpl. lia.
  - intros ->. reflexivity.
Qed.

End LedgerFacts.

(** ** The ledger on the reference store *)

Module StoreFacts.
Import Js Async Appwrite Store.

#[local] Arguments trim : simpl never.
#[local] Arguments toLowerCase : simpl never.
#[local] Arguments truthy_str : simpl never.
#[local] Arguments pretty : simpl never.
#[local] Arguments String.append : simpl never.
#[local] Arguments select : simpl never.
#[local] Arguments record_of : simpl never.

(** *** Lists of documents *)

Lemma select_lookup t l :
  select [Query_equal "searchTerm" t; Query_limit 1] l
  = match record_of t l with Some d => [d] | None => [] end.
Proof.
  unfold select, record_of. cbn [limit_of ordered].
  induction l as [|d l IH]; [done|].
  cbn. destruct (String.eqb (Doc.searchTerm d) t); cbn; [done|]. exact IH.
Qed.

Lemma record_of_Some t l d :
  record_of t l = Some d -> d ∈ l /\ Doc.searchTerm d = t.
Proof.
  unfold record_of. intros H. apply find_some in H as [Hin Heq].
  split; [by apply list_elem_of_In|]. by apply String.eqb_eq.
Qed.

Lemma find_has_id_NoDup l d :
  NoDup (map Doc.id l) -> d ∈ l -> find (has_id (Doc.id d)) l = Some d.
Proof.
  induction l as [|x l IH]; [by intros _ ?%elem_of_nil|].
  rewrite fmap_cons, NoDup_cons. intros [Hx Hl] Hd. cbn. unfold has_id at 1.
  destruct (String.eqb_spec (Doc.id x) (Doc.id d)) as [Heq|Hne].
  - apply elem_of_cons in Hd as [->|Hd]; [done|].
    exfalso. apply Hx. rewrite Heq. by apply list_elem_of_fmap_2.
  - apply elem_of_cons in Hd as [->|Hd]; [done|]. by apply IH.
Qed.

(** Rewriting the record of [t] in place: the record of [t] becomes its
    image, the records of the other terms stay. *)
Lemma record_of_patch f t l d t' :
  (forall x, Doc.id (f x) = Doc.id x) ->
  (forall x, Doc.searchTerm (f x) = Doc.searchTerm x) ->
  NoDup (map Doc.id l) ->
  record_of t l = Some d ->
  record_of t' (patch (Doc.id d) f l)
  = if decide (t' = t) then Some (f d) else record_of t' l.
Proof.
  intros Hid Hterm. induction l as [|x l IH]; [done|].
  rewrite fmap_cons, NoDup_cons. intros [Hx Hl] Hrec.
  destruct (record_of_Some _ _ _ Hrec) as [Hin Hd].
  cbn [patch]. unfold has_id at 1.
  destruct (String.eqb_spec (Doc.id x) (Doc.id d)) as [Heq|Hne].
  - assert (x = d) as ->.
    { apply elem_of_cons in Hin as [->|Hin]; [done|].
      exfalso. apply Hx. rewrite Heq. by apply list_elem_of_fmap_2. }
    unfold record_of. cbn [find]. rewrite Hterm, Hd.
    case_decide as Ht.
    + subst t'. by rewrite String.eqb_refl.
    + destruct (String.eqb_spec t t'); [congruence|done].
  - unfold record_of in *. cbn [find] in *.
    destruct (String.eqb_spec (Doc.searchTerm x) t) as [Hxt|Hxt].
    { injection Hrec as ->. done. }
    specialize (IH Hl Hrec).
    destruct (String.eqb_spec (Doc.searchTerm x) t') as [Hxt'|Hxt'].
    + case_decide; [congruence|done].
    + exact IH.
Qed.

Lemma record_of_app t l n :
  record_of t (l ++ [n])
  = match record_of t l with
    | Some d => Some d
    | None => if String.eqb (Doc.searchTerm n) t then Some n else None
    end.
Proof.
  unfold record_of. induction l as [|x l IH]; cbn; [done|].
  by destruct (String.eqb (Doc.searchTerm x) t).
Qed.

Lemma map_id_patch f i l :
  (forall x, Doc.id (f x) = Doc.id x) ->
  map Doc.id (patch i f l) = map Doc.id l.
Proof.
  intros Hid. induction l as [|x l IH]; [done|].
  cbn. destruct (has_id i x); cbn; [by rewrite Hid|by rewrite IH].
Qed.

Lemma existsb_has_id_false i l :
  existsb (has_id i) l = false -> i ∉ map Doc.id l.
Proof.
  induction l as [|x l IH]; cbn; [intros _; apply not_elem_of_nil|].
  intros [Hx Hl]%orb_false_elim. rewrite not_elem_of_cons. split; [|by apply IH].
  unfold has_id in Hx. apply String.eqb_neq in Hx. congruence.
Qed.


(** *** Ordered listings *)

#[local] Instance desc_by_transitive a : Transitive (desc_by a).
Proof. intros x y z. unfold desc_by. lia. Qed.

#[local] Instance desc_by_total a : Total (desc_by a).
Proof. intros x y. unfold desc_by. lia. Qed.

Lemma StronglySorted_lookup {A} (R : relation A) (l : list A) i j a b :
  StronglySorted R l -> (i < j)%nat -> l !! i = Some a -> l !! j = Some b -> R a b.
Proof.
  intros Hs Hij Ha Hb. rewrite <- (take_drop j l) in Hs.
  apply (StronglySorted_app_1_elem_of _ _ _ _ _ Hs).
  - apply list_elem_of_lookup. exists i. by rewrite lookup_take_lt.
  - apply list_elem_of_lookup. exists 0%nat. rewrite lookup_drop.
    by rewrite Nat.add_0_r.
Qed.

(** The listing [getTrendingMovies] asks for: the eligible records, by
    descending count, cut at the limit. *)
Lemma select_trending n l :
  select [Query_limit n; Query_orderDesc "count"; Query_greaterThan "count" 0] l
  = take n (merge_sort (desc_by "count") (eligible l)).
Proof.
  unfold select, eligible. cbn [limit_of ordered]. do 2 f_equal.
  apply List.filter_ext. intros d. cbn. by rewrite andb_true_r.
Qed.

Lemma select_trending_length n l :
  length (select [Query_limit n; Query_orderDesc "count"; Query_greaterThan "count" 0] l)
  = Nat.min n (length (eligible l)).
Proof.
  rewrite select_trending, length_take.
  by rewrite (Permutation_length (merge_sort_Permutation _ _)).
Qed.

Lemma select_trending_positive n l :
  Forall (fun d => 0 < Doc.count d)
    (select [Query_limit n; Query_orderDesc "count"; Query_greaterThan "count" 0] l).
Proof.
  rewrite select_trending. apply Forall_take.
  rewrite (merge_sort_Permutation _ _). unfold eligible.
  apply Forall_forall. intros d Hd%list_elem_of_In. apply filter_In in Hd as [_ Hd]. lia.
Qed.

Lemma select_trending_sorted n l :
  StronglySorted (fun x y => Doc.count y <= Doc.count x)
    (select [Query_limit n; Query_orderDesc "count"; Query_greaterThan "count" 0] l).
Proof.
  rewrite select_trending.
  apply (StronglySorted_app_1_l _ _ (drop n (merge_sort (desc_by "count") (eligible l)))).
  rewrite take_drop.
  apply (StronglySorted_merge_sort (desc_by "count")); apply _.
Qed.

(** *** Record *)

Section OnStore.
Variable fault : nat -> option JsError.
Variable clock : nat -> string.
Variable fresh : nat -> string.
Variable env : Env.


(** Symbolic execution against the reference store. *)
Ltac execute :=
  repeat first
    [ progress cbn
    | progress unfold report_code
    | rewrite select_lookup
    | case_decide
    | match goal with
      | |- context [fault ?n] => destruct (fault n) eqn:?
      | |- context [match record_of ?t ?l with _ => _ end] => destruct (record_of t l) eqn:?
      | |- context [find (has_id ?i) ?l] => destruct (find (has_id i) l) eqn:?
      | |- context [existsb (has_id ?i) ?l] => destruct (existsb (has_id i) l) eqn:?
      end ].

(** What a Record call with acceptable arguments does, case by case. *)
Lemma Record_valid (term : string) (m : Movie.t) (w : World) :
  truthy_str term = true ->
  truthy_str (normalize term) = true ->
  well_formed w ->
  let t := normalize term in
  let n := tick w in
  match record_of t (docs w) with
  | Some old =>
      let u := {| u_count := plus (Doc.count old) 1;
                  u_lastSearched := clock (n + 1);
                  u_title := Movie.title m;
                  u_poster_url := poster_url_of m |} in
      if decide (fault n = None /\ fault (n + 2) = None)
      then Record_ fault clock fresh env (Some term) (Some m) w
           = (Returned (Some (apply_update u old)),
              {| docs := patch (Doc.id old) (apply_update u) (docs w); tick := n + 3 |})
      else exists k, Record_ fault clock fresh env (Some term) (Some m) w
                     = (Returned None, {| docs := docs w; tick := k |})
  | None =>
      let d := new_doc (fresh (n + 1))
                 {| c_searchTerm := t;
                    c_count := 1;
                    c_movie_id := Movie.id m;
                    c_title := Movie.title m;
                    c_poster_url := poster_url_of m;
                    c_release_date := or_null (Movie.release_date m);
                    c_vote_average := or_zero (Movie.vote_average m);
                    c_firstSearched := clock (n + 2);
                    c_lastSearched := clock (n + 3) |} in
      if decide (fault n = None /\ fault (n + 4) = None
                 /\ existsb (has_id (fresh (n + 1))) (docs w) = false)
      then Record_ fault clock fresh env (Some term) (Some m) w
           = (Returned (Some d), {| docs := docs w ++ [d]; tick := n + 5 |})
      else exists k, Record_ fault clock fresh env (Some term) (Some m) w
                     = (Returned None, {| docs := docs w; tick := k |})
  end.
Proof.
  intros Hterm Hnorm Hwf t n. subst t n.
  destruct term as [|a r]; [done|]. unfold Record_, updateSearchCount.
  fold (normalize (String a r)). rewrite Hnorm. cbn [negb].
  generalize dependent (normalize (String a r)). intros t Hnorm.
  destruct w as [l n]. cbn [docs tick] in *.
  replace (n + 1)%nat with (S n) by lia.
  replace (n + 2)%nat with (S (S n)) by lia.
  replace (n + 3)%nat with (S (S (S n))) by lia.
  replace (n + 4)%nat with (S (S (S (S n)))) by lia.
  replace (n + 5)%nat with (S (S (S (S (S n))))) by lia.
  destruct (record_of t l) as [old|] eqn:Hrec.
  - destruct (record_of_Some _ _ _ Hrec) as [Hin Hold].
    pose proof (find_has_id_NoDup l old Hwf Hin) as Hfind.
    execute; simplify_eq; try (destruct_and?; congruence); eauto.
    all: exfalso; naive_solver.
  - execute; simplify_eq; try (destruct_and?; congruence); eauto.
    all: exfalso; naive_solver.
Qed.

(** A call with arguments the client refuses stores nothing. *)
Lemma Record_invalid term movie w :
  truthy term = false \/ movie = None
    \/ (exists s, term = Some s /\ truthy_str (normalize s) = false) ->
  Record_ fault clock fresh env term movie w = (Returned None, w).
Proof.
  intros Hbad. unfold Record_.
  destruct term as [[|a r]|], movie as [m|]; try done.
  destruct Hbad as [Hbad|[Hbad|(s & [= <-] & Hbad)]]; [done..|].
  unfold updateSearchCount. fold (normalize (String a r)). by rewrite Hbad.
Qed.

Lemma apply_update_id u x : Doc.id (apply_update u x) = Doc.id x.
Proof. done. Qed.

Lemma apply_update_searchTerm u x : Doc.searchTerm (apply_update u x) = Doc.searchTerm x.
Proof. done. Qed.

Lemma Forall_patch (P : Doc.t -> Prop) i f l :
  Forall P l -> (forall d, P d -> P (f d)) -> Forall P (patch i f l).
Proof.
  intros Hl Hf. induction Hl as [|d l Hd Hl IH]; cbn; [done|].
  destruct (has_id i d); constructor; auto.
Qed.

(** The effect of one Record call on the reference store. *)
Lemma Record_effect term movie w :
  well_formed w ->
  exists res w',
    Record_ fault clock fresh env term movie w = (Returned res, w')
    /\ well_formed w'
    /\ (counts_in_range w -> counts_in_range w')
    /\ match res with
       | None => docs w' = docs w
       | Some d => exists s, term = Some s /\ written s d (docs w) (docs w')
       end.
Proof.
  intros Hwf.
  destruct term as [s|]; [|exists None, w; rewrite Record_invalid; auto].
  destruct movie as [m|]; [|exists None, w; rewrite Record_invalid; auto].
  destruct (truthy_str s) eqn:Hs; [|exists None, w; rewrite Record_invalid; auto].
  destruct (truthy_str (normalize s)) eqn:Hn;
    [|exists None, w; rewrite Record_invalid; eauto 6].
  pose proof (Record_valid s m w Hs Hn Hwf) as Hv. cbn zeta in Hv.
  unfold written.
  destruct (record_of (normalize s) (docs w)) as [old|] eqn:Hrec.
  - case_decide as Hf.
    + eexists _, _. split; [exact Hv|]. cbn [docs]. split; [|split].
      * unfold well_formed. cbn [docs]. rewrite map_id_patch by done. exact Hwf.
      * unfold counts_in_range. cbn [docs]. intros Hrange.
        destruct (record_of_Some _ _ _ Hrec) as [Hin _].
        pose proof (proj1 (Forall_forall _ _) Hrange old Hin) as Hold. cbn beta in Hold.
        apply Forall_patch; [done|]. intros d Hd.
        unfold has_id. cbn [apply_update Doc.count u_count].
        apply (JsFacts.plus_one_in_range _ Hold).
      * exists s. split; [done|]. rewrite Hrec.
        split; [|split; [done|]].
        -- rewrite (record_of_patch _ (normalize s) _ old) by done.
           by rewrite decide_True.
        -- intros t' Ht'.
           rewrite (record_of_patch _ (normalize s) _ old) by done.
           by rewrite decide_False.
    + destruct Hv as [k Hv]. exists None. eexists. by split; [exact Hv|].
  - case_decide as Hf.
    + destruct Hf as (_ & _ & Hfresh).
      eexists _, _. split; [exact Hv|]. cbn [docs]. split; [|split].
      * unfold well_formed. cbn [docs]. rewrite fmap_app. cbn.
        apply NoDup_app. split; [done|]. split; [|apply NoDup_singleton].
        intros i Hi ->%list_elem_of_singleton.
        by apply (existsb_has_id_false _ _ Hfresh).
      * unfold counts_in_range. cbn [docs]. intros Hrange.
        apply Forall_app. split; [done|]. constructor; [|done]. by cbn.
      * exists s. split; [done|]. rewrite Hrec.
        split; [|split; [done|]].
        -- rewrite record_of_app, Hrec. cbn. by rewrite String.eqb_refl.
        -- intros t' Ht'. rewrite record_of_app. cbn.
           destruct (record_of t' (docs w)); [done|].
           destruct (String.eqb_spec (normalize s) t'); [congruence|done].
    + destruct Hv as [k Hv]. exists None. eexists. by split; [exact Hv|].
Qed.

Lemma Record_well_formed term movie w :
  well_formed w -> well_formed (Record_ fault clock fresh env term movie w).2.
Proof.
  intros Hwf. by destruct (Record_effect term movie w Hwf) as (res & w' & -> & Hwf' & _).
Qed.

Lemma Record_all_well_formed calls w :
  well_formed w -> well_formed (Record_all fault clock fresh env calls w).
Proof.
  induction calls as [|[term movie] calls IH] in w |- *; [done|].
  intros Hwf. cbn. apply IH. by apply Record_well_formed.
Qed.

(** *** Runs without store failure *)

Section Nominal.
Hypothesis no_fault : forall n, fault n = None.
Hypothesis fresh_inj : forall i j, fresh i = fresh j -> i = j.




End Nominal.
(** *** TopTrending *)

Lemma TopTrending_listing limit w :
  fault (tick w) = None ->
  (TopTrending fault clock fresh env limit w).1
  = Returned (map to_trending
      (select [Query_limit (Nat.min (default 10%nat limit) 100);
               Query_orderDesc "count"; Query_greaterThan "count" 0] (docs w))).
Proof. intros Hf. unfold TopTrending, getTrendingMovies. cbn. by rewrite Hf. Qed.

Lemma TopTrending_failure limit w e :
  fault (tick w) = Some e ->
  (TopTrending fault clock fresh env limit w).1 = Returned [].
Proof.
  intros Hf. unfold TopTrending, getTrendingMovies. cbn. rewrite Hf. cbn.
  unfold report_code. by repeat case_decide.
Qed.

(** *** When the answer to a write can be lost *)

Section Lossy.
Variable lost : nat -> option JsError.

(** A call on the store that can lose answers does to the store what it
    does on the reference store, and returns what it returns there,
    unless the answer to its write is lost: then it returns null. *)
Lemma Record_on_lossy term movie w :
  Record_on (handle_lossy fault clock fresh lost) env term movie w
  = match Record_ fault clock fresh env term movie w with
    | (Returned (Some d), w1) =>
        match lost (tick w1 - 1)%nat with
        | Some _ => (Returned None, w1)
        | None => (Returned (Some d), w1)
        end
    | r => r
    end.
Proof.
  unfold Record_on, Record_, updateSearchCount.
  destruct term as [[|a r]|], movie as [m|]; try done.
  destruct (negb (truthy_str (toLowerCase (trim (String a r))))); [done|].
  generalize (toLowerCase (trim (String a r))). intros t.
  destruct w as [l n].
  repeat first
    [ progress cbn
    | progress unfold report_code
    | rewrite select_lookup
    | case_decide
    | match goal with
      | |- context [fault ?n] => destruct (fault n) eqn:?
      | |- context [match record_of ?t ?l with _ => _ end] => destruct (record_of t l) eqn:?
      | |- context [find (has_id ?i) ?l] => destruct (find (has_id i) l) eqn:?
      | |- context [existsb (has_id ?i) ?l] => destruct (existsb (has_id i) l) eqn:?
      | |- context [lost ?n] => destruct (lost n) eqn:?
      end ]; done.
Qed.









End Lossy.

End OnStore.


(** What a call with acceptable arguments does on the store that can lose
    answers, case by case. *)
Lemma Record_lossy_valid
    (fault lost : nat -> option JsError) (clock fresh : nat -> string) (env : Env)
    (term : string) (m : Movie.t) (w : World) :
  truthy_str term = true ->
  truthy_str (normalize term) = true ->
  well_formed w ->
  let t := normalize term in
  let n := tick w in
  let store := handle_lossy fault clock fresh lost in
  match record_of t (docs w) with
  | Some old =>
      let u := {| u_count := plus (Doc.count old) 1;
                  u_lastSearched := clock (n + 1)%nat;
                  u_title := Movie.title m;
                  u_poster_url := poster_url_of m |} in
      if decide (fault n = None /\ fault (n + 2)%nat = None)
      then Record_on store env (Some term) (Some m) w
           = (match lost (n + 2)%nat with
              | None => Returned (Some (apply_update u old))
              | Some _ => Returned None
              end,
              {| docs := patch (Doc.id old) (apply_update u) (docs w);
                 tick := (n + 3)%nat |})
      else exists k, Record_on store env (Some term) (Some m) w
                     = (Returned None, {| docs := docs w; tick := k |})
  | None =>
      let d := new_doc (fresh (n + 1)%nat)
                 {| c_searchTerm := t;
                    c_count := 1;
                    c_movie_id := Movie.id m;
                    c_title := Movie.title m;
                    c_poster_url := poster_url_of m;
                    c_release_date := or_null (Movie.release_date m);
                    c_vote_average := or_zero (Movie.vote_average m);
                    c_firstSearched := clock (n + 2)%nat;
                    c_lastSearched := clock (n + 3)%nat |} in
      if decide (fault n = None /\ fault (n + 4)%nat = None
                 /\ existsb (has_id (fresh (n + 1)%nat)) (docs w) = false)
      then Record_on store env (Some term) (Some m) w
           = (match lost (n + 4)%nat with
              | None => Returned (Some d)
              | Some _ => Returned None
              end,
              {| docs := docs w ++ [d]; tick := (n + 5)%nat |})
      else exists k, Record_on store env (Some term) (Some m) w
                     = (Returned None, {| docs := docs w; tick := k |})
  end.
Proof.
  intros Hterm Hnorm Hwf t n store. subst t n store.
  pose proof (Record_valid fault clock fresh env term m w Hterm Hnorm Hwf) as Hv.
  cbn zeta in Hv. rewrite Record_on_lossy.
  destruct (record_of (normalize term) (docs w)) as [old|]; case_decide.
  - rewrite Hv. cbn [tick].
    replace (tick w + 3 - 1)%nat with (tick w + 2)%nat by lia.
    by destruct (lost (tick w + 2)%nat).
  - destruct Hv as [k ->]. by exists k.
  - rewrite Hv. cbn [tick].
    replace (tick w + 5 - 1)%nat with (tick w + 4)%nat by lia.
    by destruct (lost (tick w + 4)%nat).
  - destruct Hv as [k ->]. by exists k.
Qed.

(** C5. [updateSearchCount] never throws, whatever the store does, and
    returns null as soon as a store call fails; with acceptable arguments
    its first request is the lookup of the record whose term is exactly the
    trimmed, lower-cased term.  On the reference store, where a call may
    fail without effect and the answer to a write may be lost, for a term
    that is not empty once trimmed and lower-cased: when the record is
    found and neither store call fails, it is given the count plus 1 as
    JavaScript adds (the old count + 1 below 2^53, and 2^53 again at
    2^53), the title of the movie, the address of its poster (the fixed
    prefix followed by the poster path, or null without a path) and the
    time of the clock; when it is not found and no store call fails, a
    record with count 1 and both times read from the clock is created;
    the record written is returned, or null when its answer is lost; in
    every other case null is returned and nothing is stored. *)
Theorem updateSearchCount_contract (env : Env) :
  (forall (S : Type) (h : handler LedgerE S) (s : S) term movie,
     (exists res, result_of (run h (updateSearchCount env term movie) s) = Returned res)
     /\ (existsb is_failed_store_call
           (trace_of (run h (updateSearchCount env term movie) s)) = true ->
         result_of (run h (updateSearchCount env term movie) s) = Returned None))
  /\ (forall (S : Type) (h : handler LedgerE S) (s : S) (term : string) (m : Movie.t),
        truthy_str term = true ->
        truthy_str (normalize term) = true ->
        exists o,
          head (List.filter is_store_call
                  (trace_of (run h (updateSearchCount env (Some term) (Some m)) s)))
          = Some (Call (listDocuments (DATABASE_ID env) (COLLECTION_ID env)
                          [Query_equal "searchTerm" (normalize term); Query_limit 1]) o))
  /\ (forall (fault lost : nat -> option JsError) (clock fresh : nat -> string)
             (term : string) (m : Movie.t) (w : World),
        truthy_str term = true ->
        truthy_str (normalize term) = true ->
        well_formed w ->
        let t := normalize term in
        let n := tick w in
        let store := handle_lossy fault clock fresh lost in
        match record_of t (docs w) with
        | Some old =>
            let u := {| u_count := plus (Doc.count old) 1;
                        u_lastSearched := clock (n + 1)%nat;
                        u_title := Movie.title m;
                        u_poster_url := poster_url_of m |} in
            if decide (fault n = None /\ fault (n + 2)%nat = None)
            then Record_on store env (Some term) (Some m) w
                 = (match lost (n + 2)%nat with
                    | None => Returned (Some (apply_update u old))
                    | Some _ => Returned None
                    end,
                    {| docs := patch (Doc.id old) (apply_update u) (docs w);
                       tick := (n + 3)%nat |})
            else exists k, Record_on store env (Some term) (Some m) w
                           = (Returned None, {| docs := docs w; tick := k |})
        | None =>
            let d := new_doc (fresh (n + 1)%nat)
                       {| c_searchTerm := t;
                          c_count := 1;
                          c_movie_id := Movie.id m;
                          c_title := Movie.title m;
                          c_poster_url := poster_url_of m;
                          c_release_date := or_null (Movie.release_date m);
                          c_vote_average := or_zero (Movie.vote_average m);
                          c_firstSearched := clock (n + 2)%nat;
                          c_lastSearched := clock (n + 3)%nat |} in
            if decide (fault n = None /\ fault (n + 4)%nat = None
                       /\ existsb (has_id (fresh (n + 1)%nat)) (docs w) = false)
            then Record_on store env (Some term) (Some m) w
                 = (match lost (n + 4)%nat with
                    | None => Returned (Some d)
                    | Some _ => Returned None
                    end,
                    {| docs := docs w ++ [d]; tick := (n + 5)%nat |})
            else exists k, Record_on store env (Some term) (Some m) w
                           = (Returned None, {| docs := docs w; tick := k |})
        end)
  /\ (forall c, - 2 ^ 53 <= c < 2 ^ 53 -> plus c 1 = c + 1)
  /\ plus (2 ^ 53) 1 = 2 ^ 53
  /\ (forall m,
        poster_url_of m
        = match Movie.poster_path m with
          | Some p =>
              if truthy_str p then Some ("https://image.tmdb.org/t/p/w500" +:+ p)
              else None
          | None => None
          end).
Proof.
  split; [|split; [|split; [|split; [|split]]]].
  - intros S h s term movie. split.
    + apply LedgerFacts.updateSearchCount_never_throws.
    + apply LedgerFacts.updateSearchCount_failure_null.
  - intros S h s term m Hterm Hnorm.
    by apply LedgerFacts.updateSearchCount_looks_up_first.
  - intros fault lost clock fresh term m w. apply Record_lossy_valid.
  - apply JsFacts.plus_one_exact.
  - apply JsFacts.plus_one_saturates.
  - intros m. unfold poster_url_of. by destruct (Movie.poster_path m) as [[|c p]|].
Qed.

(** C4. [getTrendingMovies] never throws and returns the empty list when
    the store fails.  On the reference store it returns the records with a
    positive count, by non-increasing count, cut at [min limit 100]: at most
    [limit] of them, and exactly [min limit 100] when that many are
    eligible. *)
Theorem getTrendingMovies_top_by_count (env : Env) (limit : option nat) :
  (forall (S : Type) (h : handler LedgerE S) (s : S),
     (exists res, result_of (run h (getTrendingMovies env limit) s) = Returned res)
     /\ (existsb is_failed_store_call
           (trace_of (run h (getTrendingMovies env limit) s)) = true ->
         result_of (run h (getTrendingMovies env limit) s) = Returned []))
  /\ (forall (fault : nat -> option JsError) (clock fresh : nat -> string) (w : World),
        (forall e, fault (tick w) = Some e ->
                   (TopTrending fault clock fresh env limit w).1 = Returned [])
        /\ (fault (tick w) = None ->
            exists result,
              (TopTrending fault clock fresh env limit w).1 = Returned result
              /\ length result
                 = Nat.min (Nat.min (default 10%nat limit) 100) (length (eligible (docs w)))
              /\ (length result <= default 10%nat limit)%nat
              /\ ((Nat.min (default 10%nat limit) 100 <= length (eligible (docs w)))%nat ->
                  length result = Nat.min (default 10%nat limit) 100)
              /\ Forall (fun r => 0 < Trending.count r) result
              /\ (forall i j a b, (i < j)%nat ->
                     result !! i = Some a -> result !! j = Some b ->
                     Trending.count b <= Trending.count a)
              /\ Forall (fun r => exists d, d ∈ eligible (docs w) /\ r = to_trending d)
                    result)).
Proof.
  split.
  - intros S h s. split.
    + apply LedgerFacts.getTrendingMovies_never_throws.
    + apply LedgerFacts.getTrendingMovies_failure_empty.
  - intros fault clock fresh w. split.
    + intros e He. by apply TopTrending_failure with (e := e).
    + intros Hf. eexists. split; [by apply TopTrending_listing|].
      set (qs := [Query_limit _; _; _]).
      pose proof (select_trending_length (Nat.min (default 10%nat limit) 100) (docs w)) as Hlen.
      fold qs in Hlen. rewrite length_map, Hlen.
      split; [done|]. split; [lia|]. split; [lia|]. split; [|split].
      * apply Forall_fmap. eapply Forall_impl; [apply select_trending_positive|]. done.
      * intros i j a b Hij Ha Hb.
        rewrite list_lookup_fmap in Ha, Hb.
        destruct (select qs (docs w) !! i) as [x|] eqn:Hx; [|done].
        destruct (select qs (docs w) !! j) as [y|] eqn:Hy; [|done].
        cbn in Ha, Hb. injection Ha as <-. injection Hb as <-. cbn.
        exact (StronglySorted_lookup _ _ i j x y
                 (select_trending_sorted (Nat.min (default 10%nat limit) 100) (docs w))
                 Hij Hx Hy).
      * apply Forall_fmap, Forall_forall. intros d Hd. exists d. split; [|done].
        subst qs. rewrite select_trending in Hd.
        apply (subseteq_take _ _) in Hd.
        by rewrite (merge_sort_Permutation _ _) in Hd.
Qed.

End StoreFacts.

(** ** The fetch pipeline *)

Module AppFacts.
Import Js Async App.

#[local] Arguments trim : simpl never.
#[local] Arguments toLowerCase : simpl never.
#[local] Arguments pretty : simpl never.
#[local] Arguments String.append : simpl never.
#[local] Arguments search_endpoint : simpl never.
#[local] Arguments discover_endpoint : simpl never.
#[local] Arguments API_OPTIONS : simpl never.
#[local] Arguments no_results_message : simpl never.
#[local] Arguments user_message : simpl never.
#[local] Arguments getErrorType : simpl never.
#[local] Arguments truthy_str : simpl never.
#[local] Arguments List.filter : simpl never.
#[local] Arguments truthy : simpl never.

(** The suspended execution and the complete run agree: a run is what one
    gets by resuming each awaited call with the answer of the outside. *)
Lemma run_advance {R} (w : World) (p : prog AppE R) (st : State) :
  match advance p st with
  | (st', Done o) =>
      result_of (run (handle w) p st) = o /\ state_of (run (handle w) p st) = st'
  | (st', Awaiting ev k) =>
      result_of (run (handle w) p st) = result_of (run (handle w) (k (reply w ev)) st')
      /\ state_of (run (handle w) p st) = state_of (run (handle w) (k (reply w ev)) st')
  end.
Proof.
  induction p as [r|e|X ev k IH] in st |- *; [done..|].
  cbn [advance run].
  assert (Hh : handle w X ev st
               = match react ev st with Some r => r | None => (reply w ev, st) end)
    by reflexivity.
  rewrite Hh. clear Hh.
  destruct (react ev st) as [[x st1]|] eqn:Hreact.
  - specialize (IH x st1).
    destruct (run (handle w) (k x) st1) as [[o s2] tr] eqn:Hrun.
    destruct (advance (k x) st1) as [st' [o'|Y ev' k']]; exact IH.
  - destruct (run (handle w) (k (reply w ev)) st) as [[o s2] tr] eqn:Hrun.
    done.
Qed.
Section Pipeline.
Variable API_KEY : option string.
Variable w : World.

(** Symbolic execution of one run of the pipeline; [rw] rewrites with the
    equations known for the conditions and the replies met on the way. *)
Ltac execute rw :=
  unfold pipeline, fetchMovies;
  repeat first
    [ progress cbn
    | progress rw
    | match goal with
      | |- context [ledger_reply ?w ?q ?m] => destruct (ledger_reply w q m) as [[?|]|?]
      end ].

(** The pipeline does nothing for an empty query after the first load. *)
Lemma pipeline_skips st query isRetry :
  truthy_str query = false -> initialLoad st = false ->
  pipeline API_KEY w st query isRetry = (Returned tt, st, []).
Proof.
  intros Hq Hi. unfold pipeline, fetchMovies. by rewrite Hq, Hi.
Qed.

(** Without a credential, it only sets the configuration message. *)
Lemma pipeline_unconfigured st query isRetry :
  truthy_str query || initialLoad st = true -> truthy API_KEY = false ->
  pipeline API_KEY w st query isRetry
  = (Returned tt, with_errorMessage CONFIG_ERROR st, [Call (setErrorMessage CONFIG_ERROR) tt]).
Proof.
  intros Hq Hk. unfold pipeline, fetchMovies. rewrite Hk.
  destruct (truthy_str query), (initialLoad st); done.
Qed.

(** A response with results. *)
Lemma pipeline_with_results st query isRetry resp m rest :
  truthy_str query || initialLoad st = true -> truthy API_KEY = true ->
  fetch_reply w (if truthy_str query then search_endpoint query else discover_endpoint)
    (API_OPTIONS API_KEY) = Returned resp ->
  ok resp = true -> body resp = Returned (mkData (Some (m :: rest))) ->
  let results := m :: rest in
  let shown := if (0 <? length (List.filter has_poster results))%nat
               then List.filter has_poster results else results in
  let r := pipeline API_KEY w st query isRetry in
  result_of r = Returned tt
  /\ state_of r
     = {| searchTerm := searchTerm st; movieList := shown; errorMessage := "";
          isLoading := false; isRetrying := false;
          trendingMovies := trendingMovies st; initialLoad := false |}
  /\ received (trace_of r) = [Returned resp]
  /\ List.filter is_ledger_call (trace_of r)
     = (if truthy_str query
        then [Call (updateSearchCount query (Some m)) (ledger_reply w query (Some m))]
        else [])
  /\ messages_set (trace_of r) = [EmptyString]
  /\ consoled (trace_of r)
     = [(log, [Text ("Fetching movies: "
                       +:+ (if truthy_str query then search_endpoint query
                            else discover_endpoint))])]
       ++ (if truthy_str query
           then match ledger_reply w query (Some m) with
                | Thrown e =>
                    [(warn, [Text "Failed to update search count:"; Text (message e)])]
                | Returned _ => []
                end
           else [])
       ++ [(log, [Text ("Successfully fetched " +:+ pretty (length (m :: rest))
                          +:+ " movies")])].
Proof.
  intros Hq Hk Hf Hok Hbody results shown r. subst results shown r.
  destruct resp as [o stat txt b]. cbn in Hok, Hbody. subst o b.
  destruct st as [s0 l0 e0 b0 b1 t0 i0]. cbn [initialLoad] in *.
  destruct (truthy_str query) eqn:Eq, i0, isRetry; try done.
  all: cbn iota in Hf; execute ltac:(rewrite ?Eq, ?Hk, ?Hf).
  all: repeat split; try done; cbv [List.filter]; by cbn.
Qed.

(** A response without results. *)
Lemma pipeline_without_results st query isRetry resp data :
  truthy_str query || initialLoad st = true -> truthy API_KEY = true ->
  fetch_reply w (if truthy_str query then search_endpoint query else discover_endpoint)
    (API_OPTIONS API_KEY) = Returned resp ->
  ok resp = true -> body resp = Returned data ->
  results data = Returned None \/ results data = Returned (Some []) ->
  let r := pipeline API_KEY w st query isRetry in
  result_of r = Returned tt
  /\ state_of r
     = {| searchTerm := searchTerm st; movieList := [];
          errorMessage := no_results_message query;
          isLoading := false; isRetrying := false;
          trendingMovies := trendingMovies st; initialLoad := false |}
  /\ received (trace_of r) = [Returned resp]
  /\ List.filter is_ledger_call (trace_of r) = [].
Proof.
  intros Hq Hk Hf Hok Hbody Hres r. subst r.
  destruct resp as [o stat txt b]. cbn in Hok, Hbody. subst o b.
  destruct data as [res|]; cbn in Hres; [|by destruct Hres].
  destruct st as [s0 l0 e0 b0 b1 t0 i0]. cbn [initialLoad] in *.
  destruct (truthy_str query) eqn:Eq, i0, isRetry; try done.
  all: cbn iota in Hf; destruct Hres as [[= ->] | [= ->]];
    execute ltac:(rewrite ?Eq, ?Hk, ?Hf).
  all: repeat split; try done; cbv [List.filter]; by cbn.
Qed.

(** A response whose body is [null]. *)
Lemma pipeline_null_body st query isRetry resp :
  truthy_str query || initialLoad st = true -> truthy API_KEY = true ->
  fetch_reply w (if truthy_str query then search_endpoint query else discover_endpoint)
    (API_OPTIONS API_KEY) = Returned resp ->
  ok resp = true -> body resp = Returned Null ->
  let r := pipeline API_KEY w st query isRetry in
  result_of r = Returned tt
  /\ state_of r
     = {| searchTerm := searchTerm st; movieList := [];
          errorMessage := "Failed to load movies. Please try again later.";
          isLoading := false; isRetrying := false;
          trendingMovies := trendingMovies st; initialLoad := false |}
  /\ List.filter is_ledger_call (trace_of r) = [].
Proof.
  intros Hq Hk Hf Hok Hbody r. subst r.
  destruct resp as [o stat txt b]. cbn in Hok, Hbody. subst o b.
  destruct st as [s0 l0 e0 b0 b1 t0 i0]. cbn [initialLoad] in *.
  destruct (truthy_str query) eqn:Eq, i0, isRetry; try done.
  all: cbn iota in Hf; execute ltac:(rewrite ?Eq, ?Hk, ?Hf).
  all: repeat split; try done; cbv [List.filter]; by cbn.
Qed.

(** A configured pipeline that does not skip makes exactly one request. *)
Lemma pipeline_fetches_once st query isRetry :
  truthy_str query || initialLoad st = true -> truthy API_KEY = true ->
  let url := if truthy_str query then search_endpoint query else discover_endpoint in
  let r := pipeline API_KEY w st query isRetry in
  List.filter is_fetch (trace_of r)
  = [Call (fetch url (API_OPTIONS API_KEY)) (fetch_reply w url (API_OPTIONS API_KEY))]
  /\ received (trace_of r) = [fetch_reply w url (API_OPTIONS API_KEY)].
Proof.
  intros Hq Hk url r. subst url r.
  destruct st as [s0 l0 e0 b0 b1 t0 i0]. cbn [initialLoad] in *.
  destruct (truthy_str query) eqn:Eq, i0, isRetry; try done.
  all: cbn iota.
  all: match goal with
       | |- context [fetch_reply w ?u ?o] =>
           destruct (fetch_reply w u o) as [[[] stat txt [[[[|m rest]|]|]|e']]|e] eqn:Hf
       end.
  all: execute ltac:(rewrite ?Eq, ?Hk, ?Hf).
  all: repeat split; try done; cbv [List.filter]; by cbn.
Qed.

(** What a run received is what the provider answered to its one request;
    a run that skipped, or had no credential, received nothing. *)
Lemma pipeline_received st query isRetry o :
  o ∈ received (trace_of (pipeline API_KEY w st query isRetry)) ->
  truthy_str query || initialLoad st = true
  /\ truthy API_KEY = true
  /\ fetch_reply w (if truthy_str query then search_endpoint query else discover_endpoint)
       (API_OPTIONS API_KEY) = o.
Proof.
  intros Ho.
  destruct (truthy_str query || initialLoad st) eqn:Hq.
  - destruct (truthy API_KEY) eqn:Hk.
    + destruct (pipeline_fetches_once st query isRetry Hq Hk) as [_ Hr].
      rewrite Hr in Ho. apply list_elem_of_singleton in Ho. by subst o.
    + rewrite pipeline_unconfigured in Ho by done. by apply elem_of_nil in Ho.
  - apply orb_false_elim in Hq as [Hq Hi].
    rewrite pipeline_skips in Ho by done. by apply elem_of_nil in Ho.
Qed.

(** Loading the trending list leaves [initialLoad] alone. *)
Lemma loadTrendingMovies_initialLoad st :
  initialLoad (state_of (run (handle w) loadTrendingMovies st)) = initialLoad st.
Proof.
  unfold loadTrendingMovies. cbn.
  destruct (trending_reply w 5) as [l|e]; by cbn.
Qed.

End Pipeline.

(** Without a credential the first load never ends: [initialLoad] stays
    set in every state the component reaches, and no busy flag is ever
    set. *)
Lemma unconfigured_initialLoad API_KEY st :
  truthy API_KEY = false -> reachable API_KEY st ->
  initialLoad st = true /\ isLoading st = false /\ isRetrying st = false.
Proof.
  intros Hk. induction 1 as [|st s _ IH|st w query isRetry _ IH|st w _ IH].
  - done.
  - done.
  - destruct IH as (Hi & Hl & Hy).
    rewrite pipeline_unconfigured; [done| |done]. rewrite Hi. apply orb_true_r.
  - destruct IH as (Hi & Hl & Hy). unfold loadTrendingMovies. cbn.
    destruct (trending_reply w 5) as [l|e]; by cbn.
Qed.

Lemma validateEnvVars_missing env :
  truthy (Appwrite.PROJECT_ID env) = false
  \/ truthy (Appwrite.DATABASE_ID env) = false
  \/ truthy (Appwrite.COLLECTION_ID env) = false ->
  exists names,
    Appwrite.validateEnvVars env
    = Thrown (Error ("Missing required environment variables: " +:+ names)).
Proof.
  intros H. unfold Appwrite.validateEnvVars.
  destruct (truthy (Appwrite.PROJECT_ID env)), (truthy (Appwrite.DATABASE_ID env)),
    (truthy (Appwrite.COLLECTION_ID env)); cbn [negb app length Nat.ltb Nat.leb];
    eauto.
  exfalso. destruct H as [H|[H|H]]; discriminate.
Qed.

(** C6. Without a provider credential, every run of the pipeline in the
    lifetime of the component makes no request and only sets the message
    that the key is not configured, which the content area then shows in
    its error panel; and if any of the three document-store identifiers is
    absent, loading the ledger module throws, so that no ledger operation
    is ever exported. *)
Theorem missing_configuration_fails_fast :
  (forall API_KEY st w query isRetry,
     truthy API_KEY = false -> reachable API_KEY st ->
     let r := pipeline API_KEY w st query isRetry in
     result_of r = Returned tt
     /\ errorMessage (state_of r) = CONFIG_ERROR
     /\ trace_of r = [Call (setErrorMessage CONFIG_ERROR) tt]
     /\ List.filter is_fetch (trace_of r) = []
     /\ received (trace_of r) = []
     /\ errorMessage (state_of r)
        = "TMDB API key is not configured. Please check your environment variables."
     /\ View.content (state_of r)
        = View.ErrorMessage
            "TMDB API key is not configured. Please check your environment variables."
            "general" false)
  /\ (forall env,
        truthy (Appwrite.PROJECT_ID env) = false
        \/ truthy (Appwrite.DATABASE_ID env) = false
        \/ truthy (Appwrite.COLLECTION_ID env) = false ->
        exists names,
          Appwrite.validateEnvVars env
          = Thrown (Error ("Missing required environment variables: " +:+ names))
          /\ Appwrite.load env
             = Thrown (Error ("Missing required environment variables: " +:+ names))).
Proof.
  split.
  - intros API_KEY st w query isRetry Hk Hreach r. subst r.
    destruct (unconfigured_initialLoad API_KEY st Hk Hreach) as (Hi & Hl & Hy).
    rewrite pipeline_unconfigured; [| |done].
    + do 6 (split; [done|]). unfold View.content. cbn. by rewrite Hl, Hy.
    + rewrite Hi. apply orb_true_r.
  - intros env Hmissing.
    destruct (validateEnvVars_missing env Hmissing) as [names Hv].
    exists names. split; [done|]. unfold Appwrite.load. by rewrite Hv.
Qed.


Lemma has_poster_spec m :
  has_poster m = true <-> exists p, Movie.poster_path m = Some p /\ p <> EmptyString.
Proof.
  unfold has_poster, truthy. destruct (Movie.poster_path m) as [[|c p]|]; split.
  all: try done; try (intros (p' & [= <-] & Hp); done).
  all: try (intros _; by eexists).
  all: try (by intros (p' & ? & ?)).
Qed.

(** C2. When the provider answers with a non-empty results list, the movie
    list shown is the results whose poster reference is truthy (neither
    null nor the empty string), or the whole results list when no result
    has one: it is never empty. *)
Theorem movie_list_falls_back_to_unfiltered
    API_KEY w st query isRetry resp (results : list Movie.t) :
  Returned resp ∈ received (trace_of (pipeline API_KEY w st query isRetry)) ->
  ok resp = true ->
  body resp = Returned (mkData (Some results)) ->
  results <> [] ->
  let shown := movieList (state_of (pipeline API_KEY w st query isRetry)) in
  shown = (if (0 <? length (List.filter has_poster results))%nat
           then List.filter has_poster results else results)
  /\ (List.filter has_poster results = [] -> shown = results)
  /\ (List.filter has_poster results <> [] -> shown = List.filter has_poster results)
  /\ shown <> []
  /\ (forall m, has_poster m = true
                <-> exists p, Movie.poster_path m = Some p /\ p <> EmptyString).
Proof.
  intros Hrecv Hok Hbody Hne shown.
  destruct (pipeline_received _ _ _ _ _ _ Hrecv) as (Hq & Hk & Hf).
  destruct results as [|m rest]; [done|].
  destruct (pipeline_with_results API_KEY w st query isRetry resp m rest
              Hq Hk Hf Hok Hbody) as (_ & Hst & _).
  subst shown. rewrite Hst. cbn [movieList].
  split; [done|]. split; [by intros ->|]. split; [|split; [|apply has_poster_spec]].
  - intros Hp. by destruct (List.filter has_poster (m :: rest)).
  - by destruct (List.filter has_poster (m :: rest)).
Qed.

Lemma no_results_not_an_error query e :
  user_message e <> no_results_message query /\ no_results_message query <> CONFIG_ERROR.
Proof.
  unfold user_message, no_results_message, CONFIG_ERROR.
  destruct (truthy_str query);
    destruct (includes (message e) "401"), (includes (message e) "429"),
      (includes (message e) "Failed to fetch"); split; discriminate.
Qed.

(** C7. When the provider answers 2xx with a body that is an object with
    an empty or missing results list, the pipeline ends normally with an
    empty movie list and the no-results message, which is none of the
    messages of a failure: for a non-empty query the message quotes the
    query, for an empty query it is a different, fixed message.  The
    message is shown in the error panel, as the message of a failure is,
    with the type that [getErrorType] reads off its text.  When the body
    is [null], the pipeline reports the failure to load instead. *)
Theorem empty_results_reported_as_no_results
    API_KEY w st query isRetry resp data :
  Returned resp ∈ received (trace_of (pipeline API_KEY w st query isRetry)) ->
  ok resp = true ->
  body resp = Returned data ->
  let r := pipeline API_KEY w st query isRetry in
  (results data = Returned None \/ results data = Returned (Some []) ->
   result_of r = Returned tt
   /\ movieList (state_of r) = []
   /\ errorMessage (state_of r) = no_results_message query
   /\ View.content (state_of r)
      = View.ErrorMessage (no_results_message query)
          (getErrorType (Error (no_results_message query))) false)
  /\ (data = Null ->
      result_of r = Returned tt
      /\ movieList (state_of r) = []
      /\ errorMessage (state_of r) = "Failed to load movies. Please try again later."
      /\ View.content (state_of r)
         = View.ErrorMessage "Failed to load movies. Please try again later."
             "general" false)
  /\ (forall e, user_message e <> no_results_message query)
  /\ no_results_message query <> CONFIG_ERROR
  /\ (query <> EmptyString ->
      no_results_message query
      = "No movies found for " +:+ dquote +:+ query +:+ dquote +:+ ". Try different keywords."
      /\ includes (no_results_message query) query = true
      /\ no_results_message query <> no_results_message "")
  /\ (query = EmptyString ->
      no_results_message query = "No movies available at the moment.").
Proof.
  intros Hrecv Hok Hbody r. subst r.
  destruct (pipeline_received _ _ _ _ _ _ Hrecv) as (Hq & Hk & Hf).
  split; [|split; [|split; [|split; [|split]]]].
  - intros Hres.
    destruct (pipeline_without_results API_KEY w st query isRetry resp data
                Hq Hk Hf Hok Hbody Hres) as (Hr & Hst & _).
    rewrite Hr, Hst. cbn [movieList errorMessage].
    do 3 (split; [done|]). unfold View.content. cbn [isLoading errorMessage isRetrying].
    unfold no_results_message at 1. by destruct (truthy_str query).
  - intros ->.
    destruct (pipeline_null_body API_KEY w st query isRetry resp Hq Hk Hf Hok Hbody)
      as (Hr & Hst & _).
    rewrite Hr, Hst. by cbn.
  - intros e; apply no_results_not_an_error.
  - apply (no_results_not_an_error query (Error "")).
  - intros Hne. unfold no_results_message.
    destruct query as [|c q]; [done|]. cbn [truthy_str truthy].
    split; [done|]. split; [|discriminate].
    apply (JsFacts.includes_middle ("No movies found for " +:+ dquote)
             (String c q) (dquote +:+ ". Try different keywords.")).
  - by intros ->.
Qed.


(** C8. For every search term that is empty once trimmed (every term made
    of whitespace only is): after the first load the pipeline does nothing
    at all; on the first load, when the provider credential is configured,
    it makes exactly one request, for the default popular listing. *)
Theorem empty_query_skips_after_first_load API_KEY w st term isRetry :
  trim term = EmptyString ->
  let r := pipeline_for_term API_KEY w st term isRetry in
  (initialLoad st = false -> r = (Returned tt, st, []))
  /\ (initialLoad st = true -> truthy API_KEY = true ->
      List.filter is_fetch (trace_of r)
      = [Call (fetch discover_endpoint (API_OPTIONS API_KEY))
           (fetch_reply w discover_endpoint (API_OPTIONS API_KEY))])
  /\ (forall s, all_whitespace s = true -> trim s = EmptyString).
Proof.
  intros Ht r. subst r. unfold pipeline_for_term. rewrite Ht.
  split; [|split].
  - intros Hi. by apply pipeline_skips.
  - intros Hi Hk.
    destruct (pipeline_fetches_once API_KEY w st "" isRetry) as [Hfetch _]; [|done|].
    + by rewrite Hi.
    + exact Hfetch.
  - apply JsFacts.trim_all_whitespace.
Qed.

(** C1. For every successful fetch with a non-empty query and a result,
    the pipeline is suspended at the ledger update with its busy flag
    still set, and clears the flags only when it is resumed with the
    settlement of that update; however the update settles (a record,
    null, or a rejection), the pipeline then ends normally, with both
    flags cleared, no error message, and the movie list it had set; the
    only message the run ever sets is the empty one it starts with.  A
    rejection of the update is written to the console as a warning with
    the message of the error, between the two lines every such run logs,
    and leaves no other trace. *)
Theorem ledger_update_awaited_and_harmless
    API_KEY st query isRetry resp m rest :
  truthy API_KEY = true ->
  truthy_str query = true ->
  ok resp = true ->
  body resp = Returned (mkData (Some (m :: rest))) ->
  let at_fetch := advance (fetchMovies API_KEY (initialLoad st) query isRetry) st in
  let at_ledger := resume_fetch at_fetch (Returned resp) in
  fetch_awaited at_fetch = Some (search_endpoint query, API_OPTIONS API_KEY)
  /\ ledger_call_awaited at_ledger = Some (query, Some m)
  /\ busy at_ledger.1 = true
  /\ isLoading at_ledger.1 = (if isRetry then isLoading st else true)
  /\ isRetrying at_ledger.1 = (if isRetry then true else isRetrying st)
  /\ (forall o : outcome (option Doc.t),
        let at_end := resume_ledger at_ledger o in
        finished at_end = Some (Returned tt)
        /\ isLoading at_end.1 = false
        /\ isRetrying at_end.1 = false
        /\ busy at_end.1 = false
        /\ errorMessage at_end.1 = EmptyString
        /\ movieList at_end.1 = movieList at_ledger.1
        /\ movieList at_end.1 <> [])
  /\ (forall w,
        fetch_reply w (search_endpoint query) (API_OPTIONS API_KEY) = Returned resp ->
        let r := pipeline API_KEY w st query isRetry in
        result_of r = Returned tt
        /\ errorMessage (state_of r) = EmptyString
        /\ busy (state_of r) = false
        /\ messages_set (trace_of r) = [EmptyString]
        /\ consoled (trace_of r)
           = [(log, [Text ("Fetching movies: " +:+ search_endpoint query)])]
             ++ match ledger_reply w query (Some m) with
                | Thrown e =>
                    [(warn, [Text "Failed to update search count:"; Text (message e)])]
                | Returned _ => []
                end
             ++ [(log, [Text ("Successfully fetched " +:+ pretty (length (m :: rest))
                                +:+ " movies")])]).
Proof.
  intros Hk Hq Hok Hbody at_fetch at_ledger. subst at_fetch at_ledger.
  destruct resp as [o stat txt b]. cbn in Hok, Hbody. subst o b.
  destruct st as [s0 l0 e0 b0 b1 t0 i0].
  assert (Hshown : (if (0 <? length (List.filter has_poster (m :: rest)))%nat
                    then List.filter has_poster (m :: rest) else m :: rest) <> []).
  { by destruct (List.filter has_poster (m :: rest)). }
  split; [|split; [|split; [|split; [|split; [|split]]]]].
  7:{ intros w Hf r. subst r.
      destruct (pipeline_with_results API_KEY w
                  {| searchTerm := s0; movieList := l0; errorMessage := e0;
                     isLoading := b0; isRetrying := b1; trendingMovies := t0;
                     initialLoad := i0 |} query isRetry
                  {| ok := true; status := stat; statusText := txt;
                     body := Returned (mkData (Some (m :: rest))) |} m rest)
        as (Hr & Hst & _ & _ & Hmsg & Hlog);
        [by rewrite Hq|done|by rewrite Hq|done|done|].
      rewrite Hq in Hlog. by rewrite Hr, Hst, Hmsg, Hlog. }
  all: unfold fetchMovies; rewrite Hq, Hk; cbn [negb andb].
  all: destruct isRetry, i0; cbn; rewrite ?Hq; cbn; try done.
  all: try apply orb_true_r.
  all: intros [[d|]|e]; cbn; done.
Qed.

End AppFacts.

(** ** The properties on the sample data *)

Module Examples.
Import Js Async Sample.

(** *** The ledger *)

Lemma refused_term_witness :
  (truthy (Some "   ") = false \/ Some batman = None
   \/ (exists t, Some "   " = Some t /\ toLowerCase (trim t) = EmptyString))
  /\ result_of (run (Store.handle no_fault clock fresh)
                  (Appwrite.updateSearchCount env (Some "   ") (Some batman)) empty_store)
     = Returned None.
Proof.
  assert (H : truthy (Some "   ") = false \/ Some batman = None
              \/ (exists t, Some "   " = Some t /\ toLowerCase (trim t) = EmptyString)).
  { right; right. exists "   ". split; reflexivity. }
  split; [exact H|].
  exact (proj1 (LedgerFacts.updateSearchCount_invalid_input_no_store_call
                  env (Some "   ") (Some batman) H _
                  (Store.handle no_fault clock fresh) empty_store)).
Defined.

Lemma capped_limit_witness :
  Some 250%nat = Some 250%nat /\ (100 < 250)%nat
  /\ Nat.min (default 10%nat (Some 250%nat)) 100 = 100%nat.
Proof.
  split; [reflexivity|]. split; [lia|].
  destruct (LedgerFacts.getTrendingMovies_limit_capped_at_100
              env (Some 250%nat) _ (Store.handle no_fault clock fresh) empty_store)
    as (_ & _ & Hcap & _).
  apply (Hcap 250%nat); [reflexivity|lia].
Defined.

Lemma empty_store_well_formed : Store.well_formed empty_store.
Proof. apply NoDup_nil_2. Defined.



(** Two searches for the same term, up to case and surrounding spaces,
    leave its counter at 2. *)
Example counter_after_two_searches :
  Store.counter "batman"
    (Store.Record_all no_fault clock fresh env
       [(Some " Batman ", Some batman); (Some "BATMAN", Some batman)] empty_store) = 2.
Proof. vm_compute. reflexivity. Qed.


(** The answer to the creation of the record is lost: the call returns
    null, and the record is in the store. *)
Example counted_although_null_returned :
  (Store.Record_on (Store.handle_lossy no_fault clock fresh answer_lost) env
     (Some "Batman") (Some batman) empty_store).1 = Returned None
  /\ Store.counter "batman"
       (Store.Record_on (Store.handle_lossy no_fault clock fresh answer_lost) env
          (Some "Batman") (Some batman) empty_store).2 = 1.
Proof. vm_compute. by split. Qed.

Lemma record_contract_witness :
  truthy_str " Batman " = true
  /\ truthy_str (Store.normalize " Batman ") = true
  /\ Store.well_formed empty_store
  /\ exists d,
       Store.Record_on (Store.handle_lossy no_fault clock fresh no_fault) env
         (Some " Batman ") (Some batman) empty_store
       = (Returned (Some d), {| Store.docs := [d]; Store.tick := 5 |})
       /\ Doc.count d = 1 /\ Doc.searchTerm d = "batman"
       /\ Doc.poster_url d = Some "https://image.tmdb.org/t/p/w500/batman.jpg"%string.
Proof.
  assert (H1 : truthy_str " Batman " = true) by reflexivity.
  assert (H2 : truthy_str (Store.normalize " Batman ") = true) by reflexivity.
  split; [exact H1|]. split; [exact H2|]. split; [exact empty_store_well_formed|].
  pose proof (proj1 (proj2 (proj2 (StoreFacts.updateSearchCount_contract env)))
                no_fault no_fault clock fresh " Batman " batman empty_store H1 H2
                empty_store_well_formed) as H.
  cbv zeta in H. change (Store.record_of _ _) with (@None Doc.t) in H.
  cbv iota in H. rewrite decide_True in H by (vm_compute; auto).
  eexists. split; [exact H|]. repeat split; reflexivity.
Defined.

(** At [2 ^ 53] the record is found and updated, and its count is not
    incremented: the count stored and returned is the old one. *)
Lemma count_not_incremented_at_2_53 :
  Store.counter "batman" saturated_store = 2 ^ 53
  /\ match (Store.Record_ no_fault clock fresh env (Some "Batman") (Some batman)
              saturated_store).1 with
     | Returned (Some d) => Doc.count d = 2 ^ 53 /\ Doc.count d <> 2 ^ 53 + 1
     | _ => False
     end
  /\ Store.counter "batman"
       (Store.Record_ no_fault clock fresh env (Some "Batman") (Some batman)
          saturated_store).2 = 2 ^ 53.
Proof. vm_compute. repeat split; discriminate. Qed.

Lemma trending_witness :
  no_fault (Store.tick crowded_store) = None
  /\ exists result,
       (Store.TopTrending no_fault clock fresh env (Some 5%nat) crowded_store).1
       = Returned result
       /\ length result = 5%nat.
Proof.
  split; [reflexivity|].
  destruct (proj2 (StoreFacts.getTrendingMovies_top_by_count env (Some 5%nat))
              no_fault clock fresh crowded_store) as [_ H].
  destruct (H eq_refl) as (result & Hr & _ & _ & Hlen & _).
  exists result. split; [exact Hr|]. apply Hlen. vm_compute. lia.
Defined.

(** With 101 eligible records and a limit of 101, 100 records come back. *)
Lemma trending_capped_below_limit :
  length (Store.eligible (Store.docs crowded_store)) = 101%nat
  /\ match (Store.TopTrending no_fault clock fresh env (Some 101%nat) crowded_store).1 with
     | Returned result => length result = 100%nat /\ length result <> 101%nat
     | Thrown _ => False
     end.
Proof. vm_compute. repeat split; discriminate. Qed.

(** *** The pipeline *)

Lemma ledger_awaited_witness :
  truthy (Some "key") = true
  /\ truthy_str "batman" = true
  /\ App.ok (response (Some [batman])) = true
  /\ App.body (response (Some [batman])) = Returned (App.mkData (Some [batman]))
  /\ App.busy
       (App.resume_fetch
          (App.advance (App.fetchMovies (Some "key") true "batman" false) App.initial)
          (Returned (response (Some [batman])))).1 = true.
Proof.
  repeat (split; [reflexivity|]).
  destruct (AppFacts.ledger_update_awaited_and_harmless
              (Some "key") App.initial "batman" false (response (Some [batman])) batman []
              eq_refl eq_refl eq_refl eq_refl) as (_ & _ & Hbusy & _).
  exact Hbusy.
Defined.

(** The fetch succeeded and the ledger update is pending: the pipeline is
    suspended with the loading flag still set, and the flag is cleared only
    by the continuation that the settlement of the update resumes. *)
Lemma busy_while_ledger_update_pending :
  let at_ledger :=
    App.resume_fetch
      (App.advance (App.fetchMovies (Some "key") true "batman" false) App.initial)
      (Returned (response (Some [batman]))) in
  App.ledger_call_awaited at_ledger = Some ("batman", Some batman)
  /\ App.isLoading at_ledger.1 = true
  /\ App.busy at_ledger.1 <> false
  /\ App.busy (App.resume_ledger at_ledger (Returned None)).1 = false.
Proof. vm_compute. repeat split; discriminate. Qed.

Lemma poster_fallback_witness :
  Returned (response (Some [blank_poster]))
  ∈ App.received (trace_of (App.pipeline (Some "key")
                              (outside (response (Some [blank_poster])))
                              App.initial "untitled" false))
  /\ App.ok (response (Some [blank_poster])) = true
  /\ App.body (response (Some [blank_poster]))
     = Returned (App.mkData (Some [blank_poster]))
  /\ [blank_poster] <> []
  /\ App.movieList (state_of (App.pipeline (Some "key")
                                (outside (response (Some [blank_poster])))
                                App.initial "untitled" false)) = [blank_poster].
Proof.
  assert (H : Returned (response (Some [blank_poster]))
              ∈ App.received (trace_of (App.pipeline (Some "key")
                                          (outside (response (Some [blank_poster])))
                                          App.initial "untitled" false))).
  { vm_compute. apply list_elem_of_here. }
  split; [exact H|]. split; [reflexivity|]. split; [reflexivity|].
  assert (Hne : [blank_poster] <> []) by discriminate.
  split; [exact Hne|].
  destruct (AppFacts.movie_list_falls_back_to_unfiltered
              (Some "key") (outside (response (Some [blank_poster]))) App.initial
              "untitled" false (response (Some [blank_poster])) [blank_poster]
              H eq_refl eq_refl Hne) as (_ & Hfall & _).
  apply Hfall. reflexivity.
Defined.

(** A result whose poster reference is the empty string is not null, and
    is filtered out all the same. *)
Lemma empty_poster_filtered_out :
  let results := [blank_poster; batman] in
  let shown :=
    App.movieList (state_of (App.pipeline (Some "key") (outside (response (Some results)))
                               App.initial "batman" false)) in
  List.filter App.poster_not_null results = [blank_poster; batman]
  /\ shown = [batman]
  /\ shown <> List.filter App.poster_not_null results.
Proof. vm_compute. repeat split; discriminate. Qed.

Lemma unconfigured_witness :
  truthy (@None string) = false
  /\ App.reachable None App.initial
  /\ (truthy (Appwrite.PROJECT_ID env_without_database) = false
      \/ truthy (Appwrite.DATABASE_ID env_without_database) = false
      \/ truthy (Appwrite.COLLECTION_ID env_without_database) = false)
  /\ App.errorMessage
       (state_of (App.pipeline None (outside (response None)) App.initial "batman" false))
     = App.CONFIG_ERROR
  /\ exists names,
       Appwrite.load env_without_database
       = Thrown (Error ("Missing required environment variables: " +:+ names)).
Proof.
  assert (Hk : truthy (@None string) = false) by reflexivity.
  assert (Hr : App.reachable None App.initial) by apply App.reach_initial.
  assert (Hm : truthy (Appwrite.PROJECT_ID env_without_database) = false
               \/ truthy (Appwrite.DATABASE_ID env_without_database) = false
               \/ truthy (Appwrite.COLLECTION_ID env_without_database) = false).
  { right; left; reflexivity. }
  split; [exact Hk|]. split; [exact Hr|]. split; [exact Hm|].
  destruct AppFacts.missing_configuration_fails_fast as [Hpipe Hload].
  split.
  - exact (proj1 (proj2 (Hpipe None App.initial (outside (response None)) "batman" false
                           Hk Hr))).
  - destruct (Hload env_without_database Hm) as (names & _ & Hl).
    exists names. exact Hl.
Defined.

Lemma no_results_witness :
  Returned (response (Some []))
  ∈ App.received (trace_of (App.pipeline (Some "key") (outside (response (Some [])))
                              App.initial "zzzqqqnomatch" false))
  /\ App.ok (response (Some [])) = true
  /\ App.body (response (Some [])) = Returned (App.mkData (Some []))
  /\ (App.results (App.mkData (Some [])) = Returned None
      \/ App.results (App.mkData (Some [])) = Returned (Some []))
  /\ App.errorMessage
       (state_of (App.pipeline (Some "key") (outside (response (Some [])))
                    App.initial "zzzqqqnomatch" false))
     = App.no_results_message "zzzqqqnomatch".
Proof.
  assert (H : Returned (response (Some []))
              ∈ App.received (trace_of (App.pipeline (Some "key")
                                          (outside (response (Some [])))
                                          App.initial "zzzqqqnomatch" false))).
  { vm_compute. apply list_elem_of_here. }
  assert (Hres : App.results (App.mkData (Some [])) = Returned None
                 \/ App.results (App.mkData (Some [])) = Returned (Some []))
    by (right; reflexivity).
  split; [exact H|]. split; [reflexivity|]. split; [reflexivity|]. split; [exact Hres|].
  destruct (AppFacts.empty_results_reported_as_no_results
              (Some "key") (outside (response (Some []))) App.initial
              "zzzqqqnomatch" false (response (Some [])) (App.mkData (Some []))
              H eq_refl eq_refl) as (Hempty & _).
  destruct (Hempty Hres) as (_ & _ & Hmsg & _).
  exact Hmsg.
Defined.

(** A 2xx response whose body is [null] has no results list, and the
    pipeline reports the failure to load, not the absence of results.  And
    a search for the word network without results is shown, type and
    title, as a failed request is: as a connection problem. *)
Lemma no_results_reported_as_failure :
  (App.ok null_body = true
   /\ App.errorMessage
        (state_of (App.pipeline (Some "key") (outside null_body) App.initial "batman" false))
      = "Failed to load movies. Please try again later."%string
   /\ App.errorMessage
        (state_of (App.pipeline (Some "key") (outside null_body) App.initial "batman" false))
      <> App.no_results_message "batman")
  /\ (View.content
        (state_of (App.pipeline (Some "key") (outside (response (Some [])))
                     App.initial "network" false))
      = View.ErrorMessage (App.no_results_message "network") "network" false
      /\ View.content
           (state_of (App.pipeline (Some "key") offline App.initial "network" false))
         = View.ErrorMessage "Network error. Please check your connection and try again."
             "network" false
      /\ (View.getErrorConfig "network").1 = "Connection Problem"%string).
Proof. vm_compute. repeat split; discriminate. Qed.

Lemma whitespace_query_witness :
  trim "   " = EmptyString
  /\ App.initialLoad (App.with_initialLoad false App.initial) = false
  /\ App.pipeline_for_term (Some "key") (outside (response None))
       (App.with_initialLoad false App.initial) "   " false
     = (Returned tt, App.with_initialLoad false App.initial, []).
Proof.
  assert (Ht : trim "   " = EmptyString) by reflexivity.
  split; [exact Ht|]. split; [reflexivity|].
  destruct (AppFacts.empty_query_skips_after_first_load
              (Some "key") (outside (response None))
              (App.with_initialLoad false App.initial) "   " false Ht) as (Hskip & _).
  apply Hskip. reflexivity.
Defined.

(** On the first load, with an empty query and no credential, no request
    is made: the popular listing is not fetched. *)
Lemma first_load_without_credential_fetches_nothing :
  trim "   " = EmptyString
  /\ App.initialLoad App.initial = true
  /\ List.filter App.is_fetch
       (trace_of (App.pipeline_for_term None (outside (response None))
                    App.initial "   " false)) = []
  /\ App.received
       (trace_of (App.pipeline_for_term None (outside (response None))
                    App.initial "   " false)) = [].
Proof. vm_compute. repeat split. Qed.

End Examples.

(** ** Running composed programs *)

Module AsyncFacts.
Import Js Async.

Section Run.
Context {E : Type -> Type} {S : Type} (h : handler E S).

(** Sequencing: the second program runs from the state the first one
    left, unless the first one threw. *)
Lemma run_bind {A B} (p : prog E A) (f : A -> prog E B) (s : S) :
  run h (bind p f) s
  = let '(o, s1, tr1) := run h p s in
    match o with
    | Returned a => let '(o2, s2, tr2) := run h (f a) s1 in (o2, s2, tr1 ++ tr2)
    | Thrown e => (Thrown e, s1, tr1)
    end.
Proof.
  induction p as [a|e|X ev k IH] in s |- *; cbn.
  - by destruct (run h (f a) s) as [[o2 s2] tr2].
  - done.
  - destruct (h X ev s) as [x s0]. rewrite IH.
    destruct (run h (k x) s0) as [[[a|e] s1] tr1]; [|done].
    by destruct (run h (f a) s1) as [[o2 s2] tr2].
Qed.

(** [try]/[catch]: the handler runs from the state in which the body
    threw. *)
Lemma run_try_catch {A} (p : prog E A) (handler : JsError -> prog E A) (s : S) :
  run h (try_catch p handler) s
  = let '(o, s1, tr1) := run h p s in
    match o with
    | Returned a => (Returned a, s1, tr1)
    | Thrown e => let '(o2, s2, tr2) := run h (handler e) s1 in (o2, s2, tr1 ++ tr2)
    end.
Proof.
  induction p as [a|e|X ev k IH] in s |- *; cbn.
  - done.
  - by destruct (run h (handler e) s) as [[o2 s2] tr2].
  - destruct (h X ev s) as [x s0]. rewrite IH.
    destruct (run h (k x) s0) as [[[a|e] s1] tr1]; [done|].
    by destruct (run h (handler e) s1) as [[o2 s2] tr2].
Qed.

End Run.
End AsyncFacts.

(** ** More on strings *)

Module StringFacts.
Import Js.

Lemma toLowerCase_app a b : toLowerCase (a +:+ b) = toLowerCase a +:+ toLowerCase b.
Proof. induction a as [|c a IH]; simpl; [done|]. by rewrite IH. Qed.

Lemma startsWith_app_l s r p : startsWith s p = true -> startsWith (s +:+ r) p = true.
Proof.
  induction p as [|c p IH] in s |- *; [done|].
  destruct s as [|d s]; simpl; [done|].
  destruct (Ascii.eqb c d); [apply IH|done].
Qed.

Lemma includes_app_l s r needle :
  includes s needle = true -> includes (s +:+ r) needle = true.
Proof.
  induction s as [|c s IH].
  - simpl. rewrite orb_false_r. intros H. destruct needle; [|done].
    by destruct r.
  - simpl includes at 1. intros [H|H]%orb_prop.
    + apply JsFacts.includes_here. by apply startsWith_app_l.
    + change (String c s +:+ r) with (String c (s +:+ r)).
      simpl includes. rewrite (IH H). apply orb_true_r.
Qed.

(** Lower-casing a code unit twice is lower-casing it once, and changes
    no whitespace into something else or back. *)
Lemma lower_unit_idempotent c : lower_unit (lower_unit c) = lower_unit c.
Proof. destruct c as [[] [] [] [] [] [] [] []]; reflexivity. Qed.

Lemma is_whitespace_lower_unit c : is_whitespace (lower_unit c) = is_whitespace c.
Proof. destruct c as [[] [] [] [] [] [] [] []]; reflexivity. Qed.

Lemma toLowerCase_idempotent s : toLowerCase (toLowerCase s) = toLowerCase s.
Proof.
  induction s as [|c s IH]; simpl; [done|]. by rewrite lower_unit_idempotent, IH.
Qed.

Lemma trimStart_toLowerCase s : trimStart (toLowerCase s) = toLowerCase (trimStart s).
Proof.
  induction s as [|c s IH]; simpl; [done|].
  rewrite is_whitespace_lower_unit. by destruct (is_whitespace c).
Qed.

Lemma trimEnd_toLowerCase s : trimEnd (toLowerCase s) = toLowerCase (trimEnd s).
Proof.
  induction s as [|c s IH]; simpl; [done|].
  rewrite IH, is_whitespace_lower_unit.
  destruct (trimEnd s); simpl; [|done]. by destruct (is_whitespace c).
Qed.

Lemma trim_toLowerCase s : trim (toLowerCase s) = toLowerCase (trim s).
Proof. unfold trim. by rewrite trimStart_toLowerCase, trimEnd_toLowerCase. Qed.

Lemma trimEnd_idempotent s : trimEnd (trimEnd s) = trimEnd s.
Proof.
  induction s as [|c s IH]; simpl; [done|].
  destruct (trimEnd s) as [|d t] eqn:E.
  - destruct (is_whitespace c) eqn:Hc; simpl; [done|]. by rewrite Hc.
  - simpl in *. by rewrite IH.
Qed.

(** A string that does not begin with whitespace keeps its first code
    unit when trimmed at the end. *)
Lemma trimStart_trimEnd_fixed s : trimStart s = s -> trimStart (trimEnd s) = trimEnd s.
Proof.
  destruct s as [|c s]; [done|]. simpl.
  destruct (is_whitespace c) eqn:Hc.
  - intros H. exfalso.
    assert (Hlen : forall t, (String.length (trimStart t) <= String.length t)%nat).
    { induction t as [|d t IHt]; simpl; [done|]. destruct (is_whitespace d); simpl; lia. }
    specialize (Hlen s). rewrite H in Hlen. simpl in Hlen. lia.
  - intros _. destruct (trimEnd s); simpl; by rewrite Hc.
Qed.

Lemma trimStart_idempotent s : trimStart (trimStart s) = trimStart s.
Proof.
  induction s as [|c s IH]; simpl; [done|].
  destruct (is_whitespace c) eqn:Hc; [done|]. simpl. by rewrite Hc.
Qed.

Lemma trim_idempotent s : trim (trim s) = trim s.
Proof.
  unfold trim.
  rewrite (trimStart_trimEnd_fixed (trimStart s) (trimStart_idempotent s)).
  apply trimEnd_idempotent.
Qed.

End StringFacts.

(** ** More on the fetch pipeline *)

Module PipelineFacts.
Import Js Async App View.

#[local] Arguments trim : simpl never.
#[local] Arguments toLowerCase : simpl never.
#[local] Arguments pretty : simpl never.
#[local] Arguments String.append : simpl never.
#[local] Arguments search_endpoint : simpl never.
#[local] Arguments discover_endpoint : simpl never.
#[local] Arguments API_OPTIONS : simpl never.
#[local] Arguments no_results_message : simpl never.
#[local] Arguments user_message : simpl never.
#[local] Arguments getErrorType : simpl never.
#[local] Arguments truthy_str : simpl never.
#[local] Arguments List.filter : simpl never.
#[local] Arguments truthy : simpl never.
#[local] Arguments content : simpl never.

Ltac execute rw :=
  unfold pipeline, fetchMovies;
  repeat first
    [ progress cbn
    | progress rw
    | match goal with
      | |- context [ledger_reply ?w ?q ?m] => destruct (ledger_reply w q m) as [[?|]|?]
      end ].

(** Every settlement of [fetch] is a failure, or carries a list of
    results. *)
Lemma settlement_cases (o : outcome Response) :
  (exists e, failure_of o = Some e)
  \/ (exists resp res, o = Returned resp /\ ok resp = true
                       /\ body resp = Returned (mkData res)
                       /\ results_of o = default [] res).
Proof.
  destruct o as [[[] stat txt [[res|]|e]]|e]; cbn; eauto 10.
Qed.

Section Pipeline.
Variable API_KEY : option string.
Variable w : World.

(** A failed request. *)
Lemma pipeline_failure st query isRetry e :
  truthy_str query || initialLoad st = true -> truthy API_KEY = true ->
  failure_of (fetch_reply w
                (if truthy_str query then search_endpoint query else discover_endpoint)
                (API_OPTIONS API_KEY)) = Some e ->
  let r := pipeline API_KEY w st query isRetry in
  result_of r = Returned tt
  /\ state_of r
     = {| searchTerm := searchTerm st; movieList := []; errorMessage := user_message e;
          isLoading := false; isRetrying := false;
          trendingMovies := trendingMovies st; initialLoad := false |}
  /\ List.filter is_ledger_call (trace_of r) = []
  /\ messages_set (trace_of r) = [EmptyString; user_message e].
Proof.
  intros Hq Hk Hfail r. subst r.
  destruct st as [s0 l0 e0 b0 b1 t0 i0]. cbn [initialLoad] in *.
  destruct (truthy_str query) eqn:Eq, i0, isRetry; try done.
  all: cbn iota in Hfail.
  all: match type of Hfail with
       | context [fetch_reply w ?u ?o] =>
           destruct (fetch_reply w u o) as [[[] stat txt [[res|]|e']]|e'] eqn:Hf
       end; cbn in Hfail; try done; injection Hfail as <-.
  all: execute ltac:(rewrite ?Eq, ?Hk, ?Hf).
  all: repeat split; try done; cbv [List.filter]; by cbn.
Qed.

(** The final state of a run that made its request, by what the provider
    answered. *)
Lemma pipeline_state st query isRetry :
  truthy_str query || initialLoad st = true -> truthy API_KEY = true ->
  let o := fetch_reply w
             (if truthy_str query then search_endpoint query else discover_endpoint)
             (API_OPTIONS API_KEY) in
  let r := pipeline API_KEY w st query isRetry in
  result_of r = Returned tt
  /\ received (trace_of r) = [o]
  /\ searchTerm (state_of r) = searchTerm st
  /\ trendingMovies (state_of r) = trendingMovies st
  /\ isLoading (state_of r) = false
  /\ isRetrying (state_of r) = false
  /\ initialLoad (state_of r) = false
  /\ match failure_of o, results_of o with
     | Some e, _ =>
         movieList (state_of r) = [] /\ errorMessage (state_of r) = user_message e
         /\ List.filter is_ledger_call (trace_of r) = []
     | None, [] =>
         movieList (state_of r) = []
         /\ errorMessage (state_of r) = no_results_message query
         /\ List.filter is_ledger_call (trace_of r) = []
     | None, m :: rest =>
         movieList (state_of r)
         = (if (0 <? length (List.filter has_poster (m :: rest)))%nat
            then List.filter has_poster (m :: rest) else m :: rest)
         /\ errorMessage (state_of r) = EmptyString
         /\ List.filter is_ledger_call (trace_of r)
            = (if truthy_str query
               then [Call (updateSearchCount query (Some m)) (ledger_reply w query (Some m))]
               else [])
     end.
Proof.
  intros Hq Hk o r.
  destruct (AppFacts.pipeline_fetches_once API_KEY w st query isRetry Hq Hk) as [_ Hrecv].
  fold o r in Hrecv.
  destruct (settlement_cases o) as [[e He]|(resp & res & Ho & Hok & Hbody & Hres)].
  - destruct (pipeline_failure st query isRetry e Hq Hk He) as (Hr & Hst & Hl & _).
    fold r in Hr, Hst, Hl. rewrite He, Hr, Hst. done.
  - assert (failure_of o = None) as ->.
    { rewrite Ho. cbn. by rewrite Hok, Hbody. }
    rewrite Hres. destruct res as [[|m rest]|]; cbn [default].
    + destruct (AppFacts.pipeline_without_results API_KEY w st query isRetry resp _
                  Hq Hk Ho Hok Hbody) as (Hr & Hst & _ & Hl); [by right|].
      fold r in Hr, Hst, Hl. rewrite Hr, Hst. done.
    + destruct (AppFacts.pipeline_with_results API_KEY w st query isRetry resp m rest
                  Hq Hk Ho Hok Hbody) as (Hr & Hst & _ & Hl & _).
      fold r in Hr, Hst, Hl. rewrite Hr, Hst. done.
    + destruct (AppFacts.pipeline_without_results API_KEY w st query isRetry resp _
                  Hq Hk Ho Hok Hbody) as (Hr & Hst & _ & Hl); [by left|].
      fold r in Hr, Hst, Hl. rewrite Hr, Hst. done.
Qed.

End Pipeline.

(** X1. A run of the pipeline never throws, whatever the provider and the
    ledger do; it makes at most one request and never touches the search
    term or the trending list; if it made a request, both busy flags and
    [initialLoad] are cleared when it ends; and it never leaves a busy
    flag or [initialLoad] set that was not set when it started. *)
Theorem pipeline_never_throws_and_cleans_up API_KEY w st query isRetry :
  let r := pipeline API_KEY w st query isRetry in
  result_of r = Returned tt
  /\ searchTerm (state_of r) = searchTerm st
  /\ trendingMovies (state_of r) = trendingMovies st
  /\ (length (received (trace_of r)) <= 1)%nat
  /\ (received (trace_of r) <> [] ->
      isLoading (state_of r) = false /\ isRetrying (state_of r) = false
      /\ initialLoad (state_of r) = false)
  /\ (isLoading (state_of r) = true -> isLoading st = true)
  /\ (isRetrying (state_of r) = true -> isRetrying st = true)
  /\ (initialLoad (state_of r) = true -> initialLoad st = true).
Proof.
  intros r. subst r.
  destruct (truthy_str query || initialLoad st) eqn:Hq.
  - destruct (truthy API_KEY) eqn:Hk.
    + destruct (pipeline_state API_KEY w st query isRetry Hq Hk)
        as (Hr & Hrecv & Hs & Ht & Hl & Hy & Hi & _).
      rewrite Hrecv, Hl, Hy, Hi. cbn [length]. repeat split; first [done|lia].
    + rewrite AppFacts.pipeline_unconfigured by done. cbn. repeat split; first [done|lia].
  - apply orb_false_elim in Hq as [Hq Hi].
    rewrite AppFacts.pipeline_skips by done. cbn. repeat split; first [done|lia].
Qed.


Lemma user_message_cases e :
  user_message e = "Invalid API credentials. Please check your TMDB API key."
  \/ user_message e = "Too many requests. Please wait a moment and try again."
  \/ user_message e = "Network error. Please check your connection and try again."
  \/ user_message e = "Failed to load movies. Please try again later.".
Proof.
  unfold user_message.
  destruct (includes (message e) "401"), (includes (message e) "429"),
    (includes (message e) "Failed to fetch"); auto.
Qed.

(** The messages of the [catch] block classify as network or general. *)
Lemma user_message_type e :
  getErrorType (Error (user_message e))
  = if String.eqb (user_message e)
         "Network error. Please check your connection and try again."
    then "network" else "general".
Proof.
  destruct (user_message_cases e) as [-> | [-> | [-> | ->]]]; by vm_compute.
Qed.

(** X2. When the request fails (the fetch rejects, the response is not
    ok, or its body does not parse), the run ends with an empty movie
    list and one of the four fixed messages of the catch block, without
    calling the ledger; what is then rendered is the error panel, not
    retrying, whose type is network or general and never server or
    search, whatever the HTTP status was. *)
Theorem failed_request_is_reported API_KEY w st query isRetry o e :
  o ∈ received (trace_of (pipeline API_KEY w st query isRetry)) ->
  failure_of o = Some e ->
  let r := pipeline API_KEY w st query isRetry in
  result_of r = Returned tt
  /\ movieList (state_of r) = []
  /\ errorMessage (state_of r) = user_message e
  /\ List.filter is_ledger_call (trace_of r) = []
  /\ (exists type,
        content (state_of r) = ErrorMessage (user_message e) type false
        /\ (type = "network" /\ (getErrorConfig type).1 = "Connection Problem"
            \/ type = "general" /\ (getErrorConfig type).1 = "Something went wrong")).
Proof.
  intros Hrecv Hfail r. subst r.
  destruct (AppFacts.pipeline_received _ _ _ _ _ _ Hrecv) as (Hq & Hk & Hf).
  rewrite <- Hf in Hfail.
  destruct (pipeline_failure API_KEY w st query isRetry e Hq Hk Hfail)
    as (Hr & Hst & Hl & _).
  rewrite Hr, Hst, Hl. cbn [movieList errorMessage].
  repeat (split; [done|]).
  exists (getErrorType (Error (user_message e))). split.
  - unfold content. cbn [isLoading errorMessage isRetrying].
    by destruct (user_message_cases e) as [-> | [-> | [-> | ->]]].
  - rewrite user_message_type.
    destruct (user_message_cases e) as [-> | [-> | [-> | ->]]]; vm_compute; auto.
Qed.

Lemma includes_http_401 txt : includes ("HTTP 401: " +:+ txt) "401" = true.
Proof. vm_compute. by destruct txt. Qed.

(** X3. A response that is not ok and has status 401 gives the
    invalid-credentials message whatever its status text; one with status
    429 gives the too-many-requests message, unless its status text
    contains 401. *)
Theorem http_401_and_429_messages API_KEY w st query isRetry resp :
  Returned resp ∈ received (trace_of (pipeline API_KEY w st query isRetry)) ->
  ok resp = false ->
  let shown := errorMessage (state_of (pipeline API_KEY w st query isRetry)) in
  (status resp = 401 ->
   shown = "Invalid API credentials. Please check your TMDB API key.")
  /\ (status resp = 429 -> includes (statusText resp) "401" = false ->
      shown = "Too many requests. Please wait a moment and try again.").
Proof.
  intros Hrecv Hok shown. subst shown.
  assert (Hfail : failure_of (Returned resp)
                  = Some (Error ("HTTP " +:+ pretty (status resp) +:+ ": "
                                   +:+ statusText resp))).
  { cbn. by rewrite Hok. }
  destruct (AppFacts.pipeline_received _ _ _ _ _ _ Hrecv) as (Hq & Hk & Hf).
  rewrite <- Hf in Hfail.
  destruct (pipeline_failure API_KEY w st query isRetry _ Hq Hk Hfail)
    as (_ & Hst & _).
  rewrite Hst. cbn [errorMessage]. unfold user_message. cbn [message Error]. split.
  - intros ->. change (pretty 401) with "401".
    change ("HTTP " +:+ "401" +:+ ": " +:+ statusText resp)
      with ("HTTP 401: " +:+ statusText resp).
    by rewrite includes_http_401.
  - intros -> Htxt. change (pretty 429) with "429".
    assert (includes ("HTTP " +:+ "429" +:+ ": " +:+ statusText resp) "401" = false) as ->.
    { cbn -[includes]. cbn. exact Htxt. }
    assert (includes ("HTTP " +:+ "429" +:+ ": " +:+ statusText resp) "429" = true) as ->.
    { vm_compute. by destruct (statusText resp). }
    done.
Qed.


(** X4. A run calls the ledger at most once, and exactly when it received
    an answer that did not fail and has results, for a non-empty query;
    the call carries the query and the first result.  The default listing,
    failed requests and empty results never reach the ledger. *)
Theorem ledger_called_only_for_search_with_results API_KEY w st query isRetry :
  let r := pipeline API_KEY w st query isRetry in
  List.filter is_ledger_call (trace_of r)
  = match received (trace_of r) with
    | [o] =>
        match failure_of o, results_of o with
        | None, m :: _ =>
            if truthy_str query
            then [Call (updateSearchCount query (Some m)) (ledger_reply w query (Some m))]
            else []
        | _, _ => []
        end
    | _ => []
    end.
Proof.
  intros r. subst r.
  destruct (truthy_str query || initialLoad st) eqn:Hq.
  - destruct (truthy API_KEY) eqn:Hk.
    + destruct (pipeline_state API_KEY w st query isRetry Hq Hk)
        as (_ & Hrecv & _ & _ & _ & _ & _ & Hcase).
      rewrite Hrecv.
      destruct (failure_of _) as [e|]; [by destruct Hcase as (_ & _ & ->)|].
      destruct (results_of _) as [|m rest]; by destruct Hcase as (_ & _ & ->).
    + by rewrite AppFacts.pipeline_unconfigured by done.
  - apply orb_false_elim in Hq as [Hq Hi].
    by rewrite AppFacts.pipeline_skips by done.
Qed.

Lemma user_message_nonempty e : user_message e <> EmptyString.
Proof. by destruct (user_message_cases e) as [-> | [-> | [-> | ->]]]. Qed.

Lemma no_results_message_nonempty q : no_results_message q <> EmptyString.
Proof. unfold no_results_message. by destruct (truthy_str q). Qed.

Lemma loadTrendingMovies_state w st :
  state_of (run (handle w) loadTrendingMovies st) = st
  \/ exists l, state_of (run (handle w) loadTrendingMovies st) = with_trendingMovies l st.
Proof.
  unfold loadTrendingMovies. cbn.
  destruct (trending_reply w 5) as [l|e]; cbn; eauto.
Qed.

Lemma reachable_settled API_KEY st : reachable API_KEY st -> settled API_KEY st.
Proof.
  induction 1 as [|st s _ IH|st w query isRetry _ IH|st w _ IH].
  - repeat split; auto.
  - exact IH.
  - destruct IH as (Hl & Hy & Hkey & Hcases).
    destruct (truthy_str query || initialLoad st) eqn:Hq.
    + destruct (truthy API_KEY) eqn:Hk.
      * destruct (pipeline_state API_KEY w st query isRetry Hq Hk)
          as (_ & _ & _ & _ & Hl' & Hy' & _ & Hcase).
        split; [done|]. split; [done|]. split; [intros; congruence|].
        destruct (failure_of _) as [e|].
        { destruct Hcase as (-> & -> & _). right; right. split; [|done].
          apply user_message_nonempty. }
        destruct (results_of _) as [|m rest].
        { destruct Hcase as (-> & -> & _). right; right. split; [|done].
          apply no_results_message_nonempty. }
        destruct Hcase as (-> & -> & _). right; left. split; [done|].
        by destruct (List.filter has_poster (m :: rest)).
      * rewrite AppFacts.pipeline_unconfigured by done.
        cbn. pose proof (Hkey eq_refl) as Hm. repeat split; auto.
    + apply orb_false_elim in Hq as [Hq Hi].
      rewrite AppFacts.pipeline_skips by done. repeat split; done.
  - destruct (loadTrendingMovies_state w st) as [->|[l ->]]; exact IH.
Qed.

(** X5. Between runs of the pipeline the component is never busy and
    never holds both a movie list and an error message; once a run has
    completed the first load, the content area shows the movie grid or the
    error panel, never the placeholder and never the spinner. *)
Theorem content_is_grid_or_error_after_first_load API_KEY st :
  reachable API_KEY st ->
  isLoading st = false /\ isRetrying st = false
  /\ (movieList st <> [] -> errorMessage st = EmptyString)
  /\ (initialLoad st = false ->
      (movieList st <> []
       /\ content st = MovieGrid (movieList st) (20 <=? length (movieList st))%nat)
      \/ (errorMessage st <> EmptyString
          /\ content st
             = ErrorMessage (errorMessage st) (getErrorType (Error (errorMessage st))) false)).
Proof.
  intros Hreach. destruct (reachable_settled _ _ Hreach) as (Hl & Hy & _ & Hcases).
  split; [done|]. split; [done|]. split.
  - intros Hne. destruct Hcases as [(_ & ? & _)|[(? & _)|(_ & ?)]]; done.
  - intros Hi. unfold content. rewrite Hl, Hy.
    destruct Hcases as [(_ & _ & ?)|[(-> & Hm)|(He & ->)]]; [congruence| |].
    + left. split; [done|]. cbn. by destruct (movieList st).
    + right. split; [done|]. by destruct (errorMessage st).
Qed.


(** X6. The error panel's type is read off the text of the message, so
    when a search for a query that contains the word network or fetch (in
    any case) has no results, the no-results message is rendered as a
    connection problem. *)
Theorem empty_search_for_network_words_is_connection_problem
    API_KEY w st query isRetry resp data :
  Returned resp ∈ received (trace_of (pipeline API_KEY w st query isRetry)) ->
  ok resp = true ->
  body resp = Returned data ->
  results data = Returned None \/ results data = Returned (Some []) ->
  includes (toLowerCase query) "network" = true
  \/ includes (toLowerCase query) "fetch" = true ->
  content (state_of (pipeline API_KEY w st query isRetry))
  = ErrorMessage (no_results_message query) "network" false
  /\ (getErrorConfig "network").1 = "Connection Problem".
Proof.
  intros Hrecv Hok Hbody Hres Hword. split; [|done].
  destruct (AppFacts.pipeline_received _ _ _ _ _ _ Hrecv) as (Hq & Hk & Hf).
  destruct (AppFacts.pipeline_without_results API_KEY w st query isRetry resp data
              Hq Hk Hf Hok Hbody Hres) as (_ & Hst & _).
  rewrite Hst. unfold content. cbn [isLoading errorMessage isRetrying].
  assert (Hne : truthy_str query = true).
  { destruct query; [|done]. by destruct Hword. }
  assert (Htype : getErrorType (Error (no_results_message query)) = "network").
  { unfold getErrorType, no_results_message. rewrite Hne. cbn [message Error].
    rewrite !StringFacts.toLowerCase_app.
    assert (Hin : forall word, includes (toLowerCase query) word = true ->
              includes (toLowerCase "No movies found for " +:+ toLowerCase dquote
                          +:+ toLowerCase query +:+ toLowerCase dquote
                          +:+ toLowerCase ". Try different keywords.") word = true).
    { intros word Hw.
      by apply JsFacts.includes_app_r, JsFacts.includes_app_r, StringFacts.includes_app_l. }
    destruct Hword as [Hw|Hw].
    - by rewrite (Hin _ Hw).
    - rewrite (Hin "fetch" Hw). by rewrite orb_true_r. }
  rewrite Htype. unfold no_results_message. rewrite Hne.
  by destruct query.
Qed.


Lemma no_error_panel_without_message st m t b :
  errorMessage st = EmptyString -> content st <> ErrorMessage m t b.
Proof.
  intros He. unfold content. rewrite He.
  change (truthy_str EmptyString) with false. cbv iota.
  by destruct (isLoading st), (0 <? length (movieList st))%nat.
Qed.

(** X7. From a state that is not busy, while a run is suspended at the
    provider request or at the ledger update, exactly one busy flag is set
    ([isRetrying] for a retry, [isLoading] otherwise) and the error
    message is empty: the error panel is never rendered with its button in
    the retrying state. *)
Theorem one_busy_flag_while_awaiting API_KEY st query isRetry :
  truthy API_KEY = true ->
  truthy_str query || initialLoad st = true ->
  isLoading st = false -> isRetrying st = false ->
  let at_fetch := advance (fetchMovies API_KEY (initialLoad st) query isRetry) st in
  fetch_awaited at_fetch
  = Some (if truthy_str query then search_endpoint query else discover_endpoint,
          API_OPTIONS API_KEY)
  /\ isLoading at_fetch.1 = negb isRetry
  /\ isRetrying at_fetch.1 = isRetry
  /\ errorMessage at_fetch.1 = EmptyString
  /\ (forall m t, content at_fetch.1 <> ErrorMessage m t true)
  /\ (forall o,
        let at_ledger := resume_fetch at_fetch o in
        ledger_call_awaited at_ledger <> None ->
        isLoading at_ledger.1 = negb isRetry
        /\ isRetrying at_ledger.1 = isRetry
        /\ errorMessage at_ledger.1 = EmptyString
        /\ (forall m t, content at_ledger.1 <> ErrorMessage m t true)).
Proof.
  intros Hk Hq Hl Hy at_fetch. subst at_fetch.
  destruct st as [s0 l0 e0 b0 b1 t0 i0]. cbn [initialLoad isLoading isRetrying] in *.
  subst b0 b1.
  unfold fetchMovies. rewrite Hk.
  assert (negb (truthy_str query) && negb i0 = false) as ->.
  { by destruct (truthy_str query), i0. }
  cbn [negb]. split; [by destruct isRetry|].
  split; [by destruct isRetry|]. split; [by destruct isRetry|].
  split; [by destruct isRetry|]. split.
  { intros m t. apply no_error_panel_without_message. by destruct isRetry. }
  intros [[[] stat txt [[[[|mv rest]|]|]|e']]|e];
    destruct isRetry, (truthy_str query) eqn:Eq, i0; cbn; rewrite ?Eq; cbn; try done.
  all: intros _; repeat split; try done.
  all: intros m t; by apply no_error_panel_without_message.
Qed.

End PipelineFacts.

(** ** Ledger statistics *)

Module StatsFacts.
Import Js Async Appwrite Store Stats.

#[local] Arguments pretty : simpl never.
#[local] Arguments String.append : simpl never.
#[local] Arguments select : simpl never.

Lemma fold_count_add l a b :
  fold_left (fun sum doc => sum + Doc.count doc) l (a + b)
  = a + fold_left (fun sum doc => sum + Doc.count doc) l b.
Proof.
  induction l as [|d l IH] in b |- *; cbn [fold_left]; [done|].
  by rewrite <- Z.add_assoc, IH.
Qed.

Lemma fold_count_shift l a :
  fold_left (fun sum doc => sum + Doc.count doc) l a = a + total l.
Proof. unfold total. by rewrite <- fold_count_add, Z.add_0_r. Qed.

Lemma total_cons d l : total (d :: l) = Doc.count d + total l.
Proof. unfold total at 1. cbn [fold_left]. by rewrite fold_count_shift. Qed.


Lemma total_Permutation l1 l2 : l1 ≡ₚ l2 -> total l1 = total l2.
Proof.
  induction 1 as [|x l1 l2 _ IH|x y l|l1 l2 l3 _ IH1 _ IH2]; rewrite ?total_cons; lia.
Qed.

(** The listing [getSearchStats] asks for: every record, by descending
    count, cut at 100. *)
Lemma select_stats l :
  select [Query_limit 100; Query_orderDesc "count"] l
  = take 100 (merge_sort (desc_by "count") l).
Proof.
  unfold select. cbn [limit_of ordered]. do 2 f_equal.
  transitivity (List.filter (fun _ => true) l); [by apply List.filter_ext|].
  induction l as [|d l IH]; cbn; [done|]. by f_equal.
Qed.


Ltac answer h :=
  match goal with
  | |- context [h ?X ?ev ?s] =>
      let x := fresh "x" in let s' := fresh "s" in
      destruct (h X ev s) as [x s'];
      try match type of x with
          | outcome _ => destruct x
          | unit => destruct x
          end
  end.

(** X8. [getSearchStats] never throws, whatever the store does: when the
    listing fails it returns zero totals, no top search and, as error, the
    message of the error the listing failed with; otherwise it returns no
    error, a time of update, the number of documents listed, the sum of
    their counts as JavaScript adds them, and the first of them as top
    search. *)
Theorem getSearchStats_never_throws (env : Env) (S : Type) (h : handler LedgerE S) (s : S) :
  let r := run h (getSearchStats env) s in
  exists stats,
    result_of r = Returned stats
    /\ match failures (trace_of r) with
       | e :: _ =>
           stats = {| totalSearches := 0; uniqueTerms := 0; topSearch := None;
                      lastUpdated := None; error := Some (message e) |}
       | [] =>
           error stats = None /\ lastUpdated stats <> None
           /\ exists l,
                listings (trace_of r) = [l]
                /\ uniqueTerms stats = length l
                /\ totalSearches stats
                   = fold_left (fun sum doc => plus sum (Doc.count doc)) l 0
                /\ topSearch stats
                   = match l with
                     | top :: _ => Some {| term := Doc.searchTerm top;
                                           count := Doc.count top;
                                           title := Doc.title top |}
                     | [] => None
                     end
       end.
Proof.
  unfold getSearchStats. cbn. repeat (answer h; cbn); eauto.
  eexists. split; [done|]. cbn. split; [done|]. split; [done|].
  eexists. split; [done|]. split; [done|]. split; [done|].
  by destruct (documents a).
Qed.


Lemma total_nonneg l : Forall (fun d => 0 <= Doc.count d) l -> 0 <= total l.
Proof.
  induction 1 as [|d l Hd _ IH]; [done|]. rewrite total_cons. lia.
Qed.


(** Adding the counts as JavaScript does gives their sum, when none is
    negative and the sum is at most [2 ^ 53]. *)
Lemma fold_plus_exact l a :
  Forall (fun d => 0 <= Doc.count d) l -> 0 <= a -> a + total l <= 2 ^ 53 ->
  fold_left (fun sum doc => plus sum (Doc.count doc)) l a = a + total l.
Proof.
  induction 1 as [|d l Hd Hl IH] in a |- *; intros Ha Hsum.
  - cbn. change (total []) with 0. lia.
  - rewrite total_cons in Hsum. pose proof (total_nonneg l Hl) as Hn.
    cbn [fold_left]. unfold plus at 2. rewrite JsFacts.to_double_exact by lia.
    rewrite IH by lia. rewrite total_cons. lia.
Qed.

Section OnStore.
Variable fault : nat -> option JsError.
Variable clock : nat -> string.
Variable fresh : nat -> string.
Variable env : Env.

Lemma SearchStats_listing w :
  fault (tick w) = None ->
  let listed := select [Query_limit 100; Query_orderDesc "count"] (docs w) in
  (SearchStats_of fault clock fresh env w).1
  = Returned
      {| totalSearches := fold_left (fun sum doc => plus sum (Doc.count doc)) listed 0;
         uniqueTerms := length listed;
         topSearch :=
           match head listed with
           | Some top => Some {| term := Doc.searchTerm top; count := Doc.count top;
                                 title := Doc.title top |}
           | None => None
           end;
         lastUpdated := Some (clock (Datatypes.S (tick w)));
         error := None |}.
Proof.
  intros Hf listed. unfold SearchStats_of, getSearchStats. cbn. rewrite Hf. cbn.
  done.
Qed.


Section Lossy.
Variable lost : nat -> option JsError.



End Lossy.

End OnStore.

Lemma sorted_head_greatest (l : list Doc.t) top :
  head (merge_sort (desc_by "count") l) = Some top ->
  top ∈ l /\ forall d, d ∈ l -> Doc.count d <= Doc.count top.
Proof.
  intros Hhead.
  pose proof (merge_sort_Permutation (desc_by "count") l) as Hperm.
  pose proof (@StronglySorted_merge_sort _ (desc_by "count") _
                (StoreFacts.desc_by_transitive "count")
                (StoreFacts.desc_by_total "count") l) as Hsorted.
  destruct (merge_sort (desc_by "count") l) as [|x r]; [done|].
  injection Hhead as ->. split.
  - rewrite <- Hperm. apply list_elem_of_here.
  - intros d Hd. rewrite <- Hperm in Hd.
    apply elem_of_cons in Hd as [->|Hd]; [lia|].
    apply StronglySorted_inv in Hsorted as [_ Hall].
    rewrite Forall_forall in Hall. exact (Hall d Hd).
Qed.

(** The total reported for a store of at most 100 records, none with a
    negative count, whose counts sum to at most [2 ^ 53]. *)
Lemma totalSearches_exact (l : list Doc.t) :
  (length l <= 100)%nat ->
  Forall (fun d => 0 <= Doc.count d) l ->
  total l <= 2 ^ 53 ->
  fold_left (fun sum doc => plus sum (Doc.count doc))
    (select [Query_limit 100; Query_orderDesc "count"] l) 0
  = total l.
Proof.
  intros Hlen Hpos Hsum. rewrite select_stats.
  pose proof (merge_sort_Permutation (desc_by "count") l) as Hperm.
  rewrite take_ge by (rewrite (Permutation_length Hperm); lia).
  rewrite fold_plus_exact.
  - rewrite (total_Permutation _ _ Hperm). lia.
  - by rewrite Hperm.
  - done.
  - by rewrite (total_Permutation _ _ Hperm).
Qed.

(** X9. On the reference store, when the listing does not fail,
    [getSearchStats] reports the number of records (at most 100), as top
    search a record whose count no record exceeds (none only when the
    store is empty), and, when the store holds at most 100 records, none
    with a negative count, whose counts sum to at most 2^53, that sum as
    the total. *)
Theorem getSearchStats_on_reference_store
    (fault : nat -> option JsError) (clock fresh : nat -> string) (env : Env)
    (w : World) :
  fault (tick w) = None ->
  exists stats,
    (SearchStats_of fault clock fresh env w).1 = Returned stats
    /\ error stats = None
    /\ uniqueTerms stats = Nat.min 100 (length (docs w))
    /\ ((length (docs w) <= 100)%nat ->
        Forall (fun d => 0 <= Doc.count d) (docs w) ->
        total (docs w) <= 2 ^ 53 ->
        totalSearches stats = total (docs w))
    /\ match topSearch stats with
       | Some top =>
           (exists d, d ∈ docs w /\ term top = Doc.searchTerm d
                      /\ count top = Doc.count d /\ title top = Doc.title d)
           /\ forall d, d ∈ docs w -> Doc.count d <= count top
       | None => docs w = []
       end.
Proof.
  intros Hf. eexists. split; [by apply SearchStats_listing|].
  cbn [error uniqueTerms totalSearches topSearch].
  pose proof (merge_sort_Permutation (desc_by "count") (docs w)) as Hperm.
  split; [done|]. split; [|split].
  - by rewrite select_stats, length_take, (Permutation_length Hperm).
  - apply totalSearches_exact.
  - rewrite select_stats.
    assert (Hhead : head (take 100 (merge_sort (desc_by "count") (docs w)))
                    = head (merge_sort (desc_by "count") (docs w))).
    { by destruct (merge_sort (desc_by "count") (docs w)). }
    rewrite Hhead.
    destruct (head (merge_sort (desc_by "count") (docs w))) as [top|] eqn:Htop.
    + destruct (sorted_head_greatest _ _ Htop) as [Hin Hmax].
      split; [by exists top|]. exact Hmax.
    + destruct (merge_sort (desc_by "count") (docs w)); [|done].
      by apply Permutation_nil.
Qed.


End StatsFacts.

(** ** Ledger maintenance *)

Module CleanupFacts.
Import Js Async Cleanup.

#[local] Arguments pretty : simpl never.
#[local] Arguments String.append : simpl never.
#[local] Arguments select : simpl never.

Section AnyStore.
Context {S : Type} (h : handler CleanupE S) (env : Appwrite.Env).

(** The loop only deletes; it returns the count raised by the number of
    documents when no deletion fails, and throws at the first one that
    fails. *)
Lemma delete_each_run ds k s :
  let r := run h (delete_each env ds k) s in
  List.filter is_delete (trace_of r) = trace_of r
  /\ match result_of r with
     | Returned n =>
         n = (k + length ds)%nat
         /\ existsb is_failed_call (trace_of r) = false
         /\ length (trace_of r) = length ds
     | Thrown e =>
         existsb is_failed_call (trace_of r) = true
         /\ (length (trace_of r) <= length ds)%nat
     end.
Proof.
  induction ds as [|d ds IH] in k, s |- *; cbn; [done|].
  destruct (h _ _ s) as [[[]|e] s1]; cbn.
  - specialize (IH (Datatypes.S k) s1). cbn in IH.
    destruct (run h (delete_each env ds (Datatypes.S k)) s1) as [[[n|e] s2] tr]; cbn in *.
    + destruct IH as (-> & -> & Hf & Hl). repeat split; try done; lia.
    + destruct IH as (-> & Hf & Hl). repeat split; try done; lia.
  - repeat split; try done. lia.
Qed.

End AnyStore.

(** X11. [clearOldSearches] never throws, whatever the store does.  It
    returns the number of deletions it made when no store call failed, and
    0 as soon as one failed, even if deletions had already been made. *)
Theorem clearOldSearches_never_throws
    (env : Appwrite.Env) (daysOld : option Z) (S : Type) (h : handler CleanupE S) (s : S) :
  let r := run h (clearOldSearches env daysOld) s in
  exists n,
    result_of r = Returned n
    /\ (n <= length (List.filter is_delete (trace_of r)))%nat
    /\ (if existsb is_failed_call (trace_of r)
        then n = 0%nat
        else n = length (List.filter is_delete (trace_of r))).
Proof.
  unfold clearOldSearches. cbn.
  destruct (h _ _ s) as [cut s1].
  destruct (h _ _ s1) as [[[docs]|e] s2]; cbn.
  - unfold mbind, prog_bind. rewrite AsyncFacts.run_try_catch, AsyncFacts.run_bind.
    pose proof (delete_each_run h env docs 0 s2) as Hd. cbn zeta in Hd.
    destruct (run h (delete_each env docs 0) s2) as [[[n|e] s3] tr]; cbn in Hd |- *.
    + destruct (h _ _ s3) as [[] s4]. cbn.
      destruct Hd as (Hdel & -> & Hf & Hl).
      exists (length docs). split; [done|].
      rewrite List.filter_app, existsb_app, Hdel, Hf, length_app. cbn. split; lia.
    + destruct (h _ _ s3) as [[] s4]. cbn.
      destruct Hd as (Hdel & Hf & Hl).
      exists 0%nat. split; [done|]. split; [lia|].
      by rewrite existsb_app, Hf.
  - destruct (h _ _ s2) as [[] s3]. cbn. exists 0%nat. repeat split; done.
Qed.


(** *** On the reference store *)

Lemma remove_sublist i l : remove i l `sublist_of` l.
Proof.
  induction l as [|d l IH]; cbn; [done|].
  destruct (Store.has_id i d); [by apply sublist_cons|by apply sublist_skip].
Qed.

Lemma remove_all_sublist ds l : remove_all ds l `sublist_of` l.
Proof.
  induction ds as [|d ds IH] in l |- *; cbn; [done|].
  etrans; [apply IH|apply remove_sublist].
Qed.

Lemma elem_of_remove_ne i l x : x ∈ l -> Doc.id x <> i -> x ∈ remove i l.
Proof.
  induction l as [|d l IH]; [done|]. cbn.
  intros Hin Hne. unfold Store.has_id at 1.
  destruct (String.eqb_spec (Doc.id d) i) as [Heq|Hd].
  - apply elem_of_cons in Hin as [->|Hin]; [done|done].
  - apply elem_of_cons in Hin as [->|Hin]; [apply list_elem_of_here|].
    apply list_elem_of_further. by apply IH.
Qed.

Lemma length_remove i l :
  existsb (Store.has_id i) l = true -> Datatypes.S (length (remove i l)) = length l.
Proof.
  induction l as [|d l IH]; [done|]. cbn.
  destruct (Store.has_id i d); cbn; [done|]. intros H. by rewrite IH.
Qed.

Lemma existsb_has_id_elem d l : d ∈ l -> existsb (Store.has_id (Doc.id d)) l = true.
Proof.
  intros Hin. apply existsb_exists. exists d. split; [by apply list_elem_of_In|].
  unfold Store.has_id. apply String.eqb_refl.
Qed.

Lemma NoDup_ids_sublist (l1 l2 : list Doc.t) :
  l1 `sublist_of` l2 -> NoDup (map Doc.id l2) -> NoDup (map Doc.id l1).
Proof.
  intros Hsub Hnd. eapply sublist_NoDup; [exact Hnd|by apply fmap_sublist].
Qed.

Lemma NoDup_ids_inj (l : list Doc.t) x y :
  NoDup (map Doc.id l) -> x ∈ l -> y ∈ l -> Doc.id x = Doc.id y -> x = y.
Proof.
  induction l as [|d l IH]; [by intros _ ?%elem_of_nil|].
  rewrite fmap_cons, NoDup_cons. intros [Hd Hl] Hx Hy Heq.
  apply elem_of_cons in Hx as [->|Hx], Hy as [->|Hy]; try done.
  - exfalso. apply Hd. rewrite Heq. by apply list_elem_of_fmap_2.
  - exfalso. apply Hd. rewrite <- Heq. by apply list_elem_of_fmap_2.
  - by apply IH.
Qed.

Section OnStore.
Variable fault : nat -> option JsError.
Variable cutoff : nat -> Z -> string.
Variable env : Appwrite.Env.

(** The loop on the store: it takes out a prefix of the documents it was
    given, all of them unless a call fails. *)
Lemma delete_each_on_store ds k w :
  NoDup (map Doc.id (Store.docs w)) ->
  (forall d, d ∈ ds -> d ∈ Store.docs w) ->
  NoDup (map Doc.id ds) ->
  let r := run (handle fault cutoff) (delete_each env ds k) w in
  exists j,
    (j <= length ds)%nat
    /\ Store.docs (state_of r) = remove_all (take j ds) (Store.docs w)
    /\ (length (Store.docs (state_of r)) + j = length (Store.docs w))%nat
    /\ match result_of r with
       | Returned n => n = (k + length ds)%nat /\ j = length ds
       | Thrown _ => exists t, fault t <> None
       end.
Proof.
  induction ds as [|d ds IH] in k, w |- *; intros Hwf Hin Hnd r; subst r.
  - exists 0%nat. cbn. repeat split; try done; lia.
  - cbn [delete_each]. cbn.
    destruct (fault (Store.tick w)) as [e|] eqn:Hf; cbn.
    { exists 0%nat. cbn. repeat split; try lia; try done. exists (Store.tick w). congruence. }
    rewrite (existsb_has_id_elem d) by (apply Hin, list_elem_of_here). cbn.
    rewrite fmap_cons, NoDup_cons in Hnd. destruct Hnd as [Hd Hnd].
    set (w1 := {| Store.docs := remove (Doc.id d) (Store.docs w);
                  Store.tick := Datatypes.S (Store.tick w) |}).
    destruct (IH (Datatypes.S k) w1) as (j & Hj & Hdocs & Hlen & Hres).
    + cbn. eapply NoDup_ids_sublist; [apply remove_sublist|done].
    + intros x Hx. cbn. apply elem_of_remove_ne; [apply Hin; by apply list_elem_of_further|].
      intros Heq. apply Hd. rewrite <- Heq. by apply list_elem_of_fmap_2.
    + done.
    + destruct (run (handle fault cutoff) (delete_each env ds (Datatypes.S k)) w1)
        as [[o w2] tr]. cbn in *.
      exists (Datatypes.S j). split; [lia|]. split; [done|]. split.
      * pose proof (length_remove (Doc.id d) (Store.docs w)
                      (existsb_has_id_elem d _ (Hin d (list_elem_of_here _ _)))). lia.
      * destruct o as [n|e]; [|done]. destruct Hres as [-> ->]. split; lia.
Qed.

Lemma select_old cut l :
  select [Query_lessThan "lastSearched" cut; Query_limit 100] l
  = take 100 (List.filter (older_than cut) l).
Proof.
  unfold select. cbn [limit_of]. f_equal. apply List.filter_ext. intros d.
  unfold older_than. cbn. by rewrite andb_true_r.
Qed.

Lemma elem_of_remove_all ds l x :
  x ∈ l -> (forall d, d ∈ ds -> Doc.id d <> Doc.id x) -> x ∈ remove_all ds l.
Proof.
  induction ds as [|d ds IH] in l |- *; cbn; [done|]. intros Hx Hds.
  apply IH.
  - apply elem_of_remove_ne; [done|]. intros Heq. eapply Hds; [apply list_elem_of_here|done].
  - intros y Hy. apply Hds. by apply list_elem_of_further.
Qed.

Lemma remove_all_cons_ne ds d l :
  (forall x, x ∈ ds -> Doc.id x <> Doc.id d) ->
  remove_all ds (d :: l) = d :: remove_all ds l.
Proof.
  induction ds as [|x ds IH] in l |- *; cbn; [done|]. intros Hds.
  unfold Store.has_id at 1.
  destruct (String.eqb_spec (Doc.id d) (Doc.id x)) as [Heq|Hne].
  - exfalso. eapply Hds; [apply list_elem_of_here|done].
  - apply IH. intros y Hy. apply Hds. by apply list_elem_of_further.
Qed.

(** Taking out the documents a test selects leaves those it rejects. *)
Lemma remove_all_filter (p : Doc.t -> bool) l :
  NoDup (map Doc.id l) ->
  remove_all (List.filter p l) l = List.filter (fun d => negb (p d)) l.
Proof.
  induction l as [|d l IH]; [done|].
  rewrite fmap_cons, NoDup_cons. intros [Hd Hl]. cbn.
  destruct (p d) eqn:Hp; cbn.
  - unfold Store.has_id. rewrite String.eqb_refl. by apply IH.
  - rewrite remove_all_cons_ne; [by rewrite IH|].
    intros x Hx Heq. apply Hd. rewrite <- Heq. apply list_elem_of_fmap_2.
    apply list_elem_of_In in Hx. apply List.filter_In in Hx as [Hx _].
    by apply list_elem_of_In.
Qed.

Lemma NoDup_ids_filter (p : Doc.t -> bool) (l : list Doc.t) :
  NoDup (map Doc.id l) -> NoDup (map Doc.id (List.filter p l)).
Proof.
  induction l as [|d l IH]; [done|].
  rewrite fmap_cons, NoDup_cons. intros [Hd Hl]. cbn.
  destruct (p d); [|by apply IH].
  rewrite fmap_cons, NoDup_cons. split; [|by apply IH].
  intros Hin. apply Hd. apply list_elem_of_fmap in Hin as (x & -> & Hx).
  apply list_elem_of_fmap_2. apply list_elem_of_In in Hx.
  apply List.filter_In in Hx as [Hx _]. by apply list_elem_of_In.
Qed.

Lemma elem_of_take_filter (p : Doc.t -> bool) n l x :
  x ∈ take n (List.filter p l) -> x ∈ l /\ p x = true.
Proof.
  intros Hx. apply (subseteq_take n) in Hx.
  apply list_elem_of_In in Hx. apply List.filter_In in Hx as [Hx Hp].
  split; [by apply list_elem_of_In|done].
Qed.

(** What a run of [clearOldSearches] leaves in the store: a prefix of the
    old records listed is taken out, and the count returned is that of
    the records taken out, or 0 after a failure. *)
Lemma Clear_effect daysOld w :
  NoDup (map Doc.id (Store.docs w)) ->
  let cut := cutoff (Store.tick w) (default 90 daysOld) in
  let listed := take 100 (List.filter (older_than cut) (Store.docs w)) in
  exists n j,
    (Clear fault cutoff env daysOld w).1 = Returned n
    /\ (j <= length listed)%nat
    /\ Store.docs (Clear fault cutoff env daysOld w).2
       = remove_all (take j listed) (Store.docs w)
    /\ (length (Store.docs (Clear fault cutoff env daysOld w).2) + j
        = length (Store.docs w))%nat
    /\ (n = j \/ n = 0%nat)
    /\ ((forall t, fault t = None) -> n = length listed /\ j = length listed).
Proof.
  intros Hwf cut listed. unfold Clear, clearOldSearches. cbn.
  fold cut.
  destruct (fault (Datatypes.S (Store.tick w))) as [e|] eqn:Hf; cbn.
  { exists 0%nat, 0%nat. cbn. do 5 (split; [first [done|lia|by right]|]).
    intros Hno. by rewrite Hno in Hf. }
  rewrite select_old. fold listed.
  unfold mbind, prog_bind. rewrite AsyncFacts.run_try_catch, AsyncFacts.run_bind.
  set (w1 := Store.tock (Store.tock w)).
  destruct (delete_each_on_store listed 0 w1) as (j & Hj & Hdocs & Hlen & Hres).
  - done.
  - intros d Hd. by apply elem_of_take_filter in Hd as [Hd _].
  - eapply NoDup_ids_sublist; [apply sublist_take|]. by apply NoDup_ids_filter.
  - destruct (run (handle fault cutoff) (delete_each env listed 0) w1)
      as [[[n|e] w2] tr]; cbn in *.
    + destruct Hres as [-> ->]. exists (length listed), (length listed).
      do 5 (split; [first [done|lia|by left]|]). done.
    + exists 0%nat, j. do 5 (split; [first [done|lia|by right]|]).
      intros Hno. destruct Hres as [t Ht]. by specialize (Hno t).
Qed.

End OnStore.

(** X12. On the reference store, [clearOldSearches] only takes out records
    that are older than the cutoff: what is left is a sublist of what was
    there, and every record that is not older survives, whichever calls
    fail.  The number returned never exceeds the number of records taken
    out. *)
Theorem clearOldSearches_keeps_recent_records
    (fault : nat -> option JsError) (cutoff : nat -> Z -> string)
    (env : Appwrite.Env) (daysOld : option Z) (w : Store.World) :
  NoDup (map Doc.id (Store.docs w)) ->
  let cut := cutoff (Store.tick w) (default 90 daysOld) in
  let w' := (Clear fault cutoff env daysOld w).2 in
  exists n,
    (Clear fault cutoff env daysOld w).1 = Returned n
    /\ Store.docs w' `sublist_of` Store.docs w
    /\ (forall d, d ∈ Store.docs w -> older_than cut d = false -> d ∈ Store.docs w')
    /\ (length (Store.docs w') + n <= length (Store.docs w))%nat.
Proof.
  intros Hwf cut w'.
  destruct (Clear_effect fault cutoff env daysOld w Hwf)
    as (n & j & Hres & Hj & Hdocs & Hlen & Hn & _).
  fold cut in Hdocs. fold w' in Hdocs, Hlen.
  exists n. split; [done|]. rewrite Hdocs. split; [apply remove_all_sublist|]. split.
  - intros d Hd Hrecent. apply elem_of_remove_all; [done|].
    intros x Hx Heq. apply (subseteq_take j) in Hx.
    apply elem_of_take_filter in Hx as [Hx Hold].
    assert (x = d) as -> by (by eapply NoDup_ids_inj). congruence.
  - rewrite <- Hdocs. destruct Hn as [->| ->]; lia.
Qed.

(** X13. When no store call fails and at most 100 records are older than
    the cutoff, [clearOldSearches] leaves exactly the records that are not
    older, in their order, and returns the number of records it took
    out. *)
Theorem clearOldSearches_removes_all_old_records
    (fault : nat -> option JsError) (cutoff : nat -> Z -> string)
    (env : Appwrite.Env) (daysOld : option Z) (w : Store.World) :
  NoDup (map Doc.id (Store.docs w)) ->
  (forall t, fault t = None) ->
  let cut := cutoff (Store.tick w) (default 90 daysOld) in
  let old := List.filter (older_than cut) (Store.docs w) in
  (length old <= 100)%nat ->
  (Clear fault cutoff env daysOld w).1 = Returned (length old)
  /\ Store.docs (Clear fault cutoff env daysOld w).2
     = List.filter (fun d => negb (older_than cut d)) (Store.docs w).
Proof.
  intros Hwf Hno cut old Hfew.
  destruct (Clear_effect fault cutoff env daysOld w Hwf)
    as (n & j & Hres & Hj & Hdocs & Hlen & Hn & Hall).
  fold cut in Hdocs, Hall, Hj. fold old in Hdocs, Hall, Hj.
  destruct (Hall Hno) as [-> ->].
  rewrite take_ge in * by done. rewrite take_ge in Hdocs by done.
  split; [done|]. rewrite Hdocs. by apply remove_all_filter.
Qed.

(** X14. One call of [clearOldSearches] returns at most 100 and takes at
    most 100 records out of the store, however many are older than the
    cutoff and whatever fails. *)
Theorem clearOldSearches_takes_out_at_most_100
    (fault : nat -> option JsError) (cutoff : nat -> Z -> string)
    (env : Appwrite.Env) (daysOld : option Z) (w : Store.World) :
  NoDup (map Doc.id (Store.docs w)) ->
  exists n,
    (Clear fault cutoff env daysOld w).1 = Returned n
    /\ (n <= 100)%nat
    /\ (length (Store.docs w) <= length (Store.docs (Clear fault cutoff env daysOld w).2) + 100)%nat.
Proof.
  intros Hwf.
  destruct (Clear_effect fault cutoff env daysOld w Hwf)
    as (n & j & Hres & Hj & Hdocs & Hlen & Hn & _).
  rewrite length_take in Hj.
  exists n. split; [done|]. split; [destruct Hn as [->| ->]; lia|lia].
Qed.

End CleanupFacts.

(** ** More on the ledger client *)

Module TermFacts.
Import Js Async Appwrite Store Tidy.

#[local] Arguments pretty : simpl never.

Lemma normalize_idempotent s : normalize (normalize s) = normalize s.
Proof.
  unfold normalize.
  by rewrite StringFacts.trim_toLowerCase, StringFacts.toLowerCase_idempotent,
    StringFacts.trim_idempotent.
Qed.

Lemma normalize_toLowerCase s : normalize (toLowerCase s) = normalize s.
Proof.
  unfold normalize.
  by rewrite StringFacts.trim_toLowerCase, StringFacts.toLowerCase_idempotent.
Qed.

Lemma normalize_trim s : normalize (trim s) = normalize s.
Proof. unfold normalize. by rewrite StringFacts.trim_idempotent. Qed.

Lemma normalize_truthy s : truthy_str (normalize s) = true -> truthy_str s = true.
Proof. by destruct s. Qed.

(** The client reads its term through the normalization only. *)
Lemma updateSearchCount_by_normal_form env s1 s2 movie :
  truthy_str s1 = true -> truthy_str s2 = true -> normalize s1 = normalize s2 ->
  updateSearchCount env (Some s1) movie = updateSearchCount env (Some s2) movie.
Proof.
  intros H1 H2 Hn. destruct s1 as [|a1 r1], s2 as [|a2 r2]; try done.
  unfold updateSearchCount. destruct movie as [m|]; [|done].
  fold (normalize (String a1 r1)). fold (normalize (String a2 r2)). by rewrite Hn.
Qed.

(** X15. Spellings of a term that differ in case or in surrounding
    whitespace are the same call to [updateSearchCount]: the lower-cased
    term, the trimmed term and the normalized term make the client do what
    the term itself does. *)
Theorem updateSearchCount_insensitive_to_case_and_padding
    (env : Env) (s : string) (movie : option Movie.t) :
  truthy_str (normalize s) = true ->
  updateSearchCount env (Some (toLowerCase s)) movie = updateSearchCount env (Some s) movie
  /\ updateSearchCount env (Some (trim s)) movie = updateSearchCount env (Some s) movie
  /\ updateSearchCount env (Some (normalize s)) movie = updateSearchCount env (Some s) movie.
Proof.
  intros Hn. pose proof (normalize_truthy s Hn) as Hs.
  split; [|split]; apply updateSearchCount_by_normal_form; try exact Hs.
  - apply normalize_truthy. by rewrite normalize_toLowerCase.
  - apply normalize_toLowerCase.
  - apply normalize_truthy. by rewrite normalize_trim.
  - apply normalize_trim.
  - apply normalize_truthy. by rewrite normalize_idempotent.
  - apply normalize_idempotent.
Qed.

(** *** One record for a term *)

Lemma map_searchTerm_patch u i l :
  map Doc.searchTerm (patch i (apply_update u) l) = map Doc.searchTerm l.
Proof.
  induction l as [|d l IH]; [done|]. cbn. destruct (has_id i d); cbn; [done|].
  by rewrite IH.
Qed.

Lemma length_patch i (f : Doc.t -> Doc.t) l : length (patch i f l) = length l.
Proof.
  induction l as [|d l IH]; [done|]. cbn. destruct (has_id i d); cbn; [done|].
  by rewrite IH.
Qed.

Lemma record_of_None t l : record_of t l = None -> t ∉ map Doc.searchTerm l.
Proof.
  unfold record_of. intros Hnone Hin.
  apply list_elem_of_fmap in Hin as (d & -> & Hd).
  apply list_elem_of_In in Hd.
  pose proof (List.find_none _ _ Hnone d Hd) as Hf. cbn in Hf.
  by rewrite String.eqb_refl in Hf.
Qed.

Section OnStore.
Variable fault : nat -> option JsError.
Variable clock : nat -> string.
Variable fresh : nat -> string.
Variable env : Env.

Lemma Record_tidy term movie w :
  tidy w -> tidy (Record_ fault clock fresh env term movie w).2
            /\ (length (docs w) <= length (docs (Record_ fault clock fresh env term movie w).2)
                <= length (docs w) + 1)%nat.
Proof.
  intros (Hwf & Hterms & Hnorm).
  assert (Hsame : forall w', docs w' = docs w -> well_formed w' ->
            tidy w' /\ (length (docs w) <= length (docs w') <= length (docs w) + 1)%nat).
  { intros w' Hd Hw'. unfold tidy. rewrite Hd. repeat split; try done; lia. }
  assert (Hbad : Record_ fault clock fresh env term movie w = (Returned None, w) ->
            tidy (Record_ fault clock fresh env term movie w).2
            /\ (length (docs w)
                <= length (docs (Record_ fault clock fresh env term movie w).2)
                <= length (docs w) + 1)%nat).
  { intros ->. by apply Hsame. }
  destruct term as [s|]; [|apply Hbad, StoreFacts.Record_invalid; auto].
  destruct movie as [m|]; [|apply Hbad, StoreFacts.Record_invalid; auto].
  destruct (truthy_str s) eqn:Hs; [|apply Hbad, StoreFacts.Record_invalid; auto].
  destruct (truthy_str (normalize s)) eqn:Hn;
    [|apply Hbad, StoreFacts.Record_invalid; eauto 6].
  pose proof (StoreFacts.Record_valid fault clock fresh env s m w Hs Hn Hwf) as Hv.
  cbn zeta in Hv.
  destruct (record_of (normalize s) (docs w)) as [old|] eqn:Hrec.
  - case_decide as Hf.
    + rewrite Hv. cbn [snd docs]. unfold tidy, well_formed. cbn [docs]. split; [split; [|split]|].
      * rewrite StoreFacts.map_id_patch by done. exact Hwf.
      * by rewrite map_searchTerm_patch.
      * by apply StoreFacts.Forall_patch.
      * rewrite length_patch. lia.
    + destruct Hv as [k ->]. cbn [snd]. by apply Hsame.
  - case_decide as Hf.
    + destruct Hf as (_ & _ & Hfresh).
      rewrite Hv. cbn [snd docs]. unfold tidy, well_formed. cbn [docs].
      split; [split; [|split]|].
      * rewrite fmap_app. cbn. apply NoDup_app. split; [done|].
        split; [|apply NoDup_singleton].
        intros i Hi ->%list_elem_of_singleton.
        by apply (StoreFacts.existsb_has_id_false _ _ Hfresh).
      * rewrite fmap_app. cbn. apply NoDup_app. split; [done|].
        split; [|apply NoDup_singleton].
        intros t Ht ->%list_elem_of_singleton. by apply (record_of_None _ _ Hrec).
      * apply Forall_app. split; [done|]. constructor; [|done]. cbn. split.
        -- apply normalize_idempotent.
        -- intros Hempty. by rewrite Hempty in Hn.
      * rewrite length_app. cbn. lia.
    + destruct Hv as [k ->]. cbn [snd]. by apply Hsame.
Qed.

Lemma Record_all_tidy calls w :
  tidy w -> tidy (Record_all fault clock fresh env calls w)
            /\ (length (docs w) <= length (docs (Record_all fault clock fresh env calls w))
                <= length (docs w) + length calls)%nat.
Proof.
  induction calls as [|[term movie] calls IH] in w |- *; intros Hw.
  - cbn. split; [done|lia].
  - cbn [Record_all]. destruct (Record_tidy term movie w Hw) as [H1 Hl1].
    destruct (IH _ H1) as [H2 Hl2]. split; [done|]. cbn [length]. lia.
Qed.

End OnStore.

(** X16. One record for a term: from a store in which identifiers and
    terms are unique and every term is non-empty and in normal form, any
    sequence of Record calls, whatever fails, leaves such a store; it
    removes no record and adds at most one per call. *)
Theorem Record_keeps_one_record_per_term
    (fault : nat -> option JsError) (clock fresh : nat -> string) (env : Env)
    (calls : list (option string * option Movie.t)) (w : World) :
  NoDup (map Doc.id (docs w)) ->
  NoDup (map Doc.searchTerm (docs w)) ->
  Forall (fun d => normalize (Doc.searchTerm d) = Doc.searchTerm d
                   /\ Doc.searchTerm d <> EmptyString) (docs w) ->
  let w' := Record_all fault clock fresh env calls w in
  NoDup (map Doc.id (docs w'))
  /\ NoDup (map Doc.searchTerm (docs w'))
  /\ Forall (fun d => normalize (Doc.searchTerm d) = Doc.searchTerm d
                      /\ Doc.searchTerm d <> EmptyString) (docs w')
  /\ (length (docs w) <= length (docs w') <= length (docs w) + length calls)%nat.
Proof.
  intros Hid Hterm Hnorm w'.
  destruct (Record_all_tidy fault clock fresh env calls w) as [(H1 & H2 & H3) Hl].
  - split; [exact Hid|]. split; [exact Hterm|exact Hnorm].
  - split; [exact H1|]. split; [exact H2|]. split; [exact H3|exact Hl].
Qed.

(** *** The poster of a record *)

Lemma substring_all s : String.substring 0 (String.length s) s = s.
Proof. induction s as [|c s IH]; [done|]. cbn. by rewrite IH. Qed.

Lemma startsWith_prefix p r : startsWith (p +:+ r) p = true.
Proof.
  induction p as [|c p IH]; [done|]. simpl.
  destruct (Ascii.eqb_spec c c); [exact IH|done].
Qed.

Lemma substring_after p r :
  String.substring (String.length p) (String.length (p +:+ r) - String.length p) (p +:+ r)
  = r.
Proof.
  induction p as [|c p IH]; simpl.
  - rewrite Nat.sub_0_r. apply substring_all.
  - exact IH.
Qed.

Lemma replace_prefix p r : replace (p +:+ r) p "" = r.
Proof.
  pose proof (startsWith_prefix p r) as Hstart.
  pose proof (substring_after p r) as Hsub.
  destruct (p +:+ r) as [|c s] eqn:E; simpl replace; rewrite Hstart; exact Hsub.
Qed.

(** X17. The poster path survives the ledger: a record that
    [updateSearchCount] returns for a movie carries the movie's title and,
    in the trending view, the poster path the provider gave (none when the
    provider gave none or an empty one); the full address is kept beside
    it. *)
Theorem poster_path_round_trip
    (fault : nat -> option JsError) (clock fresh : nat -> string) (env : Env)
    (term : option string) (m : Movie.t) (w : World) (d : Doc.t) :
  NoDup (map Doc.id (docs w)) ->
  (Record_ fault clock fresh env term (Some m) w).1 = Returned (Some d) ->
  Trending.poster_path (to_trending d) = or_null (Movie.poster_path m)
  /\ Trending.poster_url (to_trending d) = poster_url_of m
  /\ Trending.title (to_trending d) = Movie.title m.
Proof.
  intros Hwf Hres.
  assert (Hd : Doc.poster_url d = poster_url_of m /\ Doc.title d = Movie.title m).
  { destruct term as [s|]; [|by rewrite StoreFacts.Record_invalid in Hres by auto].
    destruct (truthy_str s) eqn:Hs;
      [|by rewrite StoreFacts.Record_invalid in Hres by auto].
    destruct (truthy_str (normalize s)) eqn:Hn;
      [|by rewrite StoreFacts.Record_invalid in Hres by eauto 6].
    pose proof (StoreFacts.Record_valid fault clock fresh env s m w Hs Hn Hwf) as Hv.
    cbn zeta in Hv.
    destruct (record_of (normalize s) (docs w)) as [old|]; case_decide.
    - rewrite Hv in Hres. by injection Hres as <-.
    - destruct Hv as [k Hv]. by rewrite Hv in Hres.
    - rewrite Hv in Hres. by injection Hres as <-.
    - destruct Hv as [k Hv]. by rewrite Hv in Hres. }
  destruct Hd as [Hurl Htitle]. unfold to_trending. cbn. rewrite Hurl, Htitle.
  split; [|done]. unfold poster_url_of, or_null.
  destruct (Movie.poster_path m) as [[|c p]|]; try done.
  change (TMDB_W500 +:+ String c p) with (String "h" (String.append
    "ttps://image.tmdb.org/t/p/w500" (String c p))).
  cbv beta iota. f_equal.
  change (String "h" ("ttps://image.tmdb.org/t/p/w500" +:+ String c p))
    with (TMDB_W500 +:+ String c p).
  apply replace_prefix.
Qed.

(** *** The configuration check *)

(** X18. [validateEnvVars] returns only when the three identifiers are
    set; otherwise the error it throws starts with the fixed heading and
    names exactly the identifiers that are missing. *)
Theorem validateEnvVars_names_what_is_missing (env : Env) :
  match validateEnvVars env with
  | Returned _ =>
      truthy (PROJECT_ID env) = true /\ truthy (DATABASE_ID env) = true
      /\ truthy (COLLECTION_ID env) = true
  | Thrown e =>
      startsWith (message e) "Missing required environment variables: " = true
      /\ includes (message e) "VITE_APPWRITE_PROJECT_ID" = negb (truthy (PROJECT_ID env))
      /\ includes (message e) "VITE_APPWRITE_DATABASE_ID" = negb (truthy (DATABASE_ID env))
      /\ includes (message e) "VITE_APPWRITE_COLLECTION_ID"
         = negb (truthy (COLLECTION_ID env))
  end.
Proof.
  destruct env as [p d c]. unfold validateEnvVars, PROJECT_ID, DATABASE_ID, COLLECTION_ID.
  cbn [VITE_APPWRITE_PROJECT_ID VITE_APPWRITE_DATABASE_ID VITE_APPWRITE_COLLECTION_ID].
  destruct (truthy p), (truthy d), (truthy c); vm_compute; done.
Qed.

End TermFacts.

(** ** Overlapping runs, and the component with the ledger behind it *)

Module OverlapFacts.
Import Js Async App View.

#[local] Arguments trim : simpl never.
#[local] Arguments toLowerCase : simpl never.
#[local] Arguments pretty : simpl never.
#[local] Arguments String.append : simpl never.
#[local] Arguments search_endpoint : simpl never.
#[local] Arguments discover_endpoint : simpl never.
#[local] Arguments API_OPTIONS : simpl never.
#[local] Arguments no_results_message : simpl never.
#[local] Arguments user_message : simpl never.
#[local] Arguments getErrorType : simpl never.
#[local] Arguments truthy_str : simpl never.
#[local] Arguments List.filter : simpl never.
#[local] Arguments truthy : simpl never.
#[local] Arguments Store.select : simpl never.

(** X19. A run that was suspended at its request goes on in whatever
    state the component has when the answer arrives, and overwrites it:
    it leaves the movie list of its own answer and clears both busy flags,
    whatever a later run has shown or is still waiting for; nothing ties
    an answer to the latest query.  An answer with results leaves the
    message that is there, so a list and a message can be held together. *)
Theorem late_answer_overwrites API_KEY st st' query isRetry o l :
  truthy API_KEY = true ->
  truthy_str query || initialLoad st = true ->
  let at_fetch := advance (fetchMovies API_KEY (initialLoad st) query isRetry) st in
  let after := resume_ledger (resume_fetch (in_state st' at_fetch) o) l in
  finished after = Some (Returned tt)
  /\ movieList after.1 = displayed o
  /\ errorMessage after.1 = reported query o (errorMessage st')
  /\ isLoading after.1 = false
  /\ isRetrying after.1 = false
  /\ initialLoad after.1 = (if initialLoad st then false else initialLoad st')
  /\ searchTerm after.1 = searchTerm st'
  /\ trendingMovies after.1 = trendingMovies st'.
Proof.
  intros Hk Hq at_fetch after. subst at_fetch after.
  destruct st as [s0 l0 e0 b0 b1 t0 i0], st' as [s0' l0' e0' b0' b1' t0' i0'].
  cbn [initialLoad] in *.
  unfold fetchMovies. rewrite Hk.
  assert (negb (truthy_str query) && negb i0 = false) as ->.
  { by destruct (truthy_str query), i0. }
  cbn [negb]. unfold displayed, reported.
  destruct o as [[[] stat txt [[[[|mv rest]|]|]|e']]|e];
    destruct isRetry, (truthy_str query) eqn:Eq, i0; cbn; rewrite ?Eq; cbn; try done.
  all: try (destruct l as [[?|]|?]; cbn; repeat split; done).
Qed.

(** *** The trending list *)

(** X20. [loadTrendingMovies] never throws and shows nothing of a failure:
    it makes no request to the provider, calls [getTrendingMovies] with
    limit 5, sets no message and no busy flag, and changes the trending
    list only, to the list it was given; when the call rejects, the state
    is as it was. *)
Theorem loadTrendingMovies_is_silent (w : World) (st : State) :
  let r := run (handle w) loadTrendingMovies st in
  result_of r = Returned tt
  /\ state_of r = match trending_reply w 5 with
                  | Returned l => with_trendingMovies l st
                  | Thrown _ => st
                  end
  /\ received (trace_of r) = []
  /\ omap ledger_args (trace_of r) = []
  /\ messages_set (trace_of r) = [].
Proof.
  unfold loadTrendingMovies. cbn.
  destruct (trending_reply w 5) as [l|e]; cbn; done.
Qed.

(** X21. With [getTrendingMovies] of the ledger client behind it, on the
    reference store, [loadTrendingMovies] always sets the trending list,
    its own catch block is never entered: to at most 5 entries with a
    positive count, by descending count, when the listing succeeds, and to
    the empty list when the listing fails, which clears what was shown. *)
Theorem loadTrendingMovies_shows_top_five_or_nothing
    (fault : nat -> option JsError) (clock fresh : nat -> string)
    (env : Appwrite.Env) (store : Store.World) (w : World) (st : State) :
  let r := run (handle (trending_from fault clock fresh env store w)) loadTrendingMovies st in
  exists l,
    state_of r = with_trendingMovies l st
    /\ (length l <= 5)%nat
    /\ Forall (fun t => 0 < Trending.count t) l
    /\ (forall i j a b, (i < j)%nat -> l !! i = Some a -> l !! j = Some b ->
                        Trending.count b <= Trending.count a)
    /\ (fault (Store.tick store) <> None -> l = []).
Proof.
  unfold loadTrendingMovies. cbn.
  destruct (fault (Store.tick store)) as [e|] eqn:Hf.
  - rewrite (StoreFacts.TopTrending_failure fault clock fresh env (Some 5%nat) store e Hf).
    cbn. exists []. split; [done|]. split; [cbn; lia|]. split; [done|]. split; [|done].
    intros i j a b _ Ha. by rewrite lookup_nil in Ha.
  - rewrite (StoreFacts.TopTrending_listing fault clock fresh env (Some 5%nat) store Hf).
    cbn. eexists. split; [done|]. split; [|split; [|split]].
    + rewrite length_map, StoreFacts.select_trending_length. lia.
    + apply Forall_fmap. eapply Forall_impl; [apply StoreFacts.select_trending_positive|].
      intros d Hd. exact Hd.
    + intros i j a b Hij Ha Hb.
      rewrite list_lookup_fmap in Ha, Hb.
      destruct (_ !! i) as [x|] eqn:Hx; [|done].
      destruct (_ !! j) as [y|] eqn:Hy; [|done].
      cbn in Ha, Hb. injection Ha as <-. injection Hb as <-. cbn.
      exact (StoreFacts.StronglySorted_lookup _ _ i j x y
               (StoreFacts.select_trending_sorted _ _) Hij Hx Hy).
    + done.
Qed.

(** *** What the pipeline sends to the ledger *)

Lemma toLowerCase_truthy s : truthy_str (toLowerCase s) = truthy_str s.
Proof. by destruct s. Qed.

(** X22. The ledger never refuses a call of the pipeline: the component
    gives the pipeline the trimmed term, and a call the pipeline makes
    carries that term, non-empty also after the ledger's own
    normalization, and the first result; [updateSearchCount] then goes to
    the store with the normalized term. *)
Theorem ledger_accepts_what_the_pipeline_sends
    API_KEY w st (term : string) isRetry (q : string) (m : option Movie.t) :
  (q, m) ∈ omap ledger_args (trace_of (pipeline_for_term API_KEY w st term isRetry)) ->
  q = trim term
  /\ truthy_str (Store.normalize q) = true
  /\ Store.normalize q = toLowerCase (trim term)
  /\ exists movie,
       m = Some movie
       /\ forall (env : Appwrite.Env) (S : Type) (h : handler Appwrite.LedgerE S) (s : S),
            exists answer rest,
              trace_of (run h (Appwrite.updateSearchCount env (Some q) m) s)
              = Call (Appwrite.listDocuments (Appwrite.DATABASE_ID env)
                        (Appwrite.COLLECTION_ID env)
                        [Appwrite.Query_equal "searchTerm" (toLowerCase (trim term));
                         Appwrite.Query_limit 1]) answer :: rest.
Proof.
  unfold pipeline_for_term. intros Hin.
  assert (Hcall : truthy_str (trim term) = true /\ q = trim term /\ exists movie, m = Some movie).
  { destruct (truthy_str (trim term) || initialLoad st) eqn:Hq.
    - destruct (truthy API_KEY) eqn:Hk.
      + destruct (PipelineFacts.pipeline_state API_KEY w st (trim term) isRetry Hq Hk)
          as (_ & _ & _ & _ & _ & _ & _ & Hcase).
        assert (Hargs : forall tr, omap ledger_args tr
                                   = omap ledger_args (List.filter is_ledger_call tr)).
        { induction tr as [|[X [ev x]] tr IH]; [done|].
          destruct ev; cbn; rewrite ?IH; done. }
        rewrite Hargs in Hin.
        destruct (failure_of _) as [e|].
        { destruct Hcase as (_ & _ & Hl). rewrite Hl in Hin. by apply elem_of_nil in Hin. }
        destruct (results_of _) as [|mv rest].
        { destruct Hcase as (_ & _ & Hl). rewrite Hl in Hin. by apply elem_of_nil in Hin. }
        destruct Hcase as (_ & _ & Hl). rewrite Hl in Hin.
        destruct (truthy_str (trim term)) eqn:Ht; [|by apply elem_of_nil in Hin].
        cbn in Hin. apply list_elem_of_singleton in Hin. injection Hin as -> ->. eauto.
      + rewrite AppFacts.pipeline_unconfigured in Hin by done.
        cbn in Hin. by apply elem_of_nil in Hin.
    - apply orb_false_elim in Hq as [Hq Hi].
      rewrite AppFacts.pipeline_skips in Hin by done. cbn in Hin. by apply elem_of_nil in Hin. }
  destruct Hcall as (Ht & -> & movie & ->).
  assert (Hnorm : Store.normalize (trim term) = toLowerCase (trim term)).
  { unfold Store.normalize. by rewrite StringFacts.trim_idempotent. }
  split; [done|]. split; [by rewrite Hnorm, toLowerCase_truthy|]. split; [done|].
  exists movie. split; [done|]. intros env S h s.
  unfold Appwrite.updateSearchCount.
  destruct (trim term) as [|a r] eqn:Etrim; [done|].
  fold (Store.normalize (String a r)). rewrite Hnorm.
  rewrite toLowerCase_truthy, Ht. cbn [negb].
  cbn. destruct (h _ _ s) as [x s1].
  destruct (run h _ s1) as [[o s2] tr]. eauto.
Qed.

End OverlapFacts.

(** ** The debouncing hooks *)

Module DebounceFacts.
Import Js Debounce.

(** What holds of a hook at any time: a pending timeout is the one of the
    current value and has at most the current delay left; without one the
    debounced value is the current value. *)
Lemma step_invariant h e :
  (match handler h with
   | Some t => captured t = value h /\ (left t <= delay h)%nat
   | None => debouncedValue h = value h
   end) ->
  match handler (step h e) with
  | Some t => captured t = value (step h e) /\ (left t <= delay (step h e))%nat
  | None => debouncedValue (step h e) = value (step h e)
  end.
Proof.
  destruct h as [v d dv [[c l]|]], e as [v' d'|ms]; cbn; unfold render, elapse; cbn.
  - destruct (_ && _); cbn; [done|]. intros _. split; [done|lia].
  - intros [-> Hl]. destruct (l <=? ms)%nat eqn:E; cbn; [done|]. split; [done|lia].
  - destruct (_ && _); cbn; [done|]. intros _. split; [done|lia].
  - done.
Qed.

Lemma step_debounced h e :
  debouncedValue (step h e) = debouncedValue h
  \/ exists t, handler h = Some t /\ debouncedValue (step h e) = captured t.
Proof.
  destruct h as [v d dv [[c l]|]], e as [v' d'|ms]; cbn; unfold render, elapse; cbn;
    try destruct (_ && _); try destruct (l <=? ms)%nat; cbn; eauto.
Qed.

Lemma play_snoc events e h : play (events ++ [e]) h = step (play events h) e.
Proof. unfold play. by rewrite fold_left_app. Qed.

Lemma rendered_snoc events e :
  rendered (events ++ [e])
  = rendered events ++ match e with Render v _ => [v] | Elapse _ => [] end.
Proof. unfold rendered. rewrite omap_app. by destruct e. Qed.

Lemma play_value v0 d0 events :
  value (play events (mount v0 d0)) ∈ v0 :: rendered events.
Proof.
  induction events as [|e events IH] using rev_ind; [apply list_elem_of_here|].
  rewrite play_snoc, rendered_snoc.
  destruct e as [v d|ms]; cbn.
  - unfold render. destruct (_ && _).
    + rewrite app_comm_cons. apply elem_of_app. by left.
    + cbn. rewrite app_comm_cons. apply elem_of_app. right. apply list_elem_of_here.
  - rewrite app_nil_r. unfold elapse.
    destruct (handler _) as [t|]; [|done]. by destruct (left t <=? ms)%nat.
Qed.

(** X23. At any time in the life of [useDebounce]: a pending timeout is
    the one of the current value, with at most the current delay left;
    when none is pending the debounced value is the current value; the
    debounced value is the first value or one the hook was rendered with;
    and once the current delay has passed without a change the debounced
    value is the current value. *)
Theorem useDebounce_follows_the_value (v0 : string) (d0 : nat) (events : list Event) (ms : nat) :
  let h := play events (mount v0 d0) in
  match handler h with
  | Some t => captured t = value h /\ (left t <= delay h)%nat
  | None => debouncedValue h = value h
  end
  /\ debouncedValue h ∈ v0 :: rendered events
  /\ ((delay h <= ms)%nat ->
      debouncedValue (elapse ms h) = value h /\ handler (elapse ms h) = None).
Proof.
  intros h. subst h.
  assert (Hinv : match handler (play events (mount v0 d0)) with
                 | Some t => captured t = value (play events (mount v0 d0))
                             /\ (left t <= delay (play events (mount v0 d0)))%nat
                 | None => debouncedValue (play events (mount v0 d0))
                           = value (play events (mount v0 d0))
                 end).
  { induction events as [|e events IH] using rev_ind; [by cbn|].
    rewrite play_snoc. by apply step_invariant. }
  split; [exact Hinv|]. split.
  - induction events as [|e events IH] using rev_ind; [apply list_elem_of_here|].
    rewrite play_snoc, rendered_snoc, app_comm_cons. apply elem_of_app.
    assert (Hprev : match handler (play events (mount v0 d0)) with
                    | Some t => captured t = value (play events (mount v0 d0))
                                /\ (left t <= delay (play events (mount v0 d0)))%nat
                    | None => debouncedValue (play events (mount v0 d0))
                              = value (play events (mount v0 d0))
                    end).
    { clear. induction events as [|e events IH] using rev_ind; [by cbn|].
      rewrite play_snoc. by apply step_invariant. }
    destruct (step_debounced (play events (mount v0 d0)) e) as [->|(t & Ht & ->)].
    + left. apply IH. clear IH Hinv. exact Hprev.
    + left. rewrite Ht in Hprev. destruct Hprev as [-> _]. apply play_value.
  - intros Hms. unfold elapse.
    destruct (handler (play events (mount v0 d0))) as [[c l]|] eqn:E; cbn in *.
    + destruct Hinv as [-> Hl]. assert ((l <=? ms)%nat = true) as -> by (apply Nat.leb_le; lia).
      by cbn.
    + by rewrite E.
Qed.

(** During typing nothing comes out, and the pending timeout is the one
    of the last key. *)
Lemma typing_state d keys h k :
  delay h = d -> changing (value h) keys = true ->
  Forall (fun k => (k.2 < d)%nat) keys ->
  last keys = Some k ->
  play (typing d keys) h
  = {| value := k.1; delay := d; debouncedValue := debouncedValue h;
       handler := Some (mkTimeout k.1 (d - k.2)) |}.
Proof.
  induction keys as [|[v gap] keys IH] in h |- *; [done|].
  intros Hd Hch Hgaps Hlast. cbn in Hch. apply andb_prop in Hch as [Hne Hch].
  apply Forall_cons in Hgaps as [Hgap Hgaps]. cbn in Hgap.
  assert (Hstep : play (typing d ((v, gap) :: keys)) h
                  = play (typing d keys)
                      {| value := v; delay := d; debouncedValue := debouncedValue h;
                         handler := Some (mkTimeout v (d - gap)) |}).
  { cbn [typing flat_map app play fold_left step fst snd].
    unfold render. apply negb_true_iff in Hne. rewrite Hne. cbn [andb].
    unfold elapse at 1. cbn [handler left captured value delay debouncedValue].
    by assert ((d <=? gap)%nat = false) as -> by (apply Nat.leb_gt; lia). }
  rewrite Hstep. destruct keys as [|k' keys].
  - cbn in Hlast. injection Hlast as <-. done.
  - rewrite last_cons_cons in Hlast. by rewrite IH.
Qed.

Lemma changing_take prev keys n : changing prev keys = true -> changing prev (take n keys) = true.
Proof.
  induction keys as [|k keys IH] in prev, n |- *; [by destruct n|].
  destruct n as [|n]; [done|]. cbn. intros [-> H]%andb_prop. cbn. by apply IH.
Qed.

(** X24. Debouncing: while values that keep changing are rendered less
    than the delay apart, the debounced value does not move; once the
    delay has passed since the last of them, it is that value. *)
Theorem useDebounce_waits_for_a_pause
    (h : Hook) (keys : list (string * nat)) (k : string * nat) (ms : nat) :
  changing (value h) keys = true ->
  Forall (fun k => (k.2 < delay h)%nat) keys ->
  last keys = Some k ->
  (delay h <= k.2 + ms)%nat ->
  (forall n, debouncedValue (play (typing (delay h) (take n keys)) h) = debouncedValue h)
  /\ debouncedValue (elapse ms (play (typing (delay h) keys) h)) = k.1
  /\ handler (elapse ms (play (typing (delay h) keys) h)) = None.
Proof.
  intros Hch Hgaps Hlast Hms. split.
  - intros n. destruct (last (take n keys)) as [k'|] eqn:Hl.
    + rewrite (typing_state (delay h) (take n keys) h k' eq_refl); try done.
      * by apply changing_take.
      * by apply Forall_take.
    + apply last_None in Hl. by rewrite Hl.
  - rewrite (typing_state (delay h) keys h k eq_refl Hch Hgaps Hlast).
    unfold elapse. cbn.
    assert ((delay h - k.2 <=? ms)%nat = true) as -> by (apply Nat.leb_le; lia).
    done.
Qed.

(** *** With the pending flag *)

Lemma step_status_hook h e : hook (step_status h e) = step (hook h) e.
Proof.
  destruct h as [[v d dv [[c l]|]] p], e as [v' d'|ms]; cbn;
    unfold render_status, elapse_status, render, elapse; cbn;
    try destruct (_ && _); try destruct (l <=? ms)%nat; done.
Qed.

Lemma step_status_flag h e :
  (isPending h = true <-> handler (hook h) <> None) ->
  (isPending (step_status h e) = true <-> handler (hook (step_status h e)) <> None).
Proof.
  destruct h as [[v d dv [[c l]|]] p], e as [v' d'|ms]; cbn;
    unfold render_status, elapse_status, render, elapse; cbn;
    try destruct (_ && _); try destruct (l <=? ms)%nat; cbn; intuition congruence.
Qed.

(** X25. [useDebounceWithStatus] debounces as [useDebounce] does, and its
    flag says whether a timeout is pending: it is set from the first
    effect on, although nothing has changed yet, and whenever it is clear
    the debounced value is the current value. *)
Theorem useDebounceWithStatus_flag_tells_pending
    (v0 : string) (d0 : nat) (events : list Event) :
  let h := play_status events (mount_status v0 d0) in
  hook h = play events (mount v0 d0)
  /\ (isPending h = true <-> handler (hook h) <> None)
  /\ (isPending h = false -> debouncedValue (hook h) = value (hook h))
  /\ (events = [] -> isPending h = true /\ debouncedValue (hook h) = value (hook h)).
Proof.
  intros h. subst h.
  assert (Hboth : hook (play_status events (mount_status v0 d0)) = play events (mount v0 d0)
                  /\ (isPending (play_status events (mount_status v0 d0)) = true
                      <-> handler (hook (play_status events (mount_status v0 d0))) <> None)).
  { induction events as [|e events [IH1 IH2]] using rev_ind; [by cbn|].
    unfold play_status. rewrite fold_left_app. cbn [fold_left].
    fold (play_status events (mount_status v0 d0)).
    rewrite step_status_hook, IH1, play_snoc. split; [done|].
    rewrite <- IH1, <- step_status_hook. by apply step_status_flag. }
  destruct Hboth as [Hhook Hflag]. split; [exact Hhook|]. split; [exact Hflag|]. split.
  - intros Hclear. rewrite Hhook.
    assert (Hnone : handler (play events (mount v0 d0)) = None).
    { rewrite <- Hhook. destruct (handler _) eqn:E; [|done].
      assert (isPending (play_status events (mount_status v0 d0)) = true) as Ht
        by (apply Hflag; congruence).
      congruence. }
    clear Hflag Hclear Hhook.
    assert (Hinv : match handler (play events (mount v0 d0)) with
                   | Some t => captured t = value (play events (mount v0 d0))
                               /\ (left t <= delay (play events (mount v0 d0)))%nat
                   | None => debouncedValue (play events (mount v0 d0))
                             = value (play events (mount v0 d0))
                   end).
    { clear Hnone. induction events as [|e events IH] using rev_ind; [by cbn|].
      rewrite play_snoc. by apply step_invariant. }
    by rewrite Hnone in Hinv.
  - by intros ->.
Qed.

End DebounceFacts.

(** ** Utility functions *)

Module HelperFacts.
Import Js Async Helpers.

(** *** Retrying *)

Section Retry.
Context {R S : Type} (h : handler (RetryE R) S).

(** X26. [retryWithBackoff] calls [fn] until a call succeeds, at most
    [retries] + 1 times, and settles as the last call did: it throws only
    when every call failed, with the error of the last one.  Between two
    calls it sleeps, [delay] the first time and twice as long each time
    after. *)
Theorem retryWithBackoff_schedule (retries : nat) (delay : Z) (s : S) :
  let r := run h (retryWithBackoff retries delay) s in
  exists (failures : list JsError) (last : outcome R),
    attempts (trace_of r) = map Thrown failures ++ [last]
    /\ result_of r = last
    /\ sleeps (trace_of r)
       = map (fun i => delay * 2 ^ Z.of_nat i) (seq 0 (length failures))
    /\ (length failures <= retries)%nat
    /\ (is_returned last = false -> length failures = retries).
Proof.
  induction retries as [|n IH] in delay, s |- *; cbn.
  - destruct (h _ fn s) as [[x|e] s1]; cbn.
    + exists [], (Returned x). cbn. by repeat split.
    + exists [], (Thrown e). cbn. by repeat split.
  - destruct (h _ fn s) as [[x|e] s1]; cbn.
    + exists [], (Returned x). cbn. do 3 (split; [done|]). split; [lia|done].
    + destruct (h _ (sleep delay) s1) as [[] s2]. cbn.
      specialize (IH (delay * 2) s2). cbn zeta in IH.
      destruct (run h (retryWithBackoff n (delay * 2)) s2) as [[o s3] tr].
      destruct IH as (failures & last & Hatt & Hres & Hsl & Hlen & Hall).
      cbn in *. exists (e :: failures), last. cbn.
      split; [by rewrite Hatt|]. split; [done|]. split; [|split; [lia|]].
      * rewrite Hsl. f_equal; [lia|]. rewrite <- seq_shift, map_map.
        apply map_ext. intros i. rewrite Nat2Z.inj_succ, Z.pow_succ_r by lia. lia.
      * intros Hl. by rewrite Hall.
Qed.

End Retry.

(** *** Search terms *)

Lemma length_substring_le n s : (String.length (String.substring 0 n s) <= n)%nat.
Proof.
  induction n as [|n IH] in s |- *; destruct s as [|c s]; cbn; try lia.
  specialize (IH s). lia.
Qed.

Lemma every_substring p n s : every p s = true -> every p (String.substring 0 n s) = true.
Proof.
  induction n as [|n IH] in s |- *; destruct s as [|c s]; cbn; try done.
  intros [-> H]%andb_prop. cbn. by apply IH.
Qed.

Lemma startsWith_substring n s p :
  startsWith (String.substring 0 n s) p = true -> startsWith s p = true.
Proof.
  induction p as [|c p IH] in n, s |- *; [done|].
  destruct n as [|n], s as [|a s]; cbn; try done.
  destruct (Ascii.eqb c a); [apply IH|done].
Qed.

Lemma single_spaced_substring n s :
  single_spaced s = true -> single_spaced (String.substring 0 n s) = true.
Proof.
  induction n as [|n IH] in s |- *; destruct s as [|a s]; try done.
  cbn [String.substring single_spaced]. intros [Ha Hs]%andb_prop.
  rewrite (IH _ Hs), andb_true_r.
  destruct (Ascii.eqb a " "); [|done].
  destruct (startsWith (String.substring 0 n s) " ") eqn:E; [|done].
  by rewrite (startsWith_substring _ _ _ E) in Ha.
Qed.

Lemma lower_unit_not_capital c :
  is_basic (lower_unit c) = true ->
  is_plain (lower_unit c) || is_whitespace (lower_unit c) = true.
Proof. destruct c as [[] [] [] [] [] [] [] []]; vm_compute; done. Qed.

Lemma every_keep_lower s :
  every (fun c => is_plain c || is_whitespace c) (keep is_basic (toLowerCase s)) = true.
Proof.
  induction s as [|c s IH]; [done|]. cbn.
  destruct (is_basic (lower_unit c)) eqn:E; [|done].
  cbn. by rewrite (lower_unit_not_capital c E), IH.
Qed.

Lemma not_whitespace_not_space c : is_whitespace c = false -> Ascii.eqb c " " = false.
Proof. destruct c as [[] [] [] [] [] [] [] []]; vm_compute; done. Qed.

Lemma collapse_shape b s :
  every (fun c => is_plain c || is_whitespace c) s = true ->
  every is_plain (collapse b s) = true
  /\ single_spaced (collapse b s) = true
  /\ (b = true -> startsWith (collapse b s) " " = false).
Proof.
  induction s as [|c s IH] in b |- *; [by destruct b|].
  cbn [every collapse]. intros [Hc Hs]%andb_prop.
  destruct (is_whitespace c) eqn:Hw.
  - destruct (IH true Hs) as (H1 & H2 & H3). destruct b; [done|].
    cbn [every single_spaced]. rewrite H1, H2, (H3 eq_refl). done.
  - rewrite orb_false_r in Hc. pose proof (not_whitespace_not_space c Hw) as Hsp.
    pose proof Hc as Hp.
    destruct (IH false Hs) as (H1 & H2 & _).
    cbn [every single_spaced]. rewrite Hp, H1, H2, Hsp.
    split; [done|]. split; [done|]. intros _. cbn [startsWith].
    destruct (Ascii.eqb_spec " " c) as [<-|Hne]; [done|].
    by destruct (collapse false s).
Qed.

(** X27. A sanitized search term has at most 100 code units, each a small
    letter, a digit, a space or one of [- _ .], and no two spaces in a
    row; so the upper bound [isValidSearchTerm] checks always holds, and a
    term is valid exactly when its sanitized form is not empty. *)
Theorem sanitizeSearchTerm_shape (term : option string) :
  (String.length (sanitizeSearchTerm term) <= 100)%nat
  /\ every is_plain (sanitizeSearchTerm term) = true
  /\ single_spaced (sanitizeSearchTerm term) = true
  /\ isValidSearchTerm term = truthy_str (sanitizeSearchTerm term).
Proof.
  destruct term as [[|a r]|]; try (cbn; repeat split; first [done|lia]).
  unfold isValidSearchTerm, sanitizeSearchTerm.
  destruct (collapse_shape false (keep is_basic (toLowerCase (trim (String a r))))
              (every_keep_lower _)) as (H1 & H2 & _).
  pose proof (length_substring_le 100
                (collapse false (keep is_basic (toLowerCase (trim (String a r)))))) as Hlen.
  split; [exact Hlen|]. split; [by apply every_substring|].
  split; [by apply single_spaced_substring|].
  apply Nat.leb_le in Hlen. rewrite Hlen, andb_true_r.
  by destruct (String.substring 0 100 _).
Qed.

(** *** Truncation *)

Lemma length_trimStart_le s : (String.length (trimStart s) <= String.length s)%nat.
Proof.
  induction s as [|c s IH]; [done|]. cbn. destruct (is_whitespace c); cbn; lia.
Qed.

Lemma length_trimEnd_le s : (String.length (trimEnd s) <= String.length s)%nat.
Proof.
  induction s as [|c s IH]; [done|]. cbn.
  destruct (trimEnd s) as [|a r]; [destruct (is_whitespace c)|]; cbn in *; lia.
Qed.

Lemma length_trim_le s : (String.length (trim s) <= String.length s)%nat.
Proof.
  unfold trim. etrans; [apply length_trimEnd_le|apply length_trimStart_le].
Qed.

Lemma length_append a b : String.length (a +:+ b) = (String.length a + String.length b)%nat.
Proof. induction a as [|c a IH]; simpl; [done|]. by rewrite IH. Qed.

(** The first [n] code units of a text of at least [n] code units, and
    what follows them. *)
Lemma substring_whole s : String.substring 0 (String.length s) s = s.
Proof. induction s as [|c s IH]; [done|]. simpl. by rewrite IH. Qed.

Lemma substring_prefix n s :
  (n <= String.length s)%nat ->
  s = String.substring 0 n s +:+ String.substring n (String.length s - n) s
  /\ String.length (String.substring 0 n s) = n.
Proof.
  induction n as [|n IH] in s |- *; intros Hn.
  - rewrite Nat.sub_0_r, substring_whole. by destruct s.
  - destruct s as [|c s]; [cbn in Hn; lia|]. cbn [String.length] in *.
    destruct (IH s) as [Hs Hl]; [lia|].
    change (String.substring 0 (S n) (String c s))
      with (String c (String.substring 0 n s)).
    change (String.substring (S n) (S (String.length s) - S n) (String c s))
      with (String.substring n (String.length s - n) s).
    change (String c (String.substring 0 n s)
            +:+ String.substring n (String.length s - n) s)
      with (String c (String.substring 0 n s
                      +:+ String.substring n (String.length s - n) s)).
    rewrite <- Hs. cbn [String.length]. by rewrite Hl.
Qed.

(** X28. [truncateText] returns a text that is empty or fits unchanged.
    Otherwise it cuts the text after its first [maxLength] code units (none
    for a negative [maxLength]), trims that prefix and appends the suffix:
    the result has at most [max 0 maxLength] code units more than the
    suffix, and exactly that many when trimming removes nothing. *)
Theorem truncateText_bounds (text : string) (maxLength : Z) (suffix : option string) :
  let result := truncateText (Some text) maxLength suffix in
  (text = EmptyString \/ Z.of_nat (String.length text) <= maxLength -> result = text)
  /\ (text <> EmptyString -> maxLength < Z.of_nat (String.length text) ->
      exists prefix rest,
        text = prefix +:+ rest
        /\ rest <> EmptyString
        /\ Z.of_nat (String.length prefix) = Z.max 0 maxLength
        /\ result = trim prefix +:+ default "..." suffix
        /\ Z.of_nat (String.length result)
           <= Z.max 0 maxLength + Z.of_nat (String.length (default "..." suffix))
        /\ (trim prefix = prefix ->
            Z.of_nat (String.length result)
            = Z.max 0 maxLength + Z.of_nat (String.length (default "..." suffix)))).
Proof.
  intros result. subst result. unfold truncateText. split.
  - intros [->|Hfit]; [done|]. destruct text as [|a r]; [done|].
    by assert ((Z.of_nat (String.length (String a r)) <=? maxLength) = true) as ->
      by (apply Z.leb_le; lia).
  - intros Hne Hlong. destruct text as [|a r]; [done|].
    assert ((Z.of_nat (String.length (String a r)) <=? maxLength) = false) as ->
      by (apply Z.leb_gt; lia).
    destruct (substring_prefix (Z.to_nat maxLength) (String a r)) as [Hcut Hlen];
      [lia|].
    pose proof (length_trim_le (String.substring 0 (Z.to_nat maxLength) (String a r)))
      as Htrim.
    exists (String.substring 0 (Z.to_nat maxLength) (String a r)),
           (String.substring (Z.to_nat maxLength)
              (String.length (String a r) - Z.to_nat maxLength) (String a r)).
    split; [exact Hcut|]. split.
    { intros Hrest. rewrite Hrest in Hcut. apply (f_equal String.length) in Hcut.
      rewrite length_append, Hlen in Hcut. cbn [String.length] in Hcut, Hlong. lia. }
    split; [lia|]. split; [done|].
    rewrite length_append. split; [lia|]. intros ->. lia.
Qed.

End HelperFacts.

(** ** Scenarios *)

Module Scenarios.
Import Js Async Sample Scenario.

(** *** The pipeline *)

Lemma refused_credential_witness :
  Returned unauthorized
  ∈ App.received (trace_of (App.pipeline (Some "key") (outside unauthorized)
                              App.initial "batman" false))
  /\ View.failure_of (Returned unauthorized) = Some (Error "HTTP 401: Unauthorized")
  /\ App.movieList (state_of (App.pipeline (Some "key") (outside unauthorized)
                                App.initial "batman" false)) = []
  /\ App.errorMessage (state_of (App.pipeline (Some "key") (outside unauthorized)
                                   App.initial "batman" false))
     = App.user_message (Error "HTTP 401: Unauthorized").
Proof.
  assert (H : Returned unauthorized
              ∈ App.received (trace_of (App.pipeline (Some "key") (outside unauthorized)
                                          App.initial "batman" false))).
  { vm_compute. apply list_elem_of_here. }
  assert (Hf : View.failure_of (Returned unauthorized)
               = Some (Error "HTTP 401: Unauthorized")) by reflexivity.
  split; [exact H|]. split; [exact Hf|].
  destruct (PipelineFacts.failed_request_is_reported (Some "key") (outside unauthorized)
              App.initial "batman" false (Returned unauthorized)
              (Error "HTTP 401: Unauthorized") H Hf) as (_ & Hl & Hm & _).
  split; [exact Hl|exact Hm].
Defined.

Lemma status_401_witness :
  Returned unauthorized
  ∈ App.received (trace_of (App.pipeline (Some "key") (outside unauthorized)
                              App.initial "" false))
  /\ App.ok unauthorized = false
  /\ App.status unauthorized = 401
  /\ App.errorMessage (state_of (App.pipeline (Some "key") (outside unauthorized)
                                   App.initial "" false))
     = "Invalid API credentials. Please check your TMDB API key.".
Proof.
  assert (H : Returned unauthorized
              ∈ App.received (trace_of (App.pipeline (Some "key") (outside unauthorized)
                                          App.initial "" false))).
  { vm_compute. apply list_elem_of_here. }
  split; [exact H|]. split; [reflexivity|]. split; [reflexivity|].
  exact (proj1 (PipelineFacts.http_401_and_429_messages (Some "key") (outside unauthorized)
                  App.initial "" false unauthorized H eq_refl) eq_refl).
Defined.

Lemma loaded_reachable : App.reachable (Some "key") loaded.
Proof. apply App.reach_pipeline, App.reach_initial. Defined.

Lemma after_first_load_witness :
  App.reachable (Some "key") loaded
  /\ App.initialLoad loaded = false
  /\ App.isLoading loaded = false
  /\ View.content loaded = View.MovieGrid [batman] false.
Proof.
  split; [exact loaded_reachable|]. split; [reflexivity|].
  destruct (PipelineFacts.content_is_grid_or_error_after_first_load
              (Some "key") loaded loaded_reachable) as (Hl & _ & _ & _).
  split; [exact Hl|]. vm_compute. reflexivity.
Defined.

Lemma network_word_witness :
  Returned (response (Some []))
  ∈ App.received (trace_of (App.pipeline (Some "key") (outside (response (Some [])))
                              App.initial "The Social Network 9" false))
  /\ App.ok (response (Some [])) = true
  /\ (includes (toLowerCase "The Social Network 9") "network" = true
      \/ includes (toLowerCase "The Social Network 9") "fetch" = true)
  /\ View.content (state_of (App.pipeline (Some "key") (outside (response (Some [])))
                               App.initial "The Social Network 9" false))
     = View.ErrorMessage (App.no_results_message "The Social Network 9") "network" false.
Proof.
  assert (H : Returned (response (Some []))
              ∈ App.received (trace_of (App.pipeline (Some "key")
                                          (outside (response (Some [])))
                                          App.initial "The Social Network 9" false))).
  { vm_compute. apply list_elem_of_here. }
  assert (Hw : includes (toLowerCase "The Social Network 9") "network" = true
               \/ includes (toLowerCase "The Social Network 9") "fetch" = true)
    by (left; reflexivity).
  split; [exact H|]. split; [reflexivity|]. split; [exact Hw|].
  exact (proj1 (PipelineFacts.empty_search_for_network_words_is_connection_problem
                  (Some "key") (outside (response (Some []))) App.initial
                  "The Social Network 9" false (response (Some [])) (App.mkData (Some []))
                  H eq_refl eq_refl (or_intror eq_refl) Hw)).
Defined.

Lemma retry_flag_witness :
  truthy (Some "key") = true
  /\ truthy_str "batman" || App.initialLoad loaded = true
  /\ App.isLoading loaded = false /\ App.isRetrying loaded = false
  /\ App.isRetrying
       (App.advance (App.fetchMovies (Some "key") (App.initialLoad loaded) "batman" true)
          loaded).1 = true
  /\ App.isLoading
       (App.advance (App.fetchMovies (Some "key") (App.initialLoad loaded) "batman" true)
          loaded).1 = false.
Proof.
  split; [reflexivity|]. split; [reflexivity|]. split; [reflexivity|]. split; [reflexivity|].
  destruct (PipelineFacts.one_busy_flag_while_awaiting (Some "key") loaded "batman" true
              eq_refl eq_refl eq_refl eq_refl) as (_ & Hl & Hy & _).
  split; [exact Hy|exact Hl].
Defined.

Lemma stale_answer_witness :
  truthy (Some "key") = true
  /\ truthy_str "bat" || App.initialLoad loaded = true
  /\ App.movieList
       (App.resume_ledger
          (App.resume_fetch
             (View.in_state
                (state_of (App.pipeline (Some "key") (outside (response (Some [batman])))
                             loaded "batman" false))
                (App.advance (App.fetchMovies (Some "key") (App.initialLoad loaded) "bat" false)
                   loaded))
             (Returned (response (Some [blank_poster]))))
          (Returned None)).1
     = [blank_poster].
Proof.
  split; [reflexivity|]. split; [reflexivity|].
  destruct (OverlapFacts.late_answer_overwrites (Some "key") loaded
              (state_of (App.pipeline (Some "key") (outside (response (Some [batman])))
                           loaded "batman" false))
              "bat" false (Returned (response (Some [blank_poster]))) (Returned None)
              eq_refl eq_refl) as (_ & Hl & _).
  exact Hl.
Defined.

Lemma ledger_argument_witness :
  ("Batman"%string, Some batman)
  ∈ omap View.ledger_args
      (trace_of (App.pipeline_for_term (Some "key") (outside (response (Some [batman])))
                   loaded "  Batman " false))
  /\ Store.normalize "Batman" = "batman"%string
  /\ truthy_str (Store.normalize "Batman") = true.
Proof.
  assert (H : ("Batman"%string, Some batman)
              ∈ omap View.ledger_args
                  (trace_of (App.pipeline_for_term (Some "key")
                               (outside (response (Some [batman])))
                               loaded "  Batman " false))).
  { vm_compute. apply list_elem_of_here. }
  split; [exact H|].
  destruct (OverlapFacts.ledger_accepts_what_the_pipeline_sends (Some "key")
              (outside (response (Some [batman]))) loaded "  Batman " false
              "Batman" (Some batman) H) as (_ & Ht & Hn & _).
  split; [exact Hn|exact Ht].
Defined.

(** *** The ledger *)

Lemma stats_witness :
  no_fault (Store.tick crowded_store) = None
  /\ exists stats,
       (Stats.SearchStats_of no_fault clock fresh env crowded_store).1 = Returned stats
       /\ Stats.uniqueTerms stats = 100%nat.
Proof.
  split; [reflexivity|].
  destruct (StatsFacts.getSearchStats_on_reference_store no_fault clock fresh env
              crowded_store eq_refl) as (stats & Hr & _ & Hu & _).
  exists stats. split; [exact Hr|]. rewrite Hu. vm_compute. reflexivity.
Defined.



Lemma aged_store_ids : NoDup (map Doc.id (Store.docs aged_store)).
Proof. apply (bool_decide_unpack _). vm_compute. reflexivity. Defined.

Lemma recent_record_kept_witness :
  NoDup (map Doc.id (Store.docs aged_store))
  /\ Cleanup.older_than (cutoff 0 90) (searched_at 1 "2024-05-01T09:00:00.000Z") = false
  /\ searched_at 1 "2024-05-01T09:00:00.000Z"
     ∈ Store.docs (Cleanup.Clear no_fault cutoff env None aged_store).2.
Proof.
  split; [exact aged_store_ids|]. split; [reflexivity|].
  destruct (CleanupFacts.clearOldSearches_keeps_recent_records no_fault cutoff env None
              aged_store aged_store_ids) as (n & _ & _ & Hkept & _).
  apply Hkept; [|reflexivity].
  vm_compute. apply list_elem_of_further, list_elem_of_here.
Defined.

Lemma old_records_removed_witness :
  NoDup (map Doc.id (Store.docs aged_store))
  /\ (forall t, no_fault t = None)
  /\ (Cleanup.Clear no_fault cutoff env None aged_store).1 = Returned 2%nat
  /\ Store.docs (Cleanup.Clear no_fault cutoff env None aged_store).2
     = [searched_at 1 "2024-05-01T09:00:00.000Z"].
Proof.
  split; [exact aged_store_ids|]. split; [reflexivity|].
  destruct (CleanupFacts.clearOldSearches_removes_all_old_records no_fault cutoff env None
              aged_store aged_store_ids (fun _ => eq_refl)) as [Hn Hd].
  { vm_compute. lia. }
  split; [exact Hn|exact Hd].
Defined.

Lemma cleanup_bound_witness :
  NoDup (map Doc.id (Store.docs aged_store))
  /\ exists n,
       (Cleanup.Clear first_call_fails cutoff env (Some 30) aged_store).1 = Returned n
       /\ (n <= 100)%nat.
Proof.
  split; [exact aged_store_ids|].
  destruct (CleanupFacts.clearOldSearches_takes_out_at_most_100 first_call_fails cutoff env
              (Some 30) aged_store aged_store_ids) as (n & Hn & Hle & _).
  exists n. split; [exact Hn|exact Hle].
Defined.

Lemma spelling_witness :
  truthy_str (Store.normalize "  BatMan ") = true
  /\ Appwrite.updateSearchCount env (Some (Store.normalize "  BatMan ")) (Some batman)
     = Appwrite.updateSearchCount env (Some "  BatMan ") (Some batman).
Proof.
  split; [reflexivity|].
  exact (proj2 (proj2 (TermFacts.updateSearchCount_insensitive_to_case_and_padding
                         env "  BatMan " (Some batman) eq_refl))).
Defined.

Lemma one_record_witness :
  NoDup (map Doc.id (Store.docs empty_store))
  /\ NoDup (map Doc.searchTerm (Store.docs empty_store))
  /\ NoDup (map Doc.searchTerm
              (Store.docs (Store.Record_all no_fault clock fresh env
                             [(Some " Batman ", Some batman); (Some "BATMAN", Some batman)]
                             empty_store))).
Proof.
  split; [apply NoDup_nil_2|]. split; [apply NoDup_nil_2|].
  destruct (TermFacts.Record_keeps_one_record_per_term no_fault clock fresh env
              [(Some " Batman ", Some batman); (Some "BATMAN", Some batman)] empty_store
              NoDup_nil_2 NoDup_nil_2 (Forall_nil_2 _)) as (_ & Ht & _).
  exact Ht.
Defined.

Lemma poster_witness :
  NoDup (map Doc.id (Store.docs empty_store))
  /\ (Store.Record_ no_fault clock fresh env (Some "Batman") (Some batman) empty_store).1
     = Returned (Some first_record)
  /\ Trending.poster_path (Appwrite.to_trending first_record) = Some "/batman.jpg"%string.
Proof.
  assert (H : (Store.Record_ no_fault clock fresh env (Some "Batman") (Some batman)
                 empty_store).1 = Returned (Some first_record)).
  { vm_compute. reflexivity. }
  split; [apply NoDup_nil_2|]. split; [exact H|].
  exact (proj1 (TermFacts.poster_path_round_trip no_fault clock fresh env (Some "Batman")
                  batman empty_store first_record NoDup_nil_2 H)).
Defined.

(** *** Debouncing *)

Lemma key_strokes_witness :
  Debounce.changing (Debounce.value resting) key_strokes = true
  /\ Forall (fun k => (k.2 < Debounce.delay resting)%nat) key_strokes
  /\ last key_strokes = Some ("Inc"%string, 100%nat)
  /\ Debounce.debouncedValue
       (Debounce.play (Debounce.typing (Debounce.delay resting) key_strokes) resting)
     = EmptyString
  /\ Debounce.debouncedValue
       (Debounce.elapse 400
          (Debounce.play (Debounce.typing (Debounce.delay resting) key_strokes) resting))
     = "Inc"%string.
Proof.
  assert (Hg : Forall (fun k : string * nat => (k.2 < Debounce.delay resting)%nat)
                 key_strokes).
  { repeat constructor; vm_compute; lia. }
  assert (Hms : (Debounce.delay resting <= ("Inc"%string, 100%nat).2 + 400)%nat).
  { vm_compute. lia. }
  split; [reflexivity|]. split; [exact Hg|]. split; [reflexivity|].
  destruct (DebounceFacts.useDebounce_waits_for_a_pause resting key_strokes
              ("Inc"%string, 100%nat) 400 eq_refl Hg eq_refl Hms) as (Hquiet & Hout & _).
  split; [exact (Hquiet 3%nat)|exact Hout].
Defined.

(** *** Truncation *)

(** A result longer than the text: the suffix is longer than what is cut. *)
Lemma truncate_witness :
  "abcd"%string <> EmptyString
  /\ 3 < Z.of_nat (String.length "abcd")
  /\ Helpers.truncateText (Some "abcd"%string) 3 None = "abc..."%string
  /\ (String.length "abcd"
      < String.length (Helpers.truncateText (Some "abcd"%string) 3 None))%nat
  /\ Z.of_nat (String.length (Helpers.truncateText (Some "abcd"%string) 3 None))
     <= Z.max 0 3 + 3.
Proof.
  assert (Hne : "abcd"%string <> EmptyString) by discriminate.
  assert (Hlong : 3 < Z.of_nat (String.length "abcd")) by (vm_compute; reflexivity).
  split; [exact Hne|]. split; [exact Hlong|]. split; [reflexivity|].
  split; [vm_compute; lia|].
  destruct (proj2 (HelperFacts.truncateText_bounds "abcd" 3 None) Hne Hlong)
    as (prefix & rest & _ & _ & _ & _ & Hbound & _).
  exact Hbound.
Defined.

End Scenarios.
